(** * obsidian-backup-git: commit message builder, git engine and commit
      orchestrator

    A shallow embedding of [commit-builder.ts], [git-engine.ts] and the
    commit path of [main.ts], followed by the properties that the
    specification states about them.

    Layout.
    - [Js]: the JavaScript primitives the source uses.
    - [CommitBuilder]: commit-builder.ts.
    - [Effect]: state, thrown errors, [try]/[catch]/[finally].
    - [GitEngine]: [getDiffStats] and [stageAndCommit] of git-engine.ts, over
      an abstract simple-git handle ([Host]).
    - [Plugin]: [performCommit] and what it calls in main.ts, over an abstract
      engine ([EngineApi]).
    - [Repository], [Wiring], [Samples]: a model of the repository, the plugin
      wired to a [GitEngine], a fake engine and sample data.
    - [GitEngineRest]: the other methods of git-engine.ts.
    - [Numstat]: the output format of [git diff --numstat].
    - [Scheduling]: the debouncer, the timers, [formatTimeAgo] and the number
      fields of the settings tab in main.ts, over the host's timers and the
      events the host delivers.
    - [CommitPath], [MoreSamples]: vocabulary for the commit path, more
      sample data.
    - [SortFacts] to [WiringFacts]: the properties the specification states.
    - [BuilderEdgeFacts] to [SchedulingFacts]: further properties of the
      code.

    Conventions.
    - A JavaScript string is the Rocq [string] of its UTF-8 bytes. The
      source searches and splits text by ASCII characters only (['/'],
      ['\t'], ['\n'], ['.'], ['-'] and ASCII words), which the bytes of
      UTF-8 answer as the characters do; a separator that the source passes
      to [split] is a single byte. The white space of [trim] and [parseInt]
      is every white-space character of ECMA-262, in UTF-8.
    - A JavaScript [number] is [number]: an integer or [NaN].  Every number the
      modelled code computes is an array length, a [parseInt] result or a
      difference of two such, so fractions never arise. The integers are
      exact; the source rounds to a double outside the safe integers
      ([Js.isSafeInteger]) and prints an exponent from [1e21] on, so a
      property that states which number is read or printed is stated for
      safe integers.
    - A thrown value is an [Error] with a [message], or a value without
      one ([message] is [None]): the source reads
      [(error as Error).message] unchecked.
    - [String.prototype.localeCompare] belongs to the host, not to this
      repository: it is an operation of the class [Collator], with the laws
      ECMA-262 gives it (it defines a total ordering on all strings).
    - [Array.prototype.sort] is a stable sort; on a consistent comparator its
      result is the stably sorted permutation, computed here by insertion.
    - An [async] method is a computation in [Effect.M]: it settles by
      returning or by throwing. The only points where other callbacks can
      run are the awaited engine calls; what happens during such a call,
      the engine's own work and any change other callbacks make to the
      plugin, is the behaviour of the call ([Plugin.Pending]). *)

From Stdlib Require Import String Ascii List ZArith Lia Permutation Sorted Bool.
From Stdlib Require Import DecimalString DecimalPos.
Import ListNotations.

Local Open Scope string_scope.
Local Open Scope list_scope.
Local Open Scope Z_scope.

Infix "+++" := String.append (at level 60, right associativity).

(* ================================================================== *)
(** ** JavaScript primitives used by the source *)
(* ================================================================== *)

Module Js.

(** [number]: the integers the code can compute, and [NaN]. *)
Inductive number : Type :=
| Num (z : Z)
| NaN.

(** [a - b] *)
Definition sub (a b : number) : number :=
  match a, b with
  | Num x, Num y => Num (x - y)
  | _, _ => NaN
  end.

(** [a < b]; any comparison with [NaN] is false. *)
Definition ltb (a b : number) : bool :=
  match a, b with
  | Num x, Num y => x <? y
  | _, _ => false
  end.

(** [n.toString()] for an integer [n], printed in full; the source prints
    an exponent from [1e21] on. *)
Definition toString (z : Z) : string := NilZero.string_of_int (Z.to_int z).

(** [s.startsWith(p)] *)
Definition startsWith (s p : string) : bool := String.prefix p s.

(** [s.includes(sub)] *)
Fixpoint includes (s sub : string) : bool :=
  String.prefix sub s ||
  match s with
  | EmptyString => false
  | String _ rest => includes rest sub
  end.

(** [s.split(sep)] for a one-character separator: never empty, the empty
    string splits into one empty segment. *)
Fixpoint split (s : string) (sep : ascii) : list string :=
  match s with
  | EmptyString => [EmptyString]
  | String c rest =>
      if Ascii.eqb c sep then EmptyString :: split rest sep
      else match split rest sep with
           | seg :: segs => String c seg :: segs
           | [] => [String c EmptyString]
           end
  end.

(** Whether the character [sep] occurs in [s]. *)
Fixpoint occurs (sep : ascii) (s : string) : bool :=
  match s with
  | EmptyString => false
  | String c rest => (Ascii.eqb c sep || occurs sep rest)%bool
  end.

(** [parts.join(sep)] *)
Definition join (parts : list string) (sep : string) : string :=
  String.concat sep parts.

Fixpoint reverse (s acc : string) : string :=
  match s with
  | EmptyString => acc
  | String c rest => reverse rest (String c acc)
  end.

(** A string from the codes of its bytes. *)
Definition bytes (codes : list N) : string :=
  fold_right (fun n s => String (ascii_of_N n) s) EmptyString codes.

(** The white space of [trim] and [parseInt]: the characters WhiteSpace
    and LineTerminator of ECMA-262, each in UTF-8. They are U+0009 to
    U+000D, U+0020, U+00A0, U+1680, U+2000 to U+200A, U+2028, U+2029,
    U+202F, U+205F, U+3000 and U+FEFF. *)
Definition whiteSpace : list string :=
  map bytes
    [ [9]; [10]; [11]; [12]; [13]; [32];
      [194; 160];
      [225; 154; 128];
      [226; 128; 128]; [226; 128; 129]; [226; 128; 130]; [226; 128; 131];
      [226; 128; 132]; [226; 128; 133]; [226; 128; 134]; [226; 128; 135];
      [226; 128; 136]; [226; 128; 137]; [226; 128; 138];
      [226; 128; 168]; [226; 128; 169]; [226; 128; 175];
      [226; 129; 159];
      [227; 128; 128];
      [239; 187; 191] ]%N.

(** [s] without the prefix [p], when it starts with [p]. *)
Fixpoint dropPrefix (p s : string) : option string :=
  match p, s with
  | EmptyString, _ => Some s
  | String a p', String b s' => if Ascii.eqb a b then dropPrefix p' s' else None
  | String _ _, EmptyString => None
  end.

(** [s] without the first of [ps] that it starts with. *)
Fixpoint dropAny (ps : list string) (s : string) : option string :=
  match ps with
  | [] => None
  | p :: rest =>
      match dropPrefix p s with
      | Some t => Some t
      | None => dropAny rest s
      end
  end.

(** [s] without the characters of [ps] it starts with; [fuel] bounds their
    number. *)
Fixpoint trimWith (ps : list string) (fuel : nat) (s : string) : string :=
  match fuel with
  | O => s
  | S n =>
      match dropAny ps s with
      | Some t => trimWith ps n t
      | None => s
      end
  end.

(** [s.trimStart()]: a string has no more characters than bytes. *)
Definition trimStart (s : string) : string :=
  trimWith whiteSpace (String.length s) s.

(** The white-space characters read from the end. *)
Definition whiteSpaceReversed : list string :=
  map (fun p => reverse p EmptyString) whiteSpace.

(** [s.trimEnd()]: [trimStart] from the other end. *)
Definition trimEnd (s : string) : string :=
  reverse
    (trimWith whiteSpaceReversed (String.length s) (reverse s EmptyString))
    EmptyString.

(** [s.trim()] *)
Definition trim (s : string) : string := trimEnd (trimStart s).

(** Whether [s] is not empty and its last character is not white space. *)
Definition endsInText (s : string) : bool :=
  match s with
  | EmptyString => false
  | String _ _ =>
      match dropAny whiteSpaceReversed (reverse s EmptyString) with
      | Some _ => false
      | None => true
      end
  end.

(** [Number.MAX_SAFE_INTEGER] *)
Definition maxSafeInteger : Z := 2 ^ 53 - 1.

(** [Number.isSafeInteger(z)] on an integer: the integers that a [number]
    holds exactly, and that [toString] prints in full. *)
Definition isSafeInteger (z : Z) : bool :=
  (- maxSafeInteger <=? z) && (z <=? maxSafeInteger).

Definition isDigit (c : ascii) : bool :=
  let n := N_of_ascii c in (N.leb 48 n && N.leb n 57)%bool.

Definition digitValue (c : ascii) : Z := Z.of_N (N_of_ascii c) - 48.

(** The longest prefix of decimal digits, as a number; [None] when the
    string does not start with a digit. *)
Fixpoint digits (s : string) (acc : option Z) : option Z :=
  match s with
  | String c rest =>
      if isDigit c
      then digits rest
             (Some (10 * (match acc with Some a => a | None => 0 end)
                    + digitValue c))
      else acc
  | EmptyString => acc
  end.

(** [parseInt(s, 10)]; [None] is an [undefined] argument, which converts
    to the string ["undefined"] and so to [NaN]. The result is the integer
    that the digits denote; the source rounds it to a double when it is
    not a safe integer. *)
Definition parseInt (arg : option string) : number :=
  match arg with
  | None => NaN
  | Some s =>
      match trimStart s with
      | String "-" rest =>
          match digits rest None with Some n => Num (- n) | None => NaN end
      | String "+" rest =>
          match digits rest None with Some n => Num n | None => NaN end
      | t => match digits t None with Some n => Num n | None => NaN end
      end
  end.

(** [arr.slice(0, stop)]: a negative [stop] counts from the end. *)
Definition slice0 {A : Type} (arr : list A) (stop : Z) : list A :=
  if stop <? 0
  then firstn (Z.to_nat (Z.max (Z.of_nat (length arr) + stop) 0)) arr
  else firstn (Z.to_nat stop) arr.

Section Sort.
Context {A : Type} (compareFn : A -> A -> Z).

(** [x] comes from the left of everything in [sorted], so it goes before
    the first element it does not exceed: ties keep the input order. *)
Fixpoint insert (x : A) (sorted : list A) : list A :=
  match sorted with
  | [] => [x]
  | y :: rest =>
      if compareFn x y <=? 0 then x :: sorted else y :: insert x rest
  end.

(** [[...arr].sort(compareFn)] *)
Definition sort (arr : list A) : list A := fold_right insert [] arr.

(** [a] does not come after [b]. *)
Definition notAfter (a b : A) : Prop := compareFn a b <= 0.

(** Two elements that [sort] cannot tell apart and that [f] maps alike. *)
Definition alike {B : Type} (f : A -> B) (a b : A) : Prop :=
  compareFn a b = 0 /\ f a = f b.
End Sort.

(** The host's collation behind [a.localeCompare(b)]: negative, zero or
    positive, a total ordering on strings. *)
Class Collator : Type := {
  localeCompare : string -> string -> Z;
  localeCompare_refl : forall a, localeCompare a a = 0;
  localeCompare_antisym :
    forall a b, Z.sgn (localeCompare b a) = - Z.sgn (localeCompare a b);
  localeCompare_trans :
    forall a b c,
      localeCompare a b <= 0 -> localeCompare b c <= 0 ->
      localeCompare a c <= 0
}.

(** Comparison by character code, the collation the specification names. *)
Fixpoint codeUnitCompare (a b : string) : Z :=
  match a, b with
  | EmptyString, EmptyString => 0
  | EmptyString, String _ _ => -1
  | String _ _, EmptyString => 1
  | String c a', String d b' =>
      match N.compare (N_of_ascii c) (N_of_ascii d) with
      | Lt => -1
      | Gt => 1
      | Eq => codeUnitCompare a' b'
      end
  end.

(** [s.toLowerCase()] on the letters A to Z. *)
Definition lowerChar (c : ascii) : ascii :=
  let n := N_of_ascii c in
  if (N.leb 65 n && N.leb n 90)%bool then ascii_of_N (n + 32) else c.

Fixpoint toLowerCase (s : string) : string :=
  match s with
  | EmptyString => EmptyString
  | String c rest => String (lowerChar c) (toLowerCase rest)
  end.

(** A collation that, like the one browsers ship for [localeCompare], puts
    letters before their case: ["a"] sorts before ["B"]. *)
Definition caseInsensitiveCompare (a b : string) : Z :=
  codeUnitCompare (toLowerCase a) (toLowerCase b).

(** A thrown value. Only its [message] is inspected: the text for an
    [Error], [None] for a value without a [message] that is a string. *)
Record Error : Type := { message : option string }.

End Js.

(* ================================================================== *)
(** ** commit-builder.ts *)
(* ================================================================== *)

Module CommitBuilder.
Import Js.

Record FileDiffStat : Type := {
  path : string;
  additions : number;
  deletions : number;
  netChange : number
}.

Record CommitMessageOptions : Type := {
  files : list FileDiffStat;
  maxFiles : option Z
}.

Record FileGroup : Type := {
  hidden : list FileDiffStat;
  regular : list FileDiffStat
}.

Definition hasNetDeletions (stat : FileDiffStat) : bool :=
  ltb (netChange stat) (Num 0).

Definition formatFileName (stat : FileDiffStat) : string :=
  if hasNetDeletions stat then path stat +++ " [DELETES]" else path stat.

(** The test of [categorizeFiles] and of [filterFilesBySettings]:
    [path.split('/').some(part => part.startsWith('.'))]. *)
Definition isHidden (p : string) : bool :=
  existsb (fun part => startsWith part ".") (split p "/").

(** The [for ... of] loop: each file is pushed on one of the two arrays. *)
Definition categorizeFiles (fs : list FileDiffStat) : FileGroup :=
  fold_left
    (fun (acc : FileGroup) (file : FileDiffStat) =>
       if isHidden (path file)
       then {| hidden := hidden acc ++ [file]; regular := regular acc |}
       else {| hidden := hidden acc; regular := regular acc ++ [file] |})
    fs {| hidden := []; regular := [] |}.

Definition buildSingleFileCommitMessage (stat : FileDiffStat) : string :=
  "chore: update " +++ formatFileName stat.

Section WithCollator.
Context `{Collator}.

(** [(a, b) => a.path.localeCompare(b.path)] *)
Definition byPath (a b : FileDiffStat) : Z :=
  localeCompare (path a) (path b).

Definition buildCommitMessage (options : CommitMessageOptions) : string :=
  let fs := files options in
  let maxFiles := match maxFiles options with Some k => k | None => 5 end in
  if Nat.eqb (length fs) 0 then "chore: update files"
  else
    let sortedFiles := sort byPath fs in
    let formattedFiles := map formatFileName sortedFiles in
    let fileList :=
      if Z.of_nat (length formattedFiles) <=? maxFiles
      then join formattedFiles ", "
      else
        let shown := slice0 formattedFiles maxFiles in
        let remaining := Z.of_nat (length formattedFiles) - maxFiles in
        join shown ", " +++ " and " +++ toString remaining +++ " more"
    in
    "chore: update " +++ fileList.

Definition buildHiddenFilesCommitMessage (fs : list FileDiffStat) : string :=
  if Nat.eqb (length fs) 0 then "chore: update hidden files"
  else
    let sortedFiles := sort byPath fs in
    let formattedFiles := map formatFileName sortedFiles in
    let fileList := join formattedFiles ", " in
    "chore: update hidden files (" +++ fileList +++ ")".
(** The entries that [buildCommitMessage] names: all of them in sorted
    order, or the slice that is shown when there are more than [maxFiles]. *)
Definition listedFiles (options : CommitMessageOptions) : list FileDiffStat :=
  let maxFiles := match maxFiles options with Some k => k | None => 5 end in
  let sortedFiles := sort byPath (files options) in
  if Z.of_nat (length sortedFiles) <=? maxFiles then sortedFiles
  else slice0 sortedFiles maxFiles.
End WithCollator.

(** A stat with the given path and net change. *)
Definition stat (p : string) (net : Z) : FileDiffStat :=
  {| path := p; additions := Num (Z.max net 0); deletions := Num (Z.max (- net) 0);
     netChange := Num net |}.

End CommitBuilder.

(* ================================================================== *)
(** ** Effects: state, thrown errors, [try]/[catch]/[finally] *)
(* ================================================================== *)

Module Effect.
Import Js.

(** How a call settles. *)
Inductive outcome (A : Type) : Type :=
| Returned (a : A)
| Thrown (e : Error).
Arguments Returned {A} a.
Arguments Thrown {A} e.

(** A computation over a world [W]. Every modelled function is a finite
    sequence of steps, so it always settles. *)
Definition M (W A : Type) : Type := W -> outcome A * W.

Definition ret {W A : Type} (a : A) : M W A := fun w => (Returned a, w).

Definition throw {W A : Type} (e : Error) : M W A := fun w => (Thrown e, w).

Definition bind {W A B : Type} (m : M W A) (k : A -> M W B) : M W B :=
  fun w =>
    match m w with
    | (Returned a, w') => k a w'
    | (Thrown e, w') => (Thrown e, w')
    end.

Definition gets {W A : Type} (f : W -> A) : M W A :=
  fun w => (Returned (f w), w).

Definition modify {W : Type} (f : W -> W) : M W unit :=
  fun w => (Returned tt, f w).

(** [try { body } catch (e) { handler(e) }] *)
Definition tryCatch {W A : Type} (body : M W A) (handler : Error -> M W A)
  : M W A :=
  fun w =>
    match body w with
    | (Returned a, w') => (Returned a, w')
    | (Thrown e, w') => handler e w'
    end.

(** [try { body } finally { cleanup }]: [cleanup] runs however [body]
    settles, and the outcome of [body] stands unless [cleanup] throws. *)
Definition tryFinally {W A : Type} (body : M W A) (cleanup : M W unit)
  : M W A :=
  fun w =>
    match body w with
    | (r, w') =>
        match cleanup w' with
        | (Returned _, w'') => (r, w'')
        | (Thrown e, w'') => (Thrown e, w'')
        end
    end.

Definition when {W : Type} (b : bool) (m : M W unit) : M W unit :=
  if b then m else ret tt.

End Effect.

Notation "x <- m ;; k" := (Effect.bind m (fun x => k))
  (at level 61, m at next level, right associativity).
Notation "m ;; k" := (Effect.bind m (fun _ => k))
  (at level 61, right associativity).

(* ================================================================== *)
(** ** git-engine.ts *)
(* ================================================================== *)

Module GitEngine.
Import Js CommitBuilder Effect.

Inductive State : Type := idle | committing | error.

Record GitStatus : Type := {
  state : State;
  lastCommitTime : option Z;
  lastCommitMessage : option string
}.

(** [Partial<GitStatus>] *)
Record GitStatusUpdate : Type := {
  newState : option State;
  newLastCommitTime : option Z;
  newLastCommitMessage : option string
}.

(** The fields of simple-git's [StatusResult] that [getDiffStats] reads. *)
Record StatusResult : Type := {
  tracking : option string;
  not_added : list string
}.

(** What the engine runs on: the simple-git handle and the clock. [G] is
    the state behind them (the repository on disk, the time). *)
Class Host (G : Type) : Type := {
  git_status : M G StatusResult;
  git_raw : list string -> M G string;
  git_add : string -> M G unit;
  git_commit : string -> M G unit;
  date_now : M G Z
}.

(** A [GitEngine] instance. [config.onStatusChange] and [config.onError]
    are observers: the calls made to them are logged. *)
Record Engine (G : Type) : Type := {
  git : G;
  currentStatus : GitStatus;
  onStatusChange : list GitStatus;
  onError : list Error
}.
Arguments git {G} _.
Arguments currentStatus {G} _.
Arguments onStatusChange {G} _.
Arguments onError {G} _.

Definition initialStatus : GitStatus :=
  {| state := idle; lastCommitTime := None; lastCommitMessage := None |}.

Definition merge (old : GitStatus) (updates : GitStatusUpdate) : GitStatus :=
  {| state := match newState updates with Some s => s | None => state old end;
     lastCommitTime :=
       match newLastCommitTime updates with
       | Some t => Some t
       | None => lastCommitTime old
       end;
     lastCommitMessage :=
       match newLastCommitMessage updates with
       | Some m => Some m
       | None => lastCommitMessage old
       end |}.

Definition onlyState (s : State) : GitStatusUpdate :=
  {| newState := Some s; newLastCommitTime := None;
     newLastCommitMessage := None |}.

Definition untracked (file : string) : FileDiffStat :=
  {| path := file; additions := Num 0; deletions := Num 0;
     netChange := Num 0 |}.

Definition tab : ascii := "009"%char.
Definition newline : ascii := "010"%char.

Definition isDash (field : option string) : bool :=
  match field with
  | Some s => String.eqb s "-"
  | None => false
  end.

(** The body of the loop over the lines of [git diff --numstat HEAD]:
    [const [addStr, delStr, path] = line.split('\t')] and one [push].
    A line with fewer than three fields leaves [path] undefined in the
    source; git prints no such line, and the model stores the empty string
    there. *)
Definition pushLine (stats : list FileDiffStat) (line : string)
  : list FileDiffStat :=
  let fields := split line tab in
  let addStr := nth_error fields 0 in
  let delStr := nth_error fields 1 in
  let path := match nth_error fields 2 with Some p => p | None => "" end in
  if (isDash addStr || isDash delStr)%bool
  then stats ++ [{| path := path; additions := Num 0; deletions := Num 0;
                    netChange := Num 0 |}]
  else
    let additions := parseInt addStr in
    let deletions := parseInt delStr in
    stats ++ [{| path := path; additions := additions;
                 deletions := deletions;
                 netChange := sub additions deletions |}].

(** The lines that git prints for a binary file: a dash for a count. *)
Definition binaryLine (line : string) : bool :=
  let fields := split line tab in
  (isDash (nth_error fields 0) || isDash (nth_error fields 1))%bool.

(** What is asked of the entry [s] for the line [line] of the numstat
    output: the path of the line, zero counts for a binary line and the
    counts of the line otherwise, and their difference. *)
Definition readsLine (line : string) (s : FileDiffStat) : Prop :=
  let fields := split line tab in
  (forall p, nth_error fields 2 = Some p -> path s = p) /\
  netChange s = sub (additions s) (deletions s) /\
  if binaryLine line
  then additions s = Num 0 /\ deletions s = Num 0
  else additions s = parseInt (nth_error fields 0) /\
       deletions s = parseInt (nth_error fields 1).

Definition pushUntracked (stats : list FileDiffStat) (file : string)
  : list FileDiffStat :=
  stats ++ [untracked file].

(** [diffOutput.trim().split('\n').filter((line) => line)] *)
Definition numstatLines (diffOutput : string) : list string :=
  filter (fun line => negb (String.eqb line "")) (split (trim diffOutput) newline).

(** [!status.tracking]: [null] and the empty string are falsy. *)
Definition noTracking (status : StatusResult) : bool :=
  match tracking status with
  | None => true
  | Some s => String.eqb s ""
  end.

Section WithHost.
Context {G : Type} `{Host G}.

(** A call on [this.git] or on the clock. *)
Definition onGit {A : Type} (op : M G A) : M (Engine G) A :=
  fun eng =>
    match op (git eng) with
    | (r, g') =>
        (r, {| git := g'; currentStatus := currentStatus eng;
               onStatusChange := onStatusChange eng;
               onError := onError eng |})
    end.

Definition updateStatus (updates : GitStatusUpdate) : M (Engine G) unit :=
  modify (fun eng =>
            let status := merge (currentStatus eng) updates in
            {| git := git eng; currentStatus := status;
               onStatusChange := onStatusChange eng ++ [status];
               onError := onError eng |}).

Definition handleError (err : Error) : M (Engine G) unit :=
  modify (fun eng =>
            {| git := git eng; currentStatus := currentStatus eng;
               onStatusChange := onStatusChange eng;
               onError := onError eng ++ [err] |}).

Definition getDiffStats : M (Engine G) (list FileDiffStat) :=
  tryCatch
    (status <- onGit git_status ;;
     if noTracking status
     then ret (fold_left pushUntracked (not_added status) [])
     else
       diffOutput <- onGit (git_raw ["diff"; "--numstat"; "HEAD"]) ;;
       let stats := fold_left pushLine (numstatLines diffOutput) [] in
       ret (fold_left pushUntracked (not_added status) stats))
    (fun err => handleError err ;; throw err).

Definition stageAndCommit (message : string) : M (Engine G) unit :=
  tryCatch
    (updateStatus (onlyState committing) ;;
     onGit (git_add "-A") ;;
     onGit (git_commit message) ;;
     now <- onGit date_now ;;
     updateStatus {| newState := Some idle; newLastCommitTime := Some now;
                     newLastCommitMessage := Some message |})
    (fun err =>
       updateStatus (onlyState error) ;;
       handleError err ;;
       throw err).
End WithHost.

End GitEngine.

(* ================================================================== *)
(** ** main.ts: the commit path of [LocalGitPlugin] *)
(* ================================================================== *)

Module Plugin.
Import Js CommitBuilder Effect.

Inductive CommitMode : Type := batch | individual.

Inductive HiddenFilesHandling : Type :=
| group
| separate
| never
| gitignore_only.

(** The settings the commit path reads. *)
Record LocalGitSettings : Type := {
  maxFilesInCommitMessage : Z;
  commitMode : CommitMode;
  hiddenFilesHandling : HiddenFilesHandling;
  debugLogging : bool
}.

(** The fields of the plugin object that the commit path touches.
    [gitEngine] tells whether [this.gitEngine] is set; [notices] are the
    [Notice]s shown and [console] the lines logged, oldest first. *)
Record Fields : Type := {
  settings : LocalGitSettings;
  gitEngine : bool;
  commitInProgress : bool;
  notices : list string;
  console : list string
}.

(** A method call on [this.gitEngine]. *)
Inductive Call : Type :=
| GetDiffStats
| FilterIgnoredFiles (stats : list FileDiffStat)
| StageAndCommit (message : string)
| StageAndCommitFiles (paths : list string) (message : string).

(** What happens between the start of an engine call and the moment the
    caller resumes: the engine works on its state [E], and any other callback
    of the plugin may run meanwhile and change the plugin's fields. *)
Definition Pending (E A : Type) : Type := M (Fields * E) A.

(** The methods of [GitEngine] that the commit path awaits. *)
Class EngineApi (E : Type) : Type := {
  getDiffStats : Pending E (list FileDiffStat);
  filterIgnoredFiles : list FileDiffStat -> Pending E (list FileDiffStat);
  stageAndCommit : string -> Pending E unit;
  stageAndCommitFiles : list string -> string -> Pending E unit
}.

(** An engine call that leaves [commitInProgress] as it found it: nothing
    that runs while the call is pending writes the guard. *)
Definition guardStable {E A : Type} (op : Pending E A) : Prop :=
  forall fe, commitInProgress (fst (snd (op fe))) = commitInProgress (fst fe).

Definition keepsGuard {E : Type} (api : EngineApi E) : Prop :=
  guardStable (@getDiffStats E api) /\
  (forall stats, guardStable (@filterIgnoredFiles E api stats)) /\
  (forall message, guardStable (@stageAndCommit E api message)) /\
  (forall paths message, guardStable (@stageAndCommitFiles E api paths message)).

(** The same call, which also notes whether it started with the guard
    clear. *)
Definition watch {E A : Type} (op : Pending E A) : Pending (E * bool) A :=
  fun fe =>
    match op (fst fe, fst (snd fe)) with
    | (r, (f, e)) =>
        (r, (f, (e, (snd (snd fe) || negb (commitInProgress (fst fe)))%bool)))
    end.

(** The same engine with every call watched. *)
Definition watched {E : Type} (api : EngineApi E) : EngineApi (E * bool) := {|
  getDiffStats := watch (@getDiffStats E api);
  filterIgnoredFiles := fun stats => watch (@filterIgnoredFiles E api stats);
  stageAndCommit := fun message => watch (@stageAndCommit E api message);
  stageAndCommitFiles := fun paths message =>
    watch (@stageAndCommitFiles E api paths message)
|}.

(** The plugin, its engine, and the engine calls issued so far. *)
Record World (E : Type) : Type := {
  this : Fields;
  engine : E;
  calls : list Call
}.
Arguments this {E} _.
Arguments engine {E} _.
Arguments calls {E} _.

(** On a watched engine: the guard is set and no call has started without
    it. *)
Definition held {E : Type} (w : World (E * bool)) : Prop :=
  commitInProgress (this w) = true /\ snd (engine w) = false.

(** A step that keeps [held], however it settles. *)
Definition holds {E A : Type} (m : M (World (E * bool)) A) : Prop :=
  forall w, held w -> held (snd (m w)).

Definition isManual (triggeredBy : string) : bool :=
  String.eqb triggeredBy "manual".

Definition nullEngine (method : string) : Error :=
  {| message :=
       Some ("Cannot read properties of null (reading '" +++ method +++ "')") |}.

(** The [TypeError] that the [catch] block of [performCommit] throws when
    there is no message to search; the text is the one V8 gives for
    [errorMsg.includes(...)] on an undefined [errorMsg]. *)
Definition noIncludes : Error :=
  {| message :=
       Some "Cannot read properties of undefined (reading 'includes')" |}.

(** How [console.error] shows a caught value: by its message, when it has
    one. *)
Definition shown (err : Error) : string :=
  match message err with
  | Some text => text
  | None => ""
  end.

Section WithEngine.
Context {E : Type} `{EngineApi E}.

Definition onThis (f : Fields -> Fields) : M (World E) unit :=
  modify (fun w => {| this := f (this w); engine := engine w;
                      calls := calls w |}).

(** [new Notice(text)] *)
Definition notice (text : string) : M (World E) unit :=
  onThis (fun f => {| settings := settings f; gitEngine := gitEngine f;
                      commitInProgress := commitInProgress f;
                      notices := notices f ++ [text];
                      console := console f |}).

(** [console.log(text)] and [console.error(text)] *)
Definition log (text : string) : M (World E) unit :=
  onThis (fun f => {| settings := settings f; gitEngine := gitEngine f;
                      commitInProgress := commitInProgress f;
                      notices := notices f;
                      console := console f ++ [text] |}).

(** [this.commitInProgress = b] *)
Definition setCommitInProgress (b : bool) : M (World E) unit :=
  onThis (fun f => {| settings := settings f; gitEngine := gitEngine f;
                      commitInProgress := b;
                      notices := notices f;
                      console := console f |}).

(** [await this.gitEngine.method(...)]: a [TypeError] when the field is
    null, else the call is issued and the caller resumes when it settles. *)
Definition await {A : Type} (method : string) (c : Call) (op : Pending E A)
  : M (World E) A :=
  fun w =>
    if gitEngine (this w)
    then match op (this w, engine w) with
         | (r, (f, e)) =>
             (r, {| this := f; engine := e; calls := calls w ++ [c] |})
         end
    else (Thrown (nullEngine method), w).

(** A step that returns without an engine call: it may show a notice or
    log a line, and leaves the rest alone. *)
Definition silent (m : M (World E) unit) : Prop :=
  forall w,
  exists w',
    m w = (Returned tt, w') /\ calls w' = calls w /\ engine w' = engine w /\
    settings (this w') = settings (this w) /\
    gitEngine (this w') = gitEngine (this w) /\
    commitInProgress (this w') = commitInProgress (this w).

Definition filterFilesBySettings (stats : list FileDiffStat)
  : M (World E) (list FileDiffStat) :=
  f <- gets this ;;
  if negb (gitEngine f) then ret stats
  else
    match hiddenFilesHandling (settings f) with
    | gitignore_only =>
        await "filterIgnoredFiles" (FilterIgnoredFiles stats)
          (filterIgnoredFiles stats)
    | never => ret (filter (fun stat => negb (isHidden (path stat))) stats)
    | _ => ret stats
    end.

Section WithCollator.
Context `{Collator}.

Definition countOf {A : Type} (l : list A) : string :=
  toString (Z.of_nat (length l)).

Definition performBatchCommit (stats : list FileDiffStat) (triggeredBy : string)
  : M (World E) unit :=
  f <- gets this ;;
  if negb (gitEngine f) then ret tt
  else
    (match hiddenFilesHandling (settings f) with
     | separate =>
         let g := categorizeFiles stats in
         when (negb (Nat.eqb (length (regular g)) 0))
           (let message :=
              buildCommitMessage
                {| files := regular g;
                   maxFiles := Some (maxFilesInCommitMessage (settings f)) |} in
            await "stageAndCommitFiles"
              (StageAndCommitFiles (map path (regular g)) message)
              (stageAndCommitFiles (map path (regular g)) message)) ;;
         when (negb (Nat.eqb (length (hidden g)) 0))
           (let message := buildHiddenFilesCommitMessage (hidden g) in
            await "stageAndCommitFiles"
              (StageAndCommitFiles (map path (hidden g)) message)
              (stageAndCommitFiles (map path (hidden g)) message)) ;;
         when (isManual triggeredBy)
           (let commitCount :=
              (if negb (Nat.eqb (length (regular g)) 0) then 1 else 0)
              + (if negb (Nat.eqb (length (hidden g)) 0) then 1 else 0) in
            notice ("Committed " +++ countOf stats +++ " file(s) in "
                    +++ toString commitCount +++ " commit(s)"))
     | _ =>
         let message :=
           buildCommitMessage
             {| files := stats;
                maxFiles := Some (maxFilesInCommitMessage (settings f)) |} in
         await "stageAndCommit" (StageAndCommit message)
           (stageAndCommit message) ;;
         when (isManual triggeredBy)
           (notice ("Committed " +++ countOf stats +++ " file(s)"))
     end) ;;
    s <- gets (fun w => settings (this w)) ;;
    when (debugLogging s)
      (log ("[Local Git] Batch commit (" +++ triggeredBy +++ ") completed")).

(** One commit for one file; the result is the updated [committedCount]. *)
Definition commitOne (stat : FileDiffStat) (committedCount : Z)
  : M (World E) Z :=
  let message := buildSingleFileCommitMessage stat in
  await "stageAndCommitFiles" (StageAndCommitFiles [path stat] message)
    (stageAndCommitFiles [path stat] message) ;;
  ret (committedCount + 1).

Fixpoint commitEach (stats : list FileDiffStat) (committedCount : Z)
  : M (World E) Z :=
  match stats with
  | [] => ret committedCount
  | stat :: rest =>
      n <- commitOne stat committedCount ;;
      commitEach rest n
  end.

Definition performIndividualCommits (stats : list FileDiffStat)
  (triggeredBy : string) : M (World E) unit :=
  f <- gets this ;;
  if negb (gitEngine f) then ret tt
  else
    committedCount <-
      (match hiddenFilesHandling (settings f) with
       | separate =>
           let g := categorizeFiles stats in
           n <- commitEach (regular g) 0 ;;
           if negb (Nat.eqb (length (hidden g)) 0)
           then
             let message := buildHiddenFilesCommitMessage (hidden g) in
             await "stageAndCommitFiles"
               (StageAndCommitFiles (map path (hidden g)) message)
               (stageAndCommitFiles (map path (hidden g)) message) ;;
             ret (n + 1)
           else ret n
       | _ => commitEach stats 0
       end) ;;
    when (isManual triggeredBy)
      (notice ("Created " +++ toString committedCount +++ " commit(s) for "
               +++ countOf stats +++ " file(s)")) ;;
    s <- gets (fun w => settings (this w)) ;;
    when (debugLogging s)
      (log ("[Local Git] Individual commits (" +++ triggeredBy +++ "): "
            +++ toString committedCount +++ " commits")).

(** The [catch] block of [performCommit]. [(error as Error).message] is
    read unchecked: on a value without a message, [errorMsg.includes]
    throws. *)
Definition reportFailure (err : Error) : M (World E) unit :=
  log ("[Local Git] Commit failed: " +++ shown err) ;;
  match message err with
  | Some errorMsg =>
      if includes errorMsg "not a git repository"
      then notice "Git repository not initialized. Check plugin settings."
      else if includes errorMsg "permission denied"
      then notice "Permission denied. Check file permissions."
      else notice ("Commit failed: " +++ errorMsg)
  | None => throw noIncludes
  end.

(** The [try] block of [performCommit]. *)
Definition commitChanges (triggeredBy : string) : M (World E) unit :=
  stats <- await "getDiffStats" GetDiffStats getDiffStats ;;
  stats <- filterFilesBySettings stats ;;
  if Nat.eqb (length stats) 0
  then when (isManual triggeredBy) (notice "No changes to commit")
  else
    s <- gets (fun w => settings (this w)) ;;
    match commitMode s with
    | individual => performIndividualCommits stats triggeredBy
    | batch => performBatchCommit stats triggeredBy
    end.

Definition performCommit (triggeredBy : string) : M (World E) unit :=
  f <- gets this ;;
  if commitInProgress f
  then when (isManual triggeredBy) (notice "Commit already in progress")
  else if negb (gitEngine f)
  then notice "Git engine not initialized"
  else
    setCommitInProgress true ;;
    tryFinally
      (tryCatch (commitChanges triggeredBy) reportFailure)
      (setCommitInProgress false).

End WithCollator.
End WithEngine.

End Plugin.

(* ================================================================== *)
(** ** A model of the repository behind simple-git *)
(* ================================================================== *)

Module Repository.
Import Js Effect GitEngine.

Record Commit : Type := {
  subject : string;
  contents : list string
}.

(** The vault's repository as the engine sees it. [pendingChanges] are the
    paths whose working-tree state differs from the last commit, untracked
    ones included; [numstat] is what [git diff --numstat HEAD] prints and
    [untrackedFiles] what [git status] lists as not added. *)
Record Repo : Type := {
  upstream : option string;
  untrackedFiles : list string;
  numstat : string;
  pendingChanges : list string;
  index : list string;
  history : list Commit;
  clock : Z
}.

(** [git add -A] stages every pending change of the working tree. *)
Definition addAll (r : Repo) : Repo :=
  {| upstream := upstream r; untrackedFiles := []; numstat := "";
     pendingChanges := []; index := index r ++ pendingChanges r;
     history := history r; clock := clock r |}.

(** [git commit -m message] records the index. *)
Definition commitIndex (message : string) (r : Repo) : Repo :=
  {| upstream := upstream r; untrackedFiles := untrackedFiles r;
     numstat := numstat r; pendingChanges := pendingChanges r; index := [];
     history := history r ++ [{| subject := message; contents := index r |}];
     clock := clock r |}.

#[export] Instance repoHost : Host Repo := {|
  git_status :=
    gets (fun r => {| tracking := upstream r; not_added := untrackedFiles r |});
  git_raw := fun _ => gets numstat;
  git_add := fun what =>
    if String.eqb what "-A" then modify addAll else ret tt;
  git_commit := fun message => modify (commitIndex message);
  date_now := gets clock
|}.

End Repository.

(* ================================================================== *)
(** ** main.ts, [onload]: the plugin's engine is a [GitEngine] *)
(* ================================================================== *)

Module Wiring.
Import Js CommitBuilder Effect.

Section WithHost.
Context {G : Type} `{GitEngine.Host G}.

(** The two engine methods that main.ts awaits and git-engine.ts does not
    define. *)
Variable filterIgnoredFiles :
  list FileDiffStat -> Plugin.Pending (GitEngine.Engine G) (list FileDiffStat).
Variable stageAndCommitFiles :
  list string -> string -> Plugin.Pending (GitEngine.Engine G) unit.

(** An engine method leaves the plugin's fields alone. *)
Definition onEngine {A : Type} (op : M (GitEngine.Engine G) A)
  : Plugin.Pending (GitEngine.Engine G) A :=
  fun fe =>
    match op (snd fe) with
    | (r, e') => (r, (fst fe, e'))
    end.

Definition engineApi : Plugin.EngineApi (GitEngine.Engine G) := {|
  Plugin.getDiffStats := onEngine GitEngine.getDiffStats;
  Plugin.filterIgnoredFiles := filterIgnoredFiles;
  Plugin.stageAndCommit := fun message =>
    onEngine (GitEngine.stageAndCommit message);
  Plugin.stageAndCommitFiles := stageAndCommitFiles
|}.
End WithHost.

End Wiring.

(* ================================================================== *)
(** ** A fake engine and sample data *)
(* ================================================================== *)

Module Samples.
Import Js CommitBuilder Effect Plugin.

(** An engine without state: the diff-stats query answers [stats], and the
    staging calls return, or throw [failure] when there is one. *)
Definition fakeEngine (stats : list FileDiffStat) (failure : option Error)
  : EngineApi unit := {|
  getDiffStats := ret stats;
  filterIgnoredFiles := fun kept => ret kept;
  stageAndCommit := fun _ =>
    match failure with Some err => throw err | None => ret tt end;
  stageAndCommitFiles := fun _ _ =>
    match failure with Some err => throw err | None => ret tt end
|}.

Definition sampleSettings (mode : CommitMode) (handling : HiddenFilesHandling)
  : LocalGitSettings :=
  {| maxFilesInCommitMessage := 5; commitMode := mode;
     hiddenFilesHandling := handling; debugLogging := false |}.

(** A freshly loaded plugin, with the guard as given. *)
Definition samplePlugin {E : Type} (mode : CommitMode)
  (handling : HiddenFilesHandling) (busy : bool) (e : E) : World E :=
  {| this := {| settings := sampleSettings mode handling; gitEngine := true;
                commitInProgress := busy; notices := []; console := [] |};
     engine := e; calls := [] |}.

(** Two regular files and a hidden one. *)
Definition sampleStats : list FileDiffStat :=
  [stat "notes/b.md" 3; stat ".obsidian/app.json" 1; stat "a.md" (-2)].

(** A repository with one modified note and one untracked hidden file. *)
Definition sampleRepo : Repository.Repo :=
  {| Repository.upstream := Some "origin/main";
     Repository.untrackedFiles := [".obsidian/app.json"];
     Repository.numstat :=
       String "3" (String GitEngine.tab (String "1" (String GitEngine.tab
         ("note.md" +++ String GitEngine.newline ""))));
     Repository.pendingChanges := ["note.md"; ".obsidian/app.json"];
     Repository.index := [];
     Repository.history := [];
     Repository.clock := 1700000000000 |}.

Definition sampleEngine : GitEngine.Engine Repository.Repo :=
  {| GitEngine.git := sampleRepo;
     GitEngine.currentStatus := GitEngine.initialStatus;
     GitEngine.onStatusChange := [];
     GitEngine.onError := [] |}.

End Samples.

(* ================================================================== *)
(** ** git-engine.ts: the other methods *)
(* ================================================================== *)

Module GitEngineRest.
Import Js CommitBuilder Effect GitEngine.

Record Renamed : Type := { from : string; to : string }.

(** The fields of simple-git's [StatusResult] that [getChangedFiles]
    reads. *)
Record FileStatus : Type := {
  notAdded : list string;
  created : list string;
  deleted : list string;
  modified : list string;
  renamed : list Renamed
}.

(** The fields of [log.latest] that [getLastCommitInfo] reads. *)
Record LogLine : Type := {
  log_hash : string;
  log_message : string;
  log_date : string;
  log_author_name : string
}.

Record CommitInfo : Type := {
  hash : string;
  subjectLine : string;
  date : string;
  author : string
}.

(** The rest of the simple-git handle: [status()] read in full, [init()]
    and [log({ maxCount: 1 })], whose [latest] is null in an empty
    history. *)
Class HostRest (G : Type) : Type := {
  git_fileStatus : M G FileStatus;
  git_init : M G unit;
  git_log : M G (option LogLine)
}.

(** [set.add(x)] on a [Set], kept in insertion order. *)
Definition setAdd (set : list string) (x : string) : list string :=
  if existsb (String.eqb x) set then set else set ++ [x].

(** [[...new Set(arr)]] *)
Definition unique (arr : list string) : list string :=
  fold_left setAdd arr [].

Section WithHost.
Context {G : Type} `{Host G} `{HostRest G}.

Definition isGitRepo : M (Engine G) bool :=
  tryCatch (onGit git_status ;; ret true) (fun _ => ret false).

Definition initializeRepo : M (Engine G) unit :=
  tryCatch
    (onGit git_init ;; updateStatus (onlyState idle))
    (fun err => handleError err ;; throw err).

Definition getChangedFiles : M (Engine G) (list string) :=
  tryCatch
    (status <- onGit git_fileStatus ;;
     let changedFiles :=
       notAdded status ++ created status ++ deleted status
       ++ modified status ++ map to (renamed status) in
     ret (unique changedFiles))
    (fun err => handleError err ;; throw err).

Definition getLastCommitInfo : M (Engine G) (option CommitInfo) :=
  tryCatch
    (latest <- onGit git_log ;;
     match latest with
     | Some line =>
         ret (Some {| hash := log_hash line; subjectLine := log_message line;
                      date := log_date line;
                      author := log_author_name line |})
     | None => ret None
     end)
    (fun err => handleError err ;; ret None).

Definition checkGitInstalled : M (Engine G) bool :=
  tryCatch (onGit (git_raw ["--version"]) ;; ret true) (fun _ => ret false).
End WithHost.

End GitEngineRest.

(* ================================================================== *)
(** ** The output of [git diff --numstat] *)
(* ================================================================== *)

Module Numstat.
Import Js CommitBuilder GitEngine.

(** The value of a decimal numeral, read from the left after [acc]. *)
Fixpoint numeralValue (d : Decimal.uint) (acc : Z) : Z :=
  match d with
  | Decimal.Nil => acc
  | Decimal.D0 l => numeralValue l (10 * acc + 0)
  | Decimal.D1 l => numeralValue l (10 * acc + 1)
  | Decimal.D2 l => numeralValue l (10 * acc + 2)
  | Decimal.D3 l => numeralValue l (10 * acc + 3)
  | Decimal.D4 l => numeralValue l (10 * acc + 4)
  | Decimal.D5 l => numeralValue l (10 * acc + 5)
  | Decimal.D6 l => numeralValue l (10 * acc + 6)
  | Decimal.D7 l => numeralValue l (10 * acc + 7)
  | Decimal.D8 l => numeralValue l (10 * acc + 8)
  | Decimal.D9 l => numeralValue l (10 * acc + 9)
  end.

(** What git counts for a file: added and deleted lines, or nothing for a
    binary file. *)
Inductive Counts : Type :=
| Lines (added deleted : Z)
| Binary.

Record Entry : Type := { counts : Counts; file : string }.

(** One line: the two counts, or two dashes, and the path, separated by
    tabs. *)
Definition renderLine (e : Entry) : string :=
  match counts e with
  | Lines added deleted =>
      toString added +++ String tab (toString deleted +++ String tab (file e))
  | Binary => "-" +++ String tab ("-" +++ String tab (file e))
  end.

(** The two count fields of a line. *)
Definition firstField (e : Entry) : string :=
  match counts e with Lines added _ => toString added | Binary => "-" end.

Definition secondField (e : Entry) : string :=
  match counts e with Lines _ deleted => toString deleted | Binary => "-" end.

(** The whole output: every line ends with a newline. *)
Fixpoint render (entries : list Entry) : string :=
  match entries with
  | [] => ""
  | e :: rest => renderLine e +++ String newline (render rest)
  end.

(** The stat that an entry stands for. *)
Definition entryStat (e : Entry) : FileDiffStat :=
  match counts e with
  | Lines added deleted =>
      {| path := file e; additions := Num added; deletions := Num deleted;
         netChange := Num (added - deleted) |}
  | Binary =>
      {| path := file e; additions := Num 0; deletions := Num 0;
         netChange := Num 0 |}
  end.

(** No pattern of [ps] has the character [c] after its first character. *)
Definition apartFrom (c : ascii) (ps : list string) : bool :=
  forallb (fun p => match p with
                    | EmptyString => false
                    | String _ rest => negb (occurs c rest)
                    end) ps.

(** An entry as git prints it unquoted: counts that are safe integers and
    not negative, a path without tab or newline whose last character is
    not white space. *)
Definition plain (e : Entry) : Prop :=
  match counts e with
  | Lines added deleted =>
      0 <= added <= maxSafeInteger /\ 0 <= deleted <= maxSafeInteger
  | Binary => True
  end /\
  occurs tab (file e) = false /\
  occurs newline (file e) = false /\
  endsInText (file e) = true.

End Numstat.

(* ================================================================== *)
(** ** main.ts: timers, the debouncer and the settings tab *)
(* ================================================================== *)

Module Scheduling.
Import Js Plugin.

(** The timer settings. *)
Record TimerSettings : Type := {
  enableIntervalCommit : bool;
  intervalMinutes : Z;
  enableIdleCommit : bool;
  idleMinutes : Z
}.

(** The callback of a [setInterval]. *)
Inductive Job : Type :=
| CommitOnInterval
| CheckIdle.

Record Interval : Type := { handle : nat; period : Z; job : Job }.

(** The host's timers: the clock of [Date.now()], the pending
    [setTimeout]s with the time they are due, and the running
    [setInterval]s. A handle is never reused. *)
Record Timers : Type := {
  now : Z;
  nextHandle : nat;
  timeouts : list (nat * Z);
  intervals : list Interval
}.

(** The fields of the plugin that the timers and the debouncer touch. *)
Record Schedule : Type := {
  timers : Timers;
  intervalTimer : option nat;
  idleCheckTimer : option nat;
  lastEditTime : Z;
  changeQueue : list string;
  changeTimeout : option nat
}.

(** [setTimeout(callback, delay)]: the handle and the timers after it. *)
Definition setTimeout (delay : Z) (t : Timers) : nat * Timers :=
  (nextHandle t,
   {| now := now t; nextHandle := S (nextHandle t);
      timeouts := timeouts t ++ [(nextHandle t, now t + delay)];
      intervals := intervals t |}).

(** [clearTimeout(handle)]: nothing happens when the timer is gone. *)
Definition clearTimeout (h : nat) (t : Timers) : Timers :=
  {| now := now t; nextHandle := nextHandle t;
     timeouts := filter (fun p => negb (Nat.eqb (fst p) h)) (timeouts t);
     intervals := intervals t |}.

Definition setInterval (j : Job) (ms : Z) (t : Timers) : nat * Timers :=
  (nextHandle t,
   {| now := now t; nextHandle := S (nextHandle t);
      timeouts := timeouts t;
      intervals := intervals t
                   ++ [{| handle := nextHandle t; period := ms; job := j |}] |}).

Definition clearInterval (h : nat) (t : Timers) : Timers :=
  {| now := now t; nextHandle := nextHandle t;
     timeouts := timeouts t;
     intervals := filter (fun i => negb (Nat.eqb (handle i) h)) (intervals t) |}.

(** Time passes. *)
Definition advance (time : Z) (t : Timers) : Timers :=
  {| now := time; nextHandle := nextHandle t; timeouts := timeouts t;
     intervals := intervals t |}.

Definition withTimers (t : Timers) (s : Schedule) : Schedule :=
  {| timers := t; intervalTimer := intervalTimer s;
     idleCheckTimer := idleCheckTimer s; lastEditTime := lastEditTime s;
     changeQueue := changeQueue s; changeTimeout := changeTimeout s |}.

Definition queueFileChange (path : string) (s : Schedule) : Schedule :=
  let queue := GitEngineRest.setAdd (changeQueue s) path in
  let cleared :=
    match changeTimeout s with
    | Some h => clearTimeout h (timers s)
    | None => timers s
    end in
  let (h, scheduled) := setTimeout 2000 cleared in
  {| timers := scheduled; intervalTimer := intervalTimer s;
     idleCheckTimer := idleCheckTimer s; lastEditTime := lastEditTime s;
     changeQueue := queue; changeTimeout := Some h |}.

(** The callback that [queueFileChange] schedules. *)
Definition settle (s : Schedule) : Schedule :=
  {| timers := timers s; intervalTimer := intervalTimer s;
     idleCheckTimer := idleCheckTimer s; lastEditTime := now (timers s);
     changeQueue := []; changeTimeout := changeTimeout s |}.

(** The host runs the timeout [h] at [time]: nothing when it is not
    pending or not yet due, else it leaves the pending ones and its
    callback runs. *)
Definition fire (h : nat) (time : Z) (s : Schedule) : Schedule :=
  if existsb (fun p => Nat.eqb (fst p) h && (snd p <=? time))%bool
       (timeouts (timers s))
  then settle (withTimers (clearTimeout h (advance time (timers s))) s)
  else s.

Definition stopTimers (s : Schedule) : Schedule :=
  let afterInterval :=
    match intervalTimer s with
    | Some h => clearInterval h (timers s)
    | None => timers s
    end in
  let afterIdle :=
    match idleCheckTimer s with
    | Some h => clearInterval h afterInterval
    | None => afterInterval
    end in
  {| timers := afterIdle; intervalTimer := None; idleCheckTimer := None;
     lastEditTime := lastEditTime s; changeQueue := changeQueue s;
     changeTimeout := changeTimeout s |}.

Definition startTimers (settings : TimerSettings) (s : Schedule) : Schedule :=
  let stopped := stopTimers s in
  let withInterval :=
    if enableIntervalCommit settings
    then
      let intervalMs := intervalMinutes settings * 60 * 1000 in
      let (h, t) := setInterval CommitOnInterval intervalMs (timers stopped) in
      {| timers := t; intervalTimer := Some h;
         idleCheckTimer := idleCheckTimer stopped;
         lastEditTime := lastEditTime stopped;
         changeQueue := changeQueue stopped;
         changeTimeout := changeTimeout stopped |}
    else stopped in
  if enableIdleCommit settings
  then
    let (h, t) := setInterval CheckIdle (30 * 1000) (timers withInterval) in
    {| timers := t; intervalTimer := intervalTimer withInterval;
       idleCheckTimer := Some h;
       lastEditTime := lastEditTime withInterval;
       changeQueue := changeQueue withInterval;
       changeTimeout := changeTimeout withInterval |}
  else withInterval.

(** The clock moves to [time] and nothing else happens. *)
Definition tick (time : Z) (s : Schedule) : Schedule :=
  withTimers (advance time (timers s)) s.

(** The plugin as constructed, at the time [time], before [onload] starts
    the timers. *)
Definition initial (time : Z) : Schedule :=
  {| timers := {| now := time; nextHandle := 1; timeouts := [];
                  intervals := [] |};
     intervalTimer := None; idleCheckTimer := None; lastEditTime := time;
     changeQueue := []; changeTimeout := None |}.

(** Every pending timeout is the one the plugin remembers. *)
Definition tidy (s : Schedule) : Prop :=
  forall p, In p (timeouts (timers s)) -> changeTimeout s = Some (fst p).

(** What reaches the debouncer: a call of [queueFileChange] at [time],
    as the handlers of the vault events make it, or the host's attempt at
    [time] to run the callback of the timeout [h]. *)
Inductive Event : Type :=
| Changed (time : Z) (path : string)
| TimedOut (h : nat) (time : Z).

Definition deliver (s : Schedule) (e : Event) : Schedule :=
  match e with
  | Changed time path => queueFileChange path (tick time s)
  | TimedOut h time => fire h time s
  end.

Definition run (events : list Event) (s : Schedule) : Schedule :=
  fold_left deliver events s.

(** Every event comes less than 2000 ms after the file change before it;
    [last] is the time of the change before the first one. *)
Fixpoint quick (last : Z) (events : list Event) : bool :=
  match events with
  | [] => true
  | Changed time _ :: rest => (time <? last + 2000) && quick time rest
  | TimedOut _ time :: rest => (time <? last + 2000) && quick last rest
  end.

(** The time of the last file change, [last] when there is none. *)
Fixpoint lastChange (last : Z) (events : list Event) : Z :=
  match events with
  | [] => last
  | Changed time _ :: rest => lastChange time rest
  | TimedOut _ _ :: rest => lastChange last rest
  end.

Fixpoint changedPaths (events : list Event) : list string :=
  match events with
  | [] => []
  | Changed _ path :: rest => path :: changedPaths rest
  | TimedOut _ _ :: rest => changedPaths rest
  end.

(** One timeout is pending, due 2000 ms after [last], and the plugin
    remembers it. *)
Definition pending (last : Z) (s : Schedule) : Prop :=
  exists h,
    timeouts (timers s) = [(h, last + 2000)] /\ changeTimeout s = Some h.

(** Every running interval is one the plugin remembers, with its job. *)
Definition tracked (s : Schedule) : Prop :=
  forall i, In i (intervals (timers s)) ->
    (intervalTimer s = Some (handle i) /\ job i = CommitOnInterval) \/
    (idleCheckTimer s = Some (handle i) /\ job i = CheckIdle).

(** The test of [checkIdleStatus]: whether it calls [performCommit('idle')]. *)
Definition idleCommitDue (settings : TimerSettings) (commitInProgress : bool)
  (s : Schedule) : bool :=
  let idleMs := idleMinutes settings * 60 * 1000 in
  let elapsed := now (timers s) - lastEditTime s in
  ((idleMs <=? elapsed) && negb commitInProgress)%bool.

(** [formatTimeAgo(timestamp)] at the time [current] of [Date.now()]. *)
Definition formatTimeAgo (current timestamp : Z) : string :=
  let seconds := (current - timestamp) / 1000 in
  if seconds <? 60 then toString seconds +++ "s ago"
  else if seconds <? 3600 then toString (seconds / 60) +++ "m ago"
  else if seconds <? 86400 then toString (seconds / 3600) +++ "h ago"
  else toString (seconds / 86400) +++ "d ago".

(** The [onChange] handlers of the three number fields of the settings
    tab: the number that is stored, if any. *)
Definition acceptedNumber (value : string) : option Z :=
  match parseInt (Some value) with
  | Num num => if 0 <? num then Some num else None
  | NaN => None
  end.

(** Where [parseInt] stops reading: at the end, or at a character that is
    no digit. *)
Definition stops (rest : string) : Prop :=
  match rest with
  | EmptyString => True
  | String c _ => isDigit c = false
  end.

Definition onMaxFilesChange (value : string) (s : LocalGitSettings)
  : LocalGitSettings :=
  match acceptedNumber value with
  | Some num =>
      {| maxFilesInCommitMessage := num; commitMode := commitMode s;
         hiddenFilesHandling := hiddenFilesHandling s;
         debugLogging := debugLogging s |}
  | None => s
  end.

Definition onIntervalChange (value : string) (s : TimerSettings)
  : TimerSettings :=
  match acceptedNumber value with
  | Some num =>
      {| enableIntervalCommit := enableIntervalCommit s; intervalMinutes := num;
         enableIdleCommit := enableIdleCommit s; idleMinutes := idleMinutes s |}
  | None => s
  end.

Definition onIdleChange (value : string) (s : TimerSettings) : TimerSettings :=
  match acceptedNumber value with
  | Some num =>
      {| enableIntervalCommit := enableIntervalCommit s;
         intervalMinutes := intervalMinutes s;
         enableIdleCommit := enableIdleCommit s; idleMinutes := num |}
  | None => s
  end.

(** [DEFAULT_SETTINGS] *)
Definition defaultSettings : LocalGitSettings :=
  {| maxFilesInCommitMessage := 5; commitMode := batch;
     hiddenFilesHandling := group; debugLogging := false |}.

Definition defaultTimerSettings : TimerSettings :=
  {| enableIntervalCommit := true; intervalMinutes := 5;
     enableIdleCommit := false; idleMinutes := 10 |}.

End Scheduling.

(* ================================================================== *)
(** ** main.ts: words for the commit path *)
(* ================================================================== *)

Module CommitPath.
Import Js CommitBuilder Effect Plugin.

(** The plugin's fields with the guard as given. *)
Definition guarded (b : bool) (f : Fields) : Fields :=
  {| settings := settings f; gitEngine := gitEngine f; commitInProgress := b;
     notices := notices f; console := console f |}.

(** The plugin's fields with one more notice. *)
Definition noticed (text : string) (f : Fields) : Fields :=
  {| settings := settings f; gitEngine := gitEngine f;
     commitInProgress := commitInProgress f;
     notices := notices f ++ [text]; console := console f |}.

(** The plugin's fields with one more console line. *)
Definition logged (text : string) (f : Fields) : Fields :=
  {| settings := settings f; gitEngine := gitEngine f;
     commitInProgress := commitInProgress f;
     notices := notices f; console := console f ++ [text] |}.

(** The engine call that commits one file on its own. *)
Definition singleFileCall (s : FileDiffStat) : Call :=
  StageAndCommitFiles [path s] (buildSingleFileCommitMessage s).

(** The files that are left for the commit when the engine is not asked:
    all of them, or the ones that are not hidden in ["never"] mode. *)
Definition keptLocally (mode : HiddenFilesHandling) (stats : list FileDiffStat)
  : list FileDiffStat :=
  match mode with
  | never => filter (fun s => negb (isHidden (path s))) stats
  | _ => stats
  end.

(** Every value that [m] throws satisfies [P]. *)
Definition throwsOnly {W A : Type} (P : Error -> Prop) (m : M W A) : Prop :=
  forall w err w', m w = (Thrown err, w') -> P err.

(** A thrown value with a message, as every [Error] is. *)
Definition hasMessage (err : Error) : Prop := message err <> None.

(** An engine whose calls reject with such values only. *)
Definition rejectsWithErrors {E : Type} (api : EngineApi E) : Prop :=
  throwsOnly hasMessage (@getDiffStats E api) /\
  (forall stats, throwsOnly hasMessage (@filterIgnoredFiles E api stats)) /\
  (forall message, throwsOnly hasMessage (@stageAndCommit E api message)) /\
  (forall paths message,
     throwsOnly hasMessage (@stageAndCommitFiles E api paths message)).

End CommitPath.

(* ================================================================== *)
(** ** More sample data: repositories that fail or have no upstream *)
(* ================================================================== *)

Module MoreSamples.
Import Js CommitBuilder Effect GitEngine GitEngineRest Repository Samples.

(** The sample repository when another git process holds the index:
    [git add] throws. *)
Definition lockedHost : Host Repo := {|
  git_status :=
    gets (fun r => {| tracking := upstream r; not_added := untrackedFiles r |});
  git_raw := fun _ => gets numstat;
  git_add := fun _ => throw {| message := Some "index.lock exists" |};
  git_commit := fun message => modify (commitIndex message);
  date_now := gets clock
|}.

(** The sample repository without a remote. *)
Definition localRepo : Repo :=
  {| upstream := None; untrackedFiles := untrackedFiles sampleRepo;
     numstat := numstat sampleRepo;
     pendingChanges := pendingChanges sampleRepo; index := [];
     history := []; clock := clock sampleRepo |}.

Definition localEngine : Engine Repo :=
  {| git := localRepo; currentStatus := initialStatus;
     onStatusChange := []; onError := [] |}.

(** The rest of a git handle that answers [status] and [latest]. *)
Definition fakeRest (status : FileStatus) (latest : option LogLine)
  : HostRest Repo := {|
  git_fileStatus := ret status;
  git_init := ret tt;
  git_log := ret latest
|}.

(** A status that names a path twice: staged as new and modified since. *)
Definition sampleFileStatus : FileStatus :=
  {| notAdded := [".obsidian/app.json"];
     created := ["b.md"];
     deleted := [];
     modified := ["note.md"; "b.md"];
     renamed := [{| from := "old.md"; to := "new.md" |}] |}.

End MoreSamples.

(* ================================================================== *)
(** ** Facts about [sort] on a consistent comparator *)
(* ================================================================== *)

Module SortFacts.
Import Js.

Section Consistent.
Context {A : Type} (cmp : A -> A -> Z).
Hypothesis cmp_refl : forall a, cmp a a = 0.
Hypothesis cmp_antisym : forall a b, Z.sgn (cmp b a) = - Z.sgn (cmp a b).
Hypothesis cmp_trans :
  forall a b c, cmp a b <= 0 -> cmp b c <= 0 -> cmp a c <= 0.

Local Abbreviation notAfter := (Js.notAfter cmp).

Lemma cmp_flip_pos : forall a b, 0 < cmp a b -> cmp b a < 0.
Proof. intros a b Hab. pose proof (cmp_antisym a b). lia. Qed.

Lemma cmp_flip_zero : forall a b, cmp a b = 0 -> cmp b a = 0.
Proof. intros a b Hab. pose proof (cmp_antisym a b). lia. Qed.

Lemma cmp_tie_trans :
  forall a b c, cmp a b = 0 -> cmp b c = 0 -> cmp a c = 0.
Proof.
  intros a b c Hab Hbc.
  assert (cmp a c <= 0) by (apply (cmp_trans a b c); lia).
  assert (cmp c a <= 0).
  { apply (cmp_trans c b a); [rewrite (cmp_flip_zero b c Hbc)
                             | rewrite (cmp_flip_zero a b Hab)]; lia. }
  pose proof (cmp_antisym a c). lia.
Qed.

(** Tied elements compare alike against any third one. *)
Lemma cmp_tie_right :
  forall x a b, cmp a b = 0 -> (cmp x a <=? 0) = (cmp x b <=? 0).
Proof.
  intros x a b Hab.
  destruct (Z.leb_spec (cmp x a) 0) as [Ha | Ha];
    destruct (Z.leb_spec (cmp x b) 0) as [Hb | Hb]; try reflexivity; exfalso.
  - assert (cmp x b <= 0) by (apply (cmp_trans x a b); lia). lia.
  - assert (cmp x a <= 0).
    { apply (cmp_trans x b a); [lia | rewrite (cmp_flip_zero a b Hab); lia]. }
    lia.
Qed.

Lemma insert_perm : forall x l, Permutation (insert cmp x l) (x :: l).
Proof.
  intros x l. induction l as [| y rest IH]; simpl.
  - apply Permutation_refl.
  - destruct (cmp x y <=? 0).
    + apply Permutation_refl.
    + eapply perm_trans; [apply perm_skip, IH | apply perm_swap].
Qed.

Lemma sort_perm : forall l, Permutation (sort cmp l) l.
Proof.
  induction l as [| x rest IH]; simpl.
  - apply perm_nil.
  - eapply perm_trans; [apply insert_perm | apply perm_skip, IH].
Qed.

Lemma sort_length : forall l, length (sort cmp l) = length l.
Proof. intros l. apply Permutation_length, sort_perm. Qed.

Lemma insert_sorted :
  forall x l, StronglySorted notAfter l -> StronglySorted notAfter (insert cmp x l).
Proof.
  intros x l Hs. induction Hs as [| y rest Hrest IH Hy]; simpl.
  - repeat constructor.
  - destruct (Z.leb_spec (cmp x y) 0) as [Hxy | Hxy].
    + constructor; [constructor; assumption |].
      constructor; [exact Hxy |].
      eapply Forall_impl; [| exact Hy].
      intros z Hyz. unfold Js.notAfter in *. apply (cmp_trans x y z); assumption.
    + constructor; [exact IH |].
      eapply Permutation_Forall; [apply Permutation_sym, insert_perm |].
      constructor; [| exact Hy].
      unfold Js.notAfter. pose proof (cmp_flip_pos x y Hxy). lia.
Qed.

Lemma sort_sorted : forall l, StronglySorted notAfter (sort cmp l).
Proof.
  induction l as [| x rest IH]; simpl.
  - constructor.
  - apply insert_sorted, IH.
Qed.

(** Stability: [insert] puts [a] before every element tied with it. *)
Lemma insert_stable :
  forall x a l, cmp x a = 0 ->
    filter (fun y => cmp x y =? 0) (insert cmp a l)
    = a :: filter (fun y => cmp x y =? 0) l.
Proof.
  intros x a l Hxa. induction l as [| y rest IH]; simpl.
  - rewrite Hxa. reflexivity.
  - destruct (Z.leb_spec (cmp a y) 0) as [Hay | Hay]; simpl.
    + rewrite Hxa. reflexivity.
    + rewrite IH.
      destruct (Z.eqb_spec (cmp x y) 0) as [Hxy | Hxy]; [| reflexivity].
      exfalso.
      assert (cmp a y = 0).
      { apply (cmp_tie_trans a x y); [apply cmp_flip_zero |]; assumption. }
      lia.
Qed.

Lemma insert_other :
  forall x a l, cmp x a <> 0 ->
    filter (fun y => cmp x y =? 0) (insert cmp a l)
    = filter (fun y => cmp x y =? 0) l.
Proof.
  intros x a l Hxa. induction l as [| y rest IH]; simpl.
  - destruct (Z.eqb_spec (cmp x a) 0); [contradiction | reflexivity].
  - destruct (cmp a y <=? 0); simpl.
    + destruct (Z.eqb_spec (cmp x a) 0); [contradiction | reflexivity].
    + rewrite IH. reflexivity.
Qed.

(** The elements tied with [x] leave [sort] in the order they entered. *)
Lemma sort_stable :
  forall x l,
    filter (fun y => cmp x y =? 0) (sort cmp l)
    = filter (fun y => cmp x y =? 0) l.
Proof.
  intros x l. induction l as [| a rest IH]; simpl.
  - reflexivity.
  - destruct (Z.eqb_spec (cmp x a) 0) as [Hxa | Hxa].
    + rewrite insert_stable by assumption. rewrite IH. reflexivity.
    + rewrite insert_other by assumption. exact IH.
Qed.

(** *** Sorting a permutation *)

Section Ties.
Context {B : Type} (f : A -> B).

Local Abbreviation alike := (Js.alike cmp f).

Lemma alike_refl : forall a, alike a a.
Proof. intros a. split; [apply cmp_refl | reflexivity]. Qed.

Lemma alike_list_refl : forall l, Forall2 alike l l.
Proof. induction l; constructor; [apply alike_refl | assumption]. Qed.

Lemma alike_list_trans :
  forall l1 l2 l3, Forall2 alike l1 l2 -> Forall2 alike l2 l3 -> Forall2 alike l1 l3.
Proof.
  intros l1 l2 l3 H12. revert l3.
  induction H12 as [| a b l1 l2 [Hab Hf] _ IH]; intros l3 H23.
  - exact H23.
  - inversion H23 as [| b' c l2' l3' [Hbc Hg] Hrest]; subst.
    constructor; [| apply IH; assumption].
    split; [apply (cmp_tie_trans a b c); assumption | congruence].
Qed.

Lemma alike_map : forall l1 l2, Forall2 alike l1 l2 -> map f l1 = map f l2.
Proof.
  intros l1 l2 Hl. induction Hl as [| a b l1 l2 [_ Hf] _ IH]; simpl.
  - reflexivity.
  - rewrite Hf, IH. reflexivity.
Qed.

Lemma insert_alike :
  forall x s s', Forall2 alike s s' ->
    Forall2 alike (insert cmp x s) (insert cmp x s').
Proof.
  intros x s s' Hs. induction Hs as [| a b s s' [Hab Hf] Hrest IH]; simpl.
  - apply alike_list_refl.
  - rewrite (cmp_tie_right x a b Hab).
    destruct (cmp x b <=? 0).
    + constructor; [apply alike_refl |].
      constructor; [split; assumption | assumption].
    + constructor; [split; assumption | exact IH].
Qed.

Lemma insert_insert :
  forall x y s, (cmp x y = 0 -> f x = f y) ->
    Forall2 alike (insert cmp x (insert cmp y s))
                  (insert cmp y (insert cmp x s)).
Proof.
  intros x y s Htie.
  assert (Hpair : forall t, Forall2 alike
                    ((if cmp x y <=? 0 then [x; y] else [y; x]) ++ t)
                    ((if cmp y x <=? 0 then [y; x] else [x; y]) ++ t)).
  { intros t.
    destruct (Z.leb_spec (cmp x y) 0) as [Hxy | Hxy];
      destruct (Z.leb_spec (cmp y x) 0) as [Hyx | Hyx];
      try apply alike_list_refl.
    - assert (Hz : cmp x y = 0) by (pose proof (cmp_antisym x y); lia).
      pose proof (cmp_flip_zero x y Hz) as Hz'.
      constructor; [split; [exact Hz | auto] |].
      constructor; [split; [exact Hz' | symmetry; auto] |].
      apply alike_list_refl.
    - pose proof (cmp_antisym x y). lia. }
  induction s as [| z rest IH]; simpl.
  - specialize (Hpair []). rewrite !app_nil_r in Hpair. exact Hpair.
  - destruct (Z.leb_spec (cmp y z) 0) as [Hyz | Hyz];
      destruct (Z.leb_spec (cmp x z) 0) as [Hxz | Hxz]; simpl.
    + specialize (Hpair (z :: rest)).
      destruct (cmp x y <=? 0); destruct (cmp y x <=? 0); simpl in Hpair |- *;
        repeat match goal with
               | |- context [if ?c <=? 0 then _ else _] =>
                   destruct (Z.leb_spec c 0); try lia
               end;
        exact Hpair.
    + destruct (Z.leb_spec (cmp x y) 0) as [Hxy | Hxy].
      * exfalso. assert (cmp x z <= 0) by (apply (cmp_trans x y z); assumption).
        lia.
      * simpl. destruct (Z.leb_spec (cmp x z) 0); [lia |].
        destruct (Z.leb_spec (cmp y z) 0); [| lia].
        apply alike_list_refl.
    + destruct (Z.leb_spec (cmp y x) 0) as [Hyx | Hyx].
      * exfalso. assert (cmp y z <= 0) by (apply (cmp_trans y x z); assumption).
        lia.
      * simpl. destruct (Z.leb_spec (cmp y z) 0); [lia |].
        destruct (Z.leb_spec (cmp x z) 0); [| lia].
        apply alike_list_refl.
    + destruct (Z.leb_spec (cmp x z) 0); [lia |].
      destruct (Z.leb_spec (cmp y z) 0); [lia |].
      constructor; [apply alike_refl | exact IH].
Qed.

(** A permutation of the input changes [sort]'s output at most by
    exchanging tied elements, provided [f] does not tell tied elements of
    the input apart. *)
Lemma sort_permutation :
  forall l l', Permutation l l' ->
    (forall a b, In a l -> In b l -> cmp a b = 0 -> f a = f b) ->
    Forall2 alike (sort cmp l) (sort cmp l').
Proof.
  intros l l' Hp. induction Hp as [| x l l' Hp IH | x y l | l l' l'' Hp1 IH1 Hp2 IH2];
    intros Hties; simpl.
  - constructor.
  - apply insert_alike, IH. intros a b Ha Hb. apply Hties; right; assumption.
  - apply insert_insert. intros Hyx.
    apply Hties; [left; reflexivity | right; left; reflexivity | exact Hyx].
  - eapply alike_list_trans; [apply IH1, Hties |].
    apply IH2. intros a b Ha Hb.
    apply Hties; eapply Permutation_in; try apply Permutation_sym; eassumption.
Qed.

Lemma sort_permutation_map :
  forall l l', Permutation l l' ->
    (forall a b, In a l -> In b l -> cmp a b = 0 -> f a = f b) ->
    map f (sort cmp l) = map f (sort cmp l').
Proof. intros l l' Hp Hties. apply alike_map, sort_permutation; assumption. Qed.

End Ties.
End Consistent.

End SortFacts.

(* ================================================================== *)
(** ** Strings *)
(* ================================================================== *)

Module StringFacts.
Import Js.

Lemma append_assoc : forall a b c : string, (a +++ b) +++ c = a +++ b +++ c.
Proof.
  induction a as [| ch a IH]; intros b c; simpl.
  - reflexivity.
  - rewrite IH. reflexivity.
Qed.

Lemma append_empty : forall a : string, a +++ "" = a.
Proof.
  induction a as [| ch a IH]; simpl; [reflexivity | rewrite IH; reflexivity].
Qed.

Lemma append_length :
  forall a b : string,
    String.length (a +++ b) = (String.length a + String.length b)%nat.
Proof.
  induction a as [| ch a IH]; intros b; simpl.
  - reflexivity.
  - rewrite IH. reflexivity.
Qed.

Lemma prefix_append : forall p s : string, String.prefix p (p +++ s) = true.
Proof.
  induction p as [| ch p IH]; intros s; simpl.
  - destruct s; reflexivity.
  - destruct (ascii_dec ch ch) as [_ | Hne]; [apply IH | contradiction].
Qed.

(** The segments of [split] put back together give the string. *)
Lemma split_join :
  forall (s : string) (sep : ascii), join (split s sep) (String sep "") = s.
Proof.
  intros s sep. unfold join.
  induction s as [| c rest IH]; simpl.
  - reflexivity.
  - destruct (Ascii.eqb_spec c sep) as [-> | Hne].
    + destruct (split rest sep) as [| seg segs] eqn:Hsplit.
      * destruct rest; simpl in Hsplit;
          [discriminate
          | destruct (Ascii.eqb _ sep); [discriminate |];
            destruct (split rest sep); discriminate].
      * simpl. simpl in IH. rewrite IH. reflexivity.
    + destruct (split rest sep) as [| seg segs] eqn:Hsplit.
      * destruct rest; simpl in Hsplit;
          [discriminate
          | destruct (Ascii.eqb _ sep); [discriminate |];
            destruct (split rest sep); discriminate].
      * simpl in IH |- *. destruct segs as [| seg' segs'].
        -- rewrite IH. reflexivity.
        -- simpl. rewrite <- IH. reflexivity.
Qed.

(** No segment of [split] contains the separator. *)
Lemma split_segments :
  forall (s : string) (sep : ascii),
    Forall (fun seg => occurs sep seg = false) (split s sep).
Proof.
  intros s sep. induction s as [| c rest IH]; simpl.
  - repeat constructor.
  - destruct (Ascii.eqb c sep) eqn:Hc.
    + constructor; [reflexivity | exact IH].
    + destruct (split rest sep) as [| seg segs].
      * repeat constructor. simpl. rewrite Hc. reflexivity.
      * inversion IH as [| ? ? Hseg Hsegs]; subst.
        constructor; [simpl; rewrite Hc, Hseg; reflexivity | exact Hsegs].
Qed.

End StringFacts.

(* ================================================================== *)
(** ** Collations *)
(* ================================================================== *)

Module CollatorFacts.
Import Js CommitBuilder.

Lemma codeUnitCompare_refl : forall a, codeUnitCompare a a = 0.
Proof.
  induction a as [| c a IH]; simpl; [reflexivity |].
  rewrite N.compare_refl. exact IH.
Qed.

Lemma codeUnitCompare_antisym :
  forall a b, Z.sgn (codeUnitCompare b a) = - Z.sgn (codeUnitCompare a b).
Proof.
  induction a as [| c a IH]; intros [| d b]; simpl; try reflexivity.
  rewrite (N.compare_antisym (N_of_ascii c) (N_of_ascii d)).
  destruct (N.compare (N_of_ascii c) (N_of_ascii d)); simpl;
    [apply IH | reflexivity | reflexivity].
Qed.

Lemma codeUnitCompare_trans :
  forall a b c,
    codeUnitCompare a b <= 0 -> codeUnitCompare b c <= 0 ->
    codeUnitCompare a c <= 0.
Proof.
  induction a as [| x a IH]; intros [| y b] [| z c]; simpl; try lia.
  destruct (N.compare_spec (N_of_ascii x) (N_of_ascii y)) as [Hxy | Hxy | Hxy];
    destruct (N.compare_spec (N_of_ascii y) (N_of_ascii z)) as [Hyz | Hyz | Hyz];
    destruct (N.compare_spec (N_of_ascii x) (N_of_ascii z)) as [Hxz | Hxz | Hxz];
    try lia.
  apply IH.
Qed.

(** The collation of the specification is one the class admits. *)
#[export] Instance codeUnitCollator : Collator := {|
  localeCompare := codeUnitCompare;
  localeCompare_refl := codeUnitCompare_refl;
  localeCompare_antisym := codeUnitCompare_antisym;
  localeCompare_trans := codeUnitCompare_trans
|}.

(** So is a collation that ignores case. It is not made an instance:
    statements name the collation they are about. *)
Definition caseInsensitiveCollator : Collator := {|
  localeCompare := caseInsensitiveCompare;
  localeCompare_refl := fun a => codeUnitCompare_refl (toLowerCase a);
  localeCompare_antisym := fun a b =>
    codeUnitCompare_antisym (toLowerCase a) (toLowerCase b);
  localeCompare_trans := fun a b c =>
    codeUnitCompare_trans (toLowerCase a) (toLowerCase b) (toLowerCase c)
|}.

Section WithCollator.
Context `{Collator}.

Lemma byPath_refl : forall a, byPath a a = 0.
Proof. intros a. apply localeCompare_refl. Qed.

Lemma byPath_antisym : forall a b, Z.sgn (byPath b a) = - Z.sgn (byPath a b).
Proof. intros a b. apply localeCompare_antisym. Qed.

Lemma byPath_trans :
  forall a b c, byPath a b <= 0 -> byPath b c <= 0 -> byPath a c <= 0.
Proof. intros a b c. apply localeCompare_trans. Qed.

Lemma sorted_paths :
  forall l,
    StronglySorted (notAfter byPath) l ->
    StronglySorted (notAfter localeCompare) (map path l).
Proof.
  intros l Hs. induction Hs as [| a l Hl IH Ha]; simpl; constructor.
  - exact IH.
  - apply Forall_map. exact Ha.
Qed.

Lemma sorted_firstn :
  forall (n : nat) (l : list FileDiffStat),
    StronglySorted (notAfter byPath) l ->
    StronglySorted (notAfter byPath) (firstn n l).
Proof.
  intros n l Hs. revert n.
  induction Hs as [| a l Hl IH Ha]; intros [| n]; simpl; try constructor.
  - apply IH.
  - apply Forall_forall. intros b Hb. rewrite Forall_forall in Ha.
    apply Ha. rewrite <- (firstn_skipn n l). apply in_or_app. left. exact Hb.
Qed.

Lemma slice0_firstn :
  forall {A : Type} (l : list A) (stop : Z),
    exists n, slice0 l stop = firstn n l.
Proof.
  intros A l stop. unfold slice0. destruct (stop <? 0); eexists; reflexivity.
Qed.

Lemma slice0_map :
  forall {A B : Type} (f : A -> B) (l : list A) (stop : Z),
    slice0 (map f l) stop = map f (slice0 l stop).
Proof.
  intros A B f l stop. unfold slice0. rewrite length_map.
  destruct (stop <? 0); apply firstn_map.
Qed.

Lemma slice0_nonneg :
  forall {A : Type} (l : list A) (stop : Z),
    0 <= stop -> slice0 l stop = firstn (Z.to_nat stop) l.
Proof.
  intros A l stop Hstop. unfold slice0.
  destruct (Z.ltb_spec stop 0); [lia | reflexivity].
Qed.

End WithCollator.

End CollatorFacts.

(* ================================================================== *)
(** ** commit-builder.ts: properties *)
(* ================================================================== *)

Module BuilderFacts.
Import Js CommitBuilder SortFacts StringFacts CollatorFacts.

Lemma categorize_from :
  forall (fs : list FileDiffStat) (acc : FileGroup),
    fold_left
      (fun (acc : FileGroup) (file : FileDiffStat) =>
         if isHidden (path file)
         then {| hidden := hidden acc ++ [file]; regular := regular acc |}
         else {| hidden := hidden acc; regular := regular acc ++ [file] |})
      fs acc
    = {| hidden := hidden acc ++ filter (fun f => isHidden (path f)) fs;
         regular :=
           regular acc ++ filter (fun f => negb (isHidden (path f))) fs |}.
Proof.
  induction fs as [| file fs IH]; intros acc; simpl.
  - rewrite !app_nil_r. destruct acc; reflexivity.
  - rewrite IH. destruct (isHidden (path file)); simpl;
      rewrite <- ?app_assoc; reflexivity.
Qed.

Lemma categorizeFiles_filter :
  forall fs : list FileDiffStat,
    categorizeFiles fs
    = {| hidden := filter (fun f => isHidden (path f)) fs;
         regular := filter (fun f => negb (isHidden (path f))) fs |}.
Proof. intros fs. unfold categorizeFiles. rewrite categorize_from. reflexivity. Qed.

Lemma filter_split_perm :
  forall {A : Type} (p : A -> bool) (l : list A),
    Permutation (filter p l ++ filter (fun a => negb (p a)) l) l.
Proof.
  intros A p l. induction l as [| a l IH]; simpl.
  - apply perm_nil.
  - destruct (p a); simpl.
    + apply perm_skip, IH.
    + apply Permutation_sym, Permutation_cons_app, Permutation_sym, IH.
Qed.

Lemma isHidden_segment :
  forall p : string,
    isHidden p = true <->
    exists seg, In seg (split p "/") /\ startsWith seg "." = true.
Proof. intros p. unfold isHidden. apply existsb_exists. Qed.

Lemma formatFileName_cases :
  forall s : FileDiffStat,
    formatFileName s
    = if ltb (netChange s) (Num 0) then path s +++ " [DELETES]" else path s.
Proof. reflexivity. Qed.

Lemma nonempty_length :
  forall {A : Type} (l : list A), l <> [] -> Nat.eqb (length l) 0 = false.
Proof. intros A [| a l] Hl; [contradiction | reflexivity]. Qed.

Section WithCollator.
Context `{Collator}.

Lemma sortedFiles_sorted :
  forall fs, StronglySorted (notAfter byPath) (sort byPath fs).
Proof. intros fs. apply sort_sorted; [apply byPath_antisym | apply byPath_trans]. Qed.

Lemma sortedFiles_perm : forall fs, Permutation (sort byPath fs) fs.
Proof. intros fs. apply sort_perm. Qed.

Lemma listedFiles_firstn :
  forall options,
    exists n, listedFiles options = firstn n (sort byPath (files options)).
Proof.
  intros options. unfold listedFiles.
  destruct (_ <=? _).
  - exists (length (sort byPath (files options))). symmetry. apply firstn_all.
  - apply slice0_firstn.
Qed.

(** The message in terms of the entries it names. *)
Lemma buildCommitMessage_listed :
  forall options,
    files options <> [] ->
    let k := match maxFiles options with Some k => k | None => 5 end in
    let n := Z.of_nat (length (files options)) in
    buildCommitMessage options
    = "chore: update "
      +++ join (map formatFileName (listedFiles options)) ", "
      +++ (if n <=? k then "" else " and " +++ toString (n - k) +++ " more").
Proof.
  intros options Hne k n. unfold buildCommitMessage, listedFiles.
  rewrite (nonempty_length _ Hne). fold k.
  rewrite !length_map, !sort_length. fold n.
  destruct (n <=? k).
  - rewrite append_empty. reflexivity.
  - rewrite slice0_map. reflexivity.
Qed.

(** Sorted names of a permutation. *)
Lemma formatted_permutation :
  forall fs fs',
    Permutation fs fs' ->
    (forall a b, In a fs -> In b fs ->
       localeCompare (path a) (path b) = 0 ->
       formatFileName a = formatFileName b) ->
    map formatFileName (sort byPath fs) = map formatFileName (sort byPath fs').
Proof.
  intros fs fs' Hp Hties.
  apply sort_permutation_map;
    [apply byPath_refl | apply byPath_antisym | apply byPath_trans
     | exact Hp | exact Hties].
Qed.

End WithCollator.

(** C2, as amended. For a non-empty list the message starts with
    ["chore: update "] and names its entries in non-descending order of
    path under the host's collation (that of [localeCompare]), whatever the
    order of the input. The entries named are a leading part of the sorted
    input, and all of its entries, as often as they occur, when there are
    at most [maxFiles] of them. Entries whose paths compare equal are not
    merged, so the order is not strict. *)
Theorem buildCommitMessage_lists_paths_in_order :
  forall (C : Collator) (options : CommitMessageOptions),
    files options <> [] ->
    String.prefix "chore: update " (buildCommitMessage options) = true /\
    (exists more,
       buildCommitMessage options
       = "chore: update "
         +++ join (map formatFileName (listedFiles options)) ", " +++ more) /\
    StronglySorted (notAfter localeCompare) (map path (listedFiles options)) /\
    (exists rest, Permutation (listedFiles options ++ rest) (files options)) /\
    (exists n,
       listedFiles options = firstn n (sort byPath (files options))) /\
    (Z.of_nat (length (files options))
     <= match maxFiles options with Some k => k | None => 5 end ->
     Permutation (listedFiles options) (files options)).
Proof.
  intros C options Hne. repeat split.
  - rewrite (buildCommitMessage_listed options Hne). apply prefix_append.
  - eexists. apply (buildCommitMessage_listed options Hne).
  - apply sorted_paths.
    destruct (listedFiles_firstn options) as [n ->].
    apply sorted_firstn, sortedFiles_sorted.
  - destruct (listedFiles_firstn options) as [n ->].
    exists (skipn n (sort byPath (files options))).
    rewrite firstn_skipn. apply sortedFiles_perm.
  - apply listedFiles_firstn.
  - intros Hfew. unfold listedFiles. rewrite sort_length.
    apply Z.leb_le in Hfew. rewrite Hfew. apply sortedFiles_perm.
Qed.

Lemma buildCommitMessage_lists_paths_in_order_witness :
  let options :=
    {| files := [stat "zebra.md" 1; stat "apple.md" (-3); stat "banana.md" 0];
       maxFiles := Some 2 |} in
  files options <> [] /\
  @buildCommitMessage codeUnitCollator options
  = "chore: update apple.md [DELETES], banana.md and 1 more" /\
  StronglySorted (notAfter codeUnitCompare)
    (map path (@listedFiles codeUnitCollator options)).
Proof.
  assert (Hne : [stat "zebra.md" 1; stat "apple.md" (-3); stat "banana.md" 0]
                <> []) by discriminate.
  split; [exact Hne |]. split; [reflexivity |].
  exact (proj1 (proj2 (proj2
    (buildCommitMessage_lists_paths_in_order codeUnitCollator
       {| files := [stat "zebra.md" 1; stat "apple.md" (-3);
                    stat "banana.md" 0];
          maxFiles := Some 2 |} Hne)))).
Defined.

(** Duplicates under truncation: the second [a.md] is counted, not
    named. *)
Example buildCommitMessage_truncates_duplicates :
  @buildCommitMessage codeUnitCollator
    {| files := [stat "a.md" 1; stat "a.md" 1]; maxFiles := Some 1 |}
  = "chore: update a.md and 1 more".
Proof. reflexivity. Qed.

(** C2 as stated fails, twice over. Two entries with one path are both
    named, so the paths listed are not in strict ascending order, even under
    comparison by character code. And the order is the collation's, not
    that of character codes: under a collation that ignores case, as the
    ones hosts ship for [localeCompare] do at first, [B.md] is named after
    [a.md]. *)
Lemma buildCommitMessage_not_in_strict_code_order :
  let twice :=
    {| files := [stat "a.md" 1; stat "a.md" 1]; maxFiles := None |} in
  let mixed :=
    {| files := [stat "B.md" 1; stat "a.md" 1]; maxFiles := None |} in
  (files twice <> [] /\
   @buildCommitMessage codeUnitCollator twice = "chore: update a.md, a.md" /\
   map path (@listedFiles codeUnitCollator twice) = ["a.md"; "a.md"] /\
   ~ StronglySorted (fun p q => codeUnitCompare p q < 0)
       (map path (@listedFiles codeUnitCollator twice))) /\
  (files mixed <> [] /\
   @buildCommitMessage caseInsensitiveCollator mixed
   = "chore: update a.md, B.md" /\
   map path (@listedFiles caseInsensitiveCollator mixed) = ["a.md"; "B.md"] /\
   ~ StronglySorted (fun p q => codeUnitCompare p q < 0)
       (map path (@listedFiles caseInsensitiveCollator mixed))).
Proof.
  cbv zeta. split.
  - split; [discriminate |]. split; [reflexivity |]. split; [reflexivity |].
    intros Hs. change (map path _) with ["a.md"; "a.md"] in Hs.
    inversion Hs as [| ? ? _ Hall]; subst.
    inversion Hall as [| ? ? Hlt _]; subst.
    vm_compute in Hlt. discriminate.
  - split; [discriminate |]. split; [reflexivity |]. split; [reflexivity |].
    intros Hs. change (map path _) with ["a.md"; "B.md"] in Hs.
    inversion Hs as [| ? ? _ Hall]; subst.
    inversion Hall as [| ? ? Hlt _]; subst.
    vm_compute in Hlt. discriminate.
Qed.

(** C3. The empty list gives ["chore: update files"]; [n] files with
    [maxFiles = k] give all sorted formatted names joined by [", "] when
    [n <= k], and the first [k] of them followed by [" and {n-k} more"] when
    [n > k]. *)
Theorem buildCommitMessage_shape :
  forall (C : Collator) (fs : list FileDiffStat) (k : Z),
    let names := map formatFileName (sort byPath fs) in
    let n := Z.of_nat (length fs) in
    (forall maxFiles,
       buildCommitMessage {| files := []; maxFiles := maxFiles |}
       = "chore: update files") /\
    (fs <> [] -> n <= k ->
     buildCommitMessage {| files := fs; maxFiles := Some k |}
     = "chore: update " +++ join names ", ") /\
    (0 <= k < n ->
     buildCommitMessage {| files := fs; maxFiles := Some k |}
     = "chore: update " +++ join (firstn (Z.to_nat k) names) ", "
       +++ " and " +++ toString (n - k) +++ " more").
Proof.
  intros C fs k names n. split; [reflexivity |]. split.
  - intros Hne Hle. unfold buildCommitMessage. simpl files. simpl maxFiles.
    rewrite (nonempty_length _ Hne). rewrite length_map, sort_length.
    fold n. destruct (Z.leb_spec n k); [reflexivity | lia].
  - intros [Hk Hlt].
    assert (Hne : fs <> []) by (intros ->; simpl in n; lia).
    unfold buildCommitMessage. simpl files. simpl maxFiles.
    rewrite (nonempty_length _ Hne). rewrite length_map, sort_length.
    fold n. destruct (Z.leb_spec n k); [lia |].
    rewrite slice0_nonneg by exact Hk. reflexivity.
Qed.

Lemma buildCommitMessage_shape_witness :
  let fs := [stat "c.md" 1; stat "a.md" 1; stat "b.md" (-1)] in
  @buildCommitMessage codeUnitCollator {| files := fs; maxFiles := Some 3 |}
  = "chore: update a.md, b.md [DELETES], c.md" /\
  @buildCommitMessage codeUnitCollator {| files := fs; maxFiles := Some 1 |}
  = "chore: update a.md and 2 more".
Proof.
  split.
  - apply (proj1 (proj2 (buildCommitMessage_shape codeUnitCollator
             [stat "c.md" 1; stat "a.md" 1; stat "b.md" (-1)] 3)));
      [discriminate | simpl; lia].
  - apply (proj2 (proj2 (buildCommitMessage_shape codeUnitCollator
             [stat "c.md" 1; stat "a.md" 1; stat "b.md" (-1)] 1))).
    simpl. lia.
Defined.

(** C4, as amended. On a list in which entries whose paths compare equal
    are formatted alike (in particular a list without duplicate paths under
    a collation that tells different paths apart), both builders give the
    same message for the list and for any permutation of it. *)
Theorem builders_ignore_input_order :
  forall (C : Collator) (fs fs' : list FileDiffStat) (maxFiles : option Z),
    Permutation fs fs' ->
    (forall a b, In a fs -> In b fs ->
       localeCompare (path a) (path b) = 0 ->
       formatFileName a = formatFileName b) ->
    buildCommitMessage {| files := fs; maxFiles := maxFiles |}
    = buildCommitMessage {| files := fs'; maxFiles := maxFiles |} /\
    buildHiddenFilesCommitMessage fs = buildHiddenFilesCommitMessage fs'.
Proof.
  intros C fs fs' maxFiles Hp Hties.
  pose proof (formatted_permutation fs fs' Hp Hties) as Hnames.
  pose proof (Permutation_length Hp) as Hlen.
  unfold buildCommitMessage, buildHiddenFilesCommitMessage. simpl files.
  rewrite Hnames, Hlen. split; reflexivity.
Qed.

Lemma builders_ignore_input_order_witness :
  @buildCommitMessage codeUnitCollator
    {| files := [stat "b.md" 1; stat "a.md" (-2)]; maxFiles := None |}
  = @buildCommitMessage codeUnitCollator
      {| files := [stat "a.md" (-2); stat "b.md" 1]; maxFiles := None |}.
Proof.
  apply (builders_ignore_input_order codeUnitCollator
           [stat "b.md" 1; stat "a.md" (-2)]
           [stat "a.md" (-2); stat "b.md" 1] None).
  - apply perm_swap.
  - intros a b [<- | [<- | []]] [<- | [<- | []]] Hcmp;
      solve [reflexivity | vm_compute in Hcmp; discriminate].
Defined.

(** C4 as stated fails on duplicate paths: the sort is stable and its key
    is the path alone, so two entries with one path and net changes of
    different sign are named in input order. *)
Lemma builders_keep_input_order_of_duplicates :
  let fs := [stat "a.md" (-1); stat "a.md" 1] in
  let fs' := [stat "a.md" 1; stat "a.md" (-1)] in
  Permutation fs fs' /\
  @buildCommitMessage codeUnitCollator {| files := fs; maxFiles := None |}
  = "chore: update a.md [DELETES], a.md" /\
  @buildCommitMessage codeUnitCollator {| files := fs'; maxFiles := None |}
  = "chore: update a.md, a.md [DELETES]" /\
  @buildHiddenFilesCommitMessage codeUnitCollator fs
  = "chore: update hidden files (a.md [DELETES], a.md)" /\
  @buildHiddenFilesCommitMessage codeUnitCollator fs'
  = "chore: update hidden files (a.md, a.md [DELETES])" /\
  ~ (@buildCommitMessage codeUnitCollator {| files := fs; maxFiles := None |}
     = @buildCommitMessage codeUnitCollator {| files := fs'; maxFiles := None |} /\
     @buildHiddenFilesCommitMessage codeUnitCollator fs
     = @buildHiddenFilesCommitMessage codeUnitCollator fs').
Proof.
  cbv zeta. split; [apply perm_swap |].
  repeat (split; [reflexivity |]).
  intros [Heq _]. vm_compute in Heq. discriminate.
Qed.

(** C6. [categorizeFiles] splits its input in two: [hidden] and [regular]
    are the sub-lists, in input order, of the files that pass and fail the
    hidden test; together they are a permutation of the input, no file is on
    both sides, and a file is hidden exactly when a segment of its path
    between slashes starts with a dot. *)
Theorem categorizeFiles_partition :
  forall fs : list FileDiffStat,
    let g := categorizeFiles fs in
    hidden g = filter (fun f => isHidden (path f)) fs /\
    regular g = filter (fun f => negb (isHidden (path f))) fs /\
    Permutation (hidden g ++ regular g) fs /\
    (forall f, In f fs ->
       (In f (hidden g) /\ ~ In f (regular g)) \/
       (In f (regular g) /\ ~ In f (hidden g))) /\
    (forall f, In f fs ->
       (In f (hidden g) <->
        exists seg, In seg (split (path f) "/") /\ startsWith seg "." = true)).
Proof.
  intros fs g. unfold g. rewrite categorizeFiles_filter. simpl.
  split; [reflexivity |]. split; [reflexivity |].
  split; [apply (filter_split_perm (fun f => isHidden (path f))) |].
  split.
  - intros f Hin. destruct (isHidden (path f)) eqn:Hh.
    + left. split.
      * apply filter_In. split; assumption.
      * intros Hr. apply filter_In in Hr. destruct Hr as [_ Hr].
        rewrite Hh in Hr. discriminate.
    + right. split.
      * apply filter_In. split; [assumption | rewrite Hh; reflexivity].
      * intros Hr. apply filter_In in Hr. destruct Hr as [_ Hr]. congruence.
  - intros f Hin. rewrite filter_In, <- isHidden_segment. tauto.
Qed.

Lemma categorizeFiles_partition_witness :
  let fs := [stat ".hidden" 1; stat "regular.md" 1; stat "folder/.config" 1;
             stat "another.md" 1] in
  map path (hidden (categorizeFiles fs)) = [".hidden"; "folder/.config"] /\
  map path (regular (categorizeFiles fs)) = ["regular.md"; "another.md"] /\
  Permutation (hidden (categorizeFiles fs) ++ regular (categorizeFiles fs)) fs.
Proof.
  split; [reflexivity |]. split; [reflexivity |].
  exact (proj1 (proj2 (proj2 (categorizeFiles_partition
    [stat ".hidden" 1; stat "regular.md" 1; stat "folder/.config" 1;
     stat "another.md" 1])))).
Defined.

(** C7. The formatted name of a file is its path followed by
    [" [DELETES]"] exactly when [netChange < 0], and the bare path
    otherwise, in particular when [netChange] is 0; every builder names a
    file by its formatted name. *)
Theorem formatFileName_marks_net_deletions :
  forall (C : Collator) (s : FileDiffStat),
    (formatFileName s = path s +++ " [DELETES]" <->
     ltb (netChange s) (Num 0) = true) /\
    (formatFileName s = path s <-> ltb (netChange s) (Num 0) = false) /\
    (netChange s = Num 0 -> formatFileName s = path s) /\
    buildSingleFileCommitMessage s = "chore: update " +++ formatFileName s /\
    buildCommitMessage {| files := [s]; maxFiles := None |}
    = "chore: update " +++ formatFileName s /\
    buildHiddenFilesCommitMessage [s]
    = "chore: update hidden files (" +++ formatFileName s +++ ")".
Proof.
  intros C s.
  assert (Hneq : path s +++ " [DELETES]" <> path s).
  { intros Heq. apply (f_equal String.length) in Heq.
    rewrite append_length in Heq. simpl in Heq. lia. }
  split; [| split; [| split; [| split; [| split]]]].
  - rewrite formatFileName_cases.
    destruct (ltb (netChange s) (Num 0)); split; intros Hx;
      try reflexivity; try discriminate. symmetry in Hx. contradiction.
  - rewrite formatFileName_cases.
    destruct (ltb (netChange s) (Num 0)); split; intros Hx;
      try reflexivity; try discriminate. contradiction.
  - intros Hz. rewrite formatFileName_cases, Hz. reflexivity.
  - reflexivity.
  - reflexivity.
  - reflexivity.
Qed.

(** C8. The hidden-files message is the literal for the empty list, and
    otherwise wraps all sorted formatted names, joined by [", "], in
    parentheses: as many names as there are files. *)
Theorem buildHiddenFilesCommitMessage_shape :
  forall (C : Collator) (fs : list FileDiffStat),
    let sortedFiles := sort byPath fs in
    buildHiddenFilesCommitMessage [] = "chore: update hidden files" /\
    (fs <> [] ->
     buildHiddenFilesCommitMessage fs
     = "chore: update hidden files ("
       +++ join (map formatFileName sortedFiles) ", " +++ ")") /\
    Permutation sortedFiles fs /\
    StronglySorted (notAfter byPath) sortedFiles /\
    length (map formatFileName sortedFiles) = length fs.
Proof.
  intros C fs sortedFiles. split; [reflexivity |]. split.
  - intros Hne. unfold buildHiddenFilesCommitMessage.
    rewrite (nonempty_length _ Hne). reflexivity.
  - split; [apply sortedFiles_perm |]. split; [apply sortedFiles_sorted |].
    rewrite length_map. apply sort_length.
Qed.

Lemma buildHiddenFilesCommitMessage_shape_witness :
  @buildHiddenFilesCommitMessage codeUnitCollator
    [stat ".zshrc" 1; stat ".bashrc" 1; stat ".env" 1]
  = "chore: update hidden files (.bashrc, .env, .zshrc)".
Proof.
  apply (proj1 (proj2 (buildHiddenFilesCommitMessage_shape codeUnitCollator
           [stat ".zshrc" 1; stat ".bashrc" 1; stat ".env" 1]))).
  discriminate.
Defined.

End BuilderFacts.

(* ================================================================== *)
(** ** git-engine.ts: properties *)
(* ================================================================== *)

Module EngineFacts.
Import Js CommitBuilder Effect GitEngine Repository.

(** What one line of the numstat output adds to [stats]. *)
Lemma pushLine_entry :
  forall (stats : list FileDiffStat) (line : string),
    exists s, pushLine stats line = stats ++ [s] /\ readsLine line s.
Proof.
  intros stats line. unfold pushLine, readsLine, binaryLine. cbv zeta.
  destruct (isDash (nth_error (split line tab) 0)
            || isDash (nth_error (split line tab) 1))%bool;
    eexists; (split; [reflexivity |]);
    cbn [path additions deletions netChange];
    (split; [intros p ->; reflexivity |]); repeat split.
Qed.

Lemma pushLine_from_nil :
  forall (stats : list FileDiffStat) (line : string),
    pushLine stats line = stats ++ pushLine [] line.
Proof.
  intros stats line. unfold pushLine.
  destruct (_ || _)%bool; reflexivity.
Qed.

Lemma pushLines :
  forall (lines : list string) (stats : list FileDiffStat),
    exists tracked,
      fold_left pushLine lines stats = stats ++ tracked /\
      Forall2 readsLine lines tracked.
Proof.
  induction lines as [| line lines IH]; intros stats; simpl.
  - exists []. rewrite app_nil_r. repeat constructor.
  - destruct (pushLine_entry [] line) as [s [Hs Hreads]].
    destruct (IH (pushLine stats line)) as [tracked [Hfold Hall]].
    exists (s :: tracked). rewrite Hfold.
    rewrite (pushLine_from_nil stats line), Hs.
    rewrite <- app_assoc. split; [reflexivity |].
    constructor; assumption.
Qed.

Lemma readsLine_net :
  forall (lines : list string) (tracked : list FileDiffStat),
    Forall2 readsLine lines tracked ->
    Forall (fun s => netChange s = sub (additions s) (deletions s)) tracked.
Proof.
  intros lines tracked Hall.
  induction Hall as [| line s lines tracked [_ [Hnet _]] _ IH];
    constructor; assumption.
Qed.

Lemma pushUntrackedFiles :
  forall (names : list string) (stats : list FileDiffStat),
    fold_left pushUntracked names stats = stats ++ map untracked names.
Proof.
  induction names as [| file names IH]; intros stats; simpl.
  - rewrite app_nil_r. reflexivity.
  - rewrite IH. unfold pushUntracked. rewrite <- app_assoc. reflexivity.
Qed.

(** C9. The diff-stats query returns whenever the git calls it makes
    return. Whenever it returns, every entry of the result has
    [netChange = additions - deletions]. The result is one entry per line
    of the numstat output that git printed (none without an upstream
    branch), in order, followed by one entry per untracked path. The entry
    of a line has the line's path; for a binary line, which has a dash for
    a count, it has [additions = 0] and [deletions = 0], and for any other
    line the counts that [parseInt] reads. Every entry of an untracked
    path has [additions = 0] and [deletions = 0]. *)
Theorem getDiffStats_entries :
  forall (G : Type) (host : Host G) (eng : Engine G),
    match getDiffStats eng with
    | (Returned stats, _) =>
        Forall (fun s => netChange s = sub (additions s) (deletions s)) stats /\
        exists status g1 tracked,
          git_status (git eng) = (Returned status, g1) /\
          stats = tracked ++ map untracked (not_added status) /\
          Forall (fun s => additions s = Num 0 /\ deletions s = Num 0)
            (map untracked (not_added status)) /\
          if noTracking status then tracked = []
          else
            exists diffOutput g2,
              git_raw ["diff"; "--numstat"; "HEAD"] g1
              = (Returned diffOutput, g2) /\
              Forall2 readsLine (numstatLines diffOutput) tracked
    | (Thrown err, _) =>
        (exists g1, git_status (git eng) = (Thrown err, g1)) \/
        (exists status g1 g2,
           git_status (git eng) = (Returned status, g1) /\
           noTracking status = false /\
           git_raw ["diff"; "--numstat"; "HEAD"] g1 = (Thrown err, g2))
    end.
Proof.
  intros G host eng.
  assert (Hzero : forall names,
             Forall (fun s => additions s = Num 0 /\ deletions s = Num 0)
               (map untracked names)).
  { intros names. apply Forall_map, Forall_forall. intros f _. split; reflexivity. }
  assert (Hnet : forall names,
             Forall (fun s => netChange s = sub (additions s) (deletions s))
               (map untracked names)).
  { intros names. apply Forall_map, Forall_forall. intros f _. reflexivity. }
  unfold getDiffStats, tryCatch, bind, onGit, handleError, modify, throw, ret.
  destruct (git_status (git eng)) as [[status | err] g1] eqn:Hstatus;
    simpl; [| left; exists g1; reflexivity].
  destruct (noTracking status) eqn:Hno.
  - rewrite pushUntrackedFiles. simpl. split; [apply Hnet |].
    exists status, g1, []. rewrite Hno. repeat split. apply Hzero.
  - match goal with
    | |- context [git_raw ?args ?g] =>
        destruct (git_raw args g) as [[diffOutput | err] g2] eqn:Hraw
    end; simpl.
    + rewrite pushUntrackedFiles.
      destruct (pushLines (numstatLines diffOutput) []) as [tracked [-> Hall]].
      simpl. split.
      * apply Forall_app. split; [| apply Hnet].
        exact (readsLine_net _ _ Hall).
      * exists status, g1, tracked. rewrite Hno.
        split; [reflexivity |]. split; [reflexivity |].
        split; [apply Hzero |]. exists diffOutput, g2.
        split; [exact Hraw | exact Hall].
    + right. exists status, g1, g2.
      split; [reflexivity | split; [exact Hno | exact Hraw]].
Qed.

(** A binary file among the changes: its line has dashes for counts, and
    its entry has zeros. *)
Example getDiffStats_binary :
  numstatLines
    (Numstat.render [{| Numstat.counts := Numstat.Binary;
                        Numstat.file := "img.png" |};
                     {| Numstat.counts := Numstat.Lines 3 1;
                        Numstat.file := "note.md" |}])
  = [Numstat.renderLine {| Numstat.counts := Numstat.Binary;
                           Numstat.file := "img.png" |};
     Numstat.renderLine {| Numstat.counts := Numstat.Lines 3 1;
                           Numstat.file := "note.md" |}] /\
  fold_left pushLine
    (numstatLines
       (Numstat.render [{| Numstat.counts := Numstat.Binary;
                           Numstat.file := "img.png" |};
                        {| Numstat.counts := Numstat.Lines 3 1;
                           Numstat.file := "note.md" |}])) []
  = [ {| path := "img.png"; additions := Num 0; deletions := Num 0;
         netChange := Num 0 |};
      {| path := "note.md"; additions := Num 3; deletions := Num 1;
         netChange := Num 2 |} ].
Proof. split; reflexivity. Qed.

(** The query on the sample repository: the modified note with its counts
    and the untracked hidden file with zeros. *)
Example getDiffStats_sample :
  fst (getDiffStats Samples.sampleEngine)
  = Returned
      [ {| path := "note.md"; additions := Num 3; deletions := Num 1;
           netChange := Num 2 |};
        {| path := ".obsidian/app.json"; additions := Num 0;
           deletions := Num 0; netChange := Num 0 |} ].
Proof. reflexivity. Qed.

End EngineFacts.

(* ================================================================== *)
(** ** main.ts: properties of the commit path *)
(* ================================================================== *)

Module PluginFacts.
Import Js CommitBuilder Effect Plugin.

Lemma nonempty_length_false :
  forall {A : Type} (l : list A), l <> [] -> Nat.eqb (length l) 0 = false.
Proof. intros A [| a l] Hl; [contradiction | reflexivity]. Qed.

Section WithEngine.
Context {E : Type} `{EngineApi E} `{Collator}.

(** The [finally] block of [performCommit] has the last word on the guard. *)
Lemma guard_released :
  forall (body : M (World E) unit) (w : World E),
    commitInProgress
      (this (snd (tryFinally body (setCommitInProgress false) w))) = false.
Proof.
  intros body w. unfold tryFinally. destruct (body w) as [r w']. reflexivity.
Qed.

Lemma bind_gets :
  forall {A B : Type} (f : World E -> A) (k : A -> M (World E) B) (w : World E),
    bind (gets f) k w = k (f w) w.
Proof. reflexivity. Qed.

Lemma silent_notice : forall text, @silent E (notice text).
Proof. intros text w. eexists. repeat split. Qed.

Lemma silent_log : forall text, @silent E (log text).
Proof. intros text w. eexists. repeat split. Qed.

Lemma silent_when : forall b m, @silent E m -> silent (when b m).
Proof.
  intros b m Hm w. destruct b; simpl; [apply Hm |].
  exists w. repeat split.
Qed.

Lemma silent_gets :
  forall {A : Type} (f : World E -> A) (k : A -> M (World E) unit),
    (forall a, silent (k a)) -> silent (bind (gets f) k).
Proof. intros A f k Hk w. rewrite bind_gets. apply Hk. Qed.

(** How an awaited engine call leaves the world. *)
Lemma await_outcome :
  forall {A : Type} (method : string) (c : Call) (op : Pending E A)
         (w : World E) (r : outcome A) (w1 : World E),
    await method c op w = (r, w1) ->
    (gitEngine (this w) = true /\ calls w1 = calls w ++ [c]) \/
    (gitEngine (this w) = false /\ w1 = w /\ r = Thrown (nullEngine method)).
Proof.
  intros A method c op w r w1. unfold await.
  destruct (gitEngine (this w)).
  - destruct (op (this w, engine w)) as [r' [f e]]. intros Heq.
    inversion Heq; subst. left. split; reflexivity.
  - intros Heq. inversion Heq; subst. right. repeat split.
Qed.

Lemma await_run :
  forall {A : Type} (method : string) (c : Call) (op : Pending E A)
         (w : World E) (r : outcome A) (f : Fields) (e : E),
    gitEngine (this w) = true ->
    op (this w, engine w) = (r, (f, e)) ->
    await method c op w
    = (r, {| this := f; engine := e; calls := calls w ++ [c] |}).
Proof.
  intros A method c op w r f e Hengine Hop. unfold await.
  rewrite Hengine, Hop. reflexivity.
Qed.

(** ["never"] mode: the filter of [filterFilesBySettings]. *)
Lemma filterFilesBySettings_never :
  forall (stats : list FileDiffStat) (w : World E),
    gitEngine (this w) = true ->
    hiddenFilesHandling (settings (this w)) = never ->
    filterFilesBySettings stats w
    = (Returned (filter (fun s => negb (isHidden (path s))) stats), w).
Proof.
  intros stats w Hengine Hmode. unfold filterFilesBySettings.
  rewrite bind_gets. cbv beta. rewrite Hengine, Hmode. reflexivity.
Qed.

(** Batch mode, hidden files not committed separately: one
    [stageAndCommit(message)], which takes no list of paths. *)
Lemma performBatchCommit_together :
  forall (stats : list FileDiffStat) (triggeredBy : string) (w : World E)
         (f : Fields) (e : E),
    gitEngine (this w) = true ->
    hiddenFilesHandling (settings (this w)) <> separate ->
    let message :=
      buildCommitMessage
        {| files := stats;
           maxFiles := Some (maxFilesInCommitMessage (settings (this w))) |} in
    stageAndCommit message (this w, engine w) = (Returned tt, (f, e)) ->
    exists w',
      performBatchCommit stats triggeredBy w = (Returned tt, w') /\
      calls w' = calls w ++ [StageAndCommit message] /\
      engine w' = e.
Proof.
  intros stats triggeredBy w f e Hengine Hmode message Hop.
  unfold performBatchCommit. rewrite bind_gets. cbv beta.
  rewrite Hengine. change (negb true) with false. cbv iota.
  assert (Hrun :
    forall report trace : M (World E) unit,
      silent report -> silent trace ->
      exists w',
        ((await "stageAndCommit" (StageAndCommit message)
            (stageAndCommit message) ;; report) ;; trace) w
        = (Returned tt, w') /\
        calls w' = calls w ++ [StageAndCommit message] /\ engine w' = e).
  { intros report trace Hreport Htrace. unfold bind.
    rewrite (await_run _ _ _ _ _ _ _ Hengine Hop).
    match goal with
    | |- context [report ?w1] =>
        destruct (Hreport w1) as [w2 [-> [Hc2 [He2 _]]]]
    end.
    destruct (Htrace w2) as [w3 [-> [Hc3 [He3 _]]]].
    exists w3. split; [reflexivity |].
    rewrite Hc3, Hc2, He3, He2. split; reflexivity. }
  destruct (hiddenFilesHandling (settings (this w))); try contradiction;
    apply Hrun;
    solve [apply silent_when, silent_notice
          | apply silent_gets; intros s; apply silent_when, silent_log].
Qed.

End WithEngine.

(** C1. A [performCommit] that finds [commitInProgress] set returns at
    once: no engine call is issued, the engine is untouched, and the plugin
    is unchanged except for the notice that a manual trigger shows. A
    [performCommit] that finds the guard clear leaves it clear when it
    settles, whatever the engine calls do (return, throw, or let other
    callbacks change the plugin meanwhile). *)
Theorem performCommit_guard :
  forall (E : Type) (api : EngineApi E) (C : Collator)
         (triggeredBy : string) (w : World E),
    (commitInProgress (this w) = true ->
     performCommit triggeredBy w
     = (Returned tt,
        if isManual triggeredBy
        then {| this :=
                  {| settings := settings (this w);
                     gitEngine := gitEngine (this w);
                     commitInProgress := commitInProgress (this w);
                     notices := notices (this w) ++ ["Commit already in progress"];
                     console := console (this w) |};
                engine := engine w;
                calls := calls w |}
        else w)) /\
    (commitInProgress (this w) = false ->
     commitInProgress (this (snd (performCommit triggeredBy w))) = false).
Proof.
  intros E api C triggeredBy w. split; intros Hguard.
  - unfold performCommit, bind, gets. rewrite Hguard.
    unfold when. destruct (isManual triggeredBy).
    + unfold notice, onThis, modify. rewrite Hguard. reflexivity.
    + reflexivity.
  - unfold performCommit, bind, gets. rewrite Hguard.
    destruct (gitEngine (this w)); simpl.
    + apply guard_released.
    + exact Hguard.
Qed.

Lemma performCommit_guard_witness :
  @performCommit _ (Samples.fakeEngine Samples.sampleStats None)
    CollatorFacts.codeUnitCollator "manual"
    (Samples.samplePlugin batch group true tt)
  = (Returned tt,
     {| this := {| settings := Samples.sampleSettings batch group;
                   gitEngine := true; commitInProgress := true;
                   notices := ["Commit already in progress"];
                   console := [] |};
        engine := tt; calls := [] |}) /\
  commitInProgress
    (this (snd (@performCommit _
                  (Samples.fakeEngine Samples.sampleStats
                     (Some {| message := Some "fatal: permission denied" |}))
                  CollatorFacts.codeUnitCollator "interval"
                  (Samples.samplePlugin individual separate false tt))))
  = false.
Proof.
  split.
  - exact (proj1 (performCommit_guard unit
                    (Samples.fakeEngine Samples.sampleStats None)
                    CollatorFacts.codeUnitCollator "manual"
                    (Samples.samplePlugin batch group true tt)) eq_refl).
  - exact (proj2 (performCommit_guard unit
                    (Samples.fakeEngine Samples.sampleStats
                       (Some {| message := Some "fatal: permission denied" |}))
                    CollatorFacts.codeUnitCollator "interval"
                    (Samples.samplePlugin individual separate false tt))
             eq_refl).
Defined.



(** When the commit of the regular files throws, the invocation ends
    there: the hidden files are not committed. *)
Example performBatchCommit_stops_at_failure :
  let failure := {| message := Some "fatal: permission denied" |} in
  let result :=
    @performBatchCommit _ (Samples.fakeEngine [] (Some failure))
      CollatorFacts.codeUnitCollator Samples.sampleStats "manual"
      (Samples.samplePlugin batch separate true tt) in
  fst result = Thrown failure /\
  calls (snd result)
  = [ StageAndCommitFiles ["notes/b.md"; "a.md"]
        "chore: update a.md [DELETES], notes/b.md" ].
Proof. split; reflexivity. Qed.

(** *** The guard is held during every engine call *)

Section Watched.
Context {E : Type} (api : EngineApi E) `{Collator}.
Hypothesis api_keeps_guard : keepsGuard api.

#[local] Existing Instance watched.

Local Abbreviation holds m := (@Plugin.holds E _ m).

Lemma holds_ret : forall {A : Type} (a : A), holds (ret a).
Proof. intros A a w Hw. exact Hw. Qed.

Lemma holds_bind :
  forall {A B : Type} (m : M (World (E * bool)) A)
         (k : A -> M (World (E * bool)) B),
    holds m -> (forall a, holds (k a)) -> holds (bind m k).
Proof.
  intros A B m k Hm Hk w Hw. unfold bind.
  specialize (Hm w Hw). destruct (m w) as [[a | err] w1]; simpl in *.
  - apply Hk. exact Hm.
  - exact Hm.
Qed.

Lemma holds_gets :
  forall {A : Type} (f : World (E * bool) -> A), holds (gets f).
Proof. intros A f w Hw. exact Hw. Qed.

Lemma holds_when :
  forall (b : bool) (m : M (World (E * bool)) unit), holds m -> holds (when b m).
Proof. intros [] m Hm; [exact Hm | apply holds_ret]. Qed.

Lemma holds_notice : forall text, holds (notice text).
Proof. intros text w Hw. exact Hw. Qed.

Lemma holds_log : forall text, holds (log text).
Proof. intros text w Hw. exact Hw. Qed.

Lemma holds_await :
  forall {A : Type} (method : string) (c : Call) (op : Pending E A),
    guardStable op -> holds (await method c (watch op)).
Proof.
  intros A method c op Hop w [Hguard Hseen]. unfold await, watch.
  destruct (gitEngine (this w)); [| split; assumption].
  specialize (Hop (this w, fst (engine w))). simpl in *.
  destruct (op (this w, fst (engine w))) as [r [f e]].
  unfold held. simpl in *.
  split; [congruence |]. rewrite Hseen, Hguard. reflexivity.
Qed.

Lemma holds_tryCatch :
  forall {A : Type} (body : M (World (E * bool)) A)
         (handler : Error -> M (World (E * bool)) A),
    holds body -> (forall err, holds (handler err)) ->
    holds (tryCatch body handler).
Proof.
  intros A body handler Hbody Hhandler w Hw. unfold tryCatch.
  specialize (Hbody w Hw). destruct (body w) as [[a | err] w1]; simpl in *.
  - exact Hbody.
  - apply Hhandler. exact Hbody.
Qed.

Create HintDb held discriminated.
#[local] Hint Resolve holds_ret holds_gets holds_notice holds_log : held.
#[local] Hint Resolve holds_when holds_bind holds_await holds_tryCatch : held.

Lemma holds_filterFilesBySettings :
  forall stats, holds (@filterFilesBySettings _ (watched api) stats).
Proof.
  destruct api_keeps_guard as [_ [Hfilter _]].
  intros stats. unfold filterFilesBySettings.
  apply holds_bind; [auto with held |]. intros f.
  destruct (negb (gitEngine f)); [auto with held |].
  destruct (hiddenFilesHandling (settings f)); auto with held.
  apply holds_await, Hfilter.
Qed.

Lemma holds_performBatchCommit :
  forall stats triggeredBy,
    holds (@performBatchCommit _ (watched api) _ stats triggeredBy).
Proof.
  destruct api_keeps_guard as [_ [_ [Hcommit Hfiles]]].
  intros stats triggeredBy. unfold performBatchCommit.
  apply holds_bind; [auto with held |]. intros f.
  destruct (negb (gitEngine f)); [auto with held |].
  apply holds_bind.
  - destruct (hiddenFilesHandling (settings f));
      repeat (apply holds_bind; [| intros ?]);
      try apply holds_when; auto with held;
      apply holds_await; auto.
  - intros _. apply holds_bind; [auto with held |]. intros s.
    auto with held.
Qed.

Lemma holds_commitEach :
  forall stats committedCount,
    holds (@commitEach _ (watched api) stats committedCount).
Proof.
  destruct api_keeps_guard as [_ [_ [_ Hfiles]]].
  induction stats as [| s rest IH]; intros committedCount; simpl.
  - auto with held.
  - apply holds_bind; [| intros n; apply IH].
    unfold commitOne. apply holds_bind; [| auto with held].
    apply holds_await, Hfiles.
Qed.

Lemma holds_performIndividualCommits :
  forall stats triggeredBy,
    holds (@performIndividualCommits _ (watched api) _ stats triggeredBy).
Proof.
  destruct api_keeps_guard as [_ [_ [_ Hfiles]]].
  intros stats triggeredBy. unfold performIndividualCommits.
  apply holds_bind; [auto with held |]. intros f.
  destruct (negb (gitEngine f)); [auto with held |].
  apply holds_bind.
  - destruct (hiddenFilesHandling (settings f));
      try apply holds_commitEach.
    apply holds_bind; [apply holds_commitEach |]. intros n.
    destruct (negb _); [| auto with held].
    apply holds_bind; [apply holds_await, Hfiles | auto with held].
  - intros n. apply holds_bind; [auto with held |]. intros _.
    apply holds_bind; [auto with held |]. intros s. auto with held.
Qed.

Lemma holds_commitChanges :
  forall triggeredBy, holds (@commitChanges _ (watched api) _ triggeredBy).
Proof.
  destruct api_keeps_guard as [Hdiff _].
  intros triggeredBy. unfold commitChanges.
  apply holds_bind; [apply holds_await, Hdiff |]. intros stats.
  apply holds_bind; [apply holds_filterFilesBySettings |]. intros kept.
  destruct (Nat.eqb _ _); [auto with held |].
  apply holds_bind; [auto with held |]. intros s.
  destruct (commitMode s);
    [apply holds_performBatchCommit | apply holds_performIndividualCommits].
Qed.

Lemma holds_reportFailure : forall err, holds (reportFailure err).
Proof.
  intros err. unfold reportFailure.
  apply holds_bind; [auto with held |]. intros _.
  destruct (message err) as [errorMsg |]; [| intros w Hw; exact Hw].
  destruct (includes _ _); [auto with held |].
  destruct (includes _ _); auto with held.
Qed.

(** X9. In-flight exclusion: when nothing else writes the guard, no
    engine call of [performCommit] starts while [commitInProgress] is
    clear, so a second [performCommit] that runs during such a call finds
    the guard set. *)
Lemma guard_held_during_calls :
  forall (triggeredBy : string) (w : World (E * bool)),
    snd (engine w) = false ->
    snd (engine (snd (@performCommit _ (watched api) _ triggeredBy w))) = false.
Proof.
  intros triggeredBy w Hseen.
  unfold performCommit, bind at 1, gets at 1.
  destruct (commitInProgress (this w)).
  - destruct (isManual triggeredBy); exact Hseen.
  - destruct (gitEngine (this w)); [| exact Hseen].
    change (negb true) with false. cbv iota.
    unfold bind, setCommitInProgress at 1, onThis at 1, modify at 1.
    unfold tryFinally. cbv beta.
    match goal with
    | |- context [tryCatch ?body ?handler ?w1] =>
        pose proof (holds_tryCatch body handler
                      (holds_commitChanges triggeredBy) holds_reportFailure w1
                      (conj eq_refl Hseen)) as [_ Hkept];
        destruct (tryCatch body handler w1) as [r w2]
    end.
    exact Hkept.
Qed.

End Watched.

End PluginFacts.

(* ================================================================== *)
(** ** The plugin on a [GitEngine] over the repository model *)
(* ================================================================== *)

Module WiringFacts.
Import Js CommitBuilder Effect Plugin Repository Wiring PluginFacts.

(** On the repository model the diff-stats query returns and changes
    nothing in the repository. *)
Lemma getDiffStats_returns :
  forall eng : GitEngine.Engine Repo,
  exists stats eng',
    GitEngine.getDiffStats eng = (Returned stats, eng') /\
    GitEngine.git eng' = GitEngine.git eng.
Proof.
  intros eng.
  unfold GitEngine.getDiffStats, tryCatch, bind, GitEngine.onGit. simpl.
  destruct (GitEngine.noTracking _); simpl; eexists; eexists; split;
    reflexivity.
Qed.

(** [stageAndCommit(message)] stages all pending changes and commits
    them, whatever [message] says. *)
Lemma stageAndCommit_commits_all :
  forall (eng : GitEngine.Engine Repo) (message : string),
  exists eng',
    GitEngine.stageAndCommit message eng = (Returned tt, eng') /\
    GitEngine.git eng' = commitIndex message (addAll (GitEngine.git eng)).
Proof.
  intros eng message. eexists. split; reflexivity.
Qed.

(** C10. [stageAndCommit(message)] runs [git add -A] and then
    [git commit]: the commit holds every pending change of the working
    tree, whatever paths [message] names. So in batch mode with
    [hiddenFilesHandling = "never"], when some file is left after the
    filter, the one commit made is named after the files that passed the
    filter and still holds the hidden files that the filter removed. *)
Theorem stageAndCommit_takes_hidden_files :
  forall (filterIgnoredFiles :
            list FileDiffStat ->
            Pending (GitEngine.Engine Repo) (list FileDiffStat))
         (stageAndCommitFiles :
            list string -> string -> Pending (GitEngine.Engine Repo) unit)
         (C : Collator) (triggeredBy : string)
         (w : World (GitEngine.Engine Repo)),
    let repo := GitEngine.git (engine w) in
    (forall (eng : GitEngine.Engine Repo) (message : string),
        history (GitEngine.git (snd (GitEngine.stageAndCommit message eng)))
        = history (GitEngine.git eng)
          ++ [{| subject := message;
                 contents := index (GitEngine.git eng)
                             ++ pendingChanges (GitEngine.git eng) |}]) /\
    (commitMode (settings (this w)) = batch ->
     hiddenFilesHandling (settings (this w)) = never ->
     gitEngine (this w) = true ->
     commitInProgress (this w) = false ->
     exists stats,
       fst (GitEngine.getDiffStats (engine w)) = Returned stats /\
       let kept := filter (fun s => negb (isHidden (path s))) stats in
       let message :=
         buildCommitMessage
           {| files := kept;
              maxFiles := Some (maxFilesInCommitMessage (settings (this w))) |} in
       let w' :=
         snd (@performCommit _ (engineApi filterIgnoredFiles stageAndCommitFiles)
                C triggeredBy w) in
       (kept <> [] ->
        calls w' = calls w ++ [GetDiffStats; StageAndCommit message] /\
        exists commit,
          history (GitEngine.git (engine w')) = history repo ++ [commit] /\
          subject commit = message /\
          contents commit = index repo ++ pendingChanges repo /\
          forall s, In s stats -> isHidden (path s) = true ->
            ~ In s kept /\
            (In (path s) (pendingChanges repo) ->
             In (path s) (contents commit)))).
Proof.
  intros fif sacf C triggeredBy w repo. split.
  - intros eng message. reflexivity.
  - intros Hbatch Hnever Hengine Hguard.
    destruct (getDiffStats_returns (engine w)) as [stats [eng1 [Hget Hgit1]]].
    exists stats. split; [rewrite Hget; reflexivity |].
    intros kept message w' Hkept.
    destruct (stageAndCommit_commits_all eng1 message) as [eng2 [Hcommit Hgit2]].
    set (api := engineApi fif sacf).
    set (w1 := {| this :=
                    {| settings := settings (this w);
                       gitEngine := gitEngine (this w);
                       commitInProgress := true;
                       notices := notices (this w);
                       console := console (this w) |};
                  engine := engine w; calls := calls w |}).
    assert (Hget1 : @getDiffStats _ api (this w1, engine w1)
                    = (Returned stats, (this w1, eng1))).
    { change (@getDiffStats _ api (this w1, engine w1))
        with (onEngine GitEngine.getDiffStats (this w1, engine w)).
      unfold onEngine. cbn [fst snd]. rewrite Hget. reflexivity. }
    set (w2 := {| this := this w1; engine := eng1;
                  calls := calls w1 ++ [GetDiffStats] |}).
    assert (Hcommit2 : @stageAndCommit _ api message (this w2, engine w2)
                       = (Returned tt, (this w2, eng2))).
    { change (@stageAndCommit _ api message (this w2, engine w2))
        with (onEngine (GitEngine.stageAndCommit message) (this w2, eng1)).
      unfold onEngine. cbn [fst snd]. rewrite Hcommit. reflexivity. }
    destruct (@performBatchCommit_together _ api C kept triggeredBy w2
                (this w2) eng2 Hengine
                ltac:(simpl; rewrite Hnever; discriminate) Hcommit2)
      as [w3 [Hrun3 [Hcalls3 Hengine3]]].
    assert (Hbody : @commitChanges _ api C triggeredBy w1 = (Returned tt, w3)).
    { unfold commitChanges. unfold bind at 1.
      rewrite (await_run "getDiffStats" GetDiffStats _ w1 _ _ _ Hengine Hget1).
      fold w2. unfold bind at 1.
      rewrite (filterFilesBySettings_never stats w2 Hengine Hnever).
      fold kept. rewrite (nonempty_length_false kept Hkept).
      rewrite bind_gets. cbv beta.
      change (settings (this w2)) with (settings (this w)).
      rewrite Hbatch. exact Hrun3. }
    assert (Hrun : @performCommit _ api C triggeredBy w
                   = (Returned tt,
                      {| this :=
                           {| settings := settings (this w3);
                              gitEngine := gitEngine (this w3);
                              commitInProgress := false;
                              notices := notices (this w3);
                              console := console (this w3) |};
                         engine := engine w3; calls := calls w3 |})).
    { unfold performCommit. rewrite bind_gets. cbv beta.
      rewrite Hguard, Hengine. change (negb true) with false. cbv iota.
      unfold bind at 1. unfold setCommitInProgress at 1, onThis, modify.
      fold w1. unfold tryFinally, tryCatch. rewrite Hbody. reflexivity. }
    subst w'. fold api. rewrite Hrun. simpl.
    rewrite Hcalls3, Hengine3, Hgit2, Hgit1.
    simpl. rewrite <- app_assoc. split; [reflexivity |].
    eexists. split; [reflexivity |].
    split; [reflexivity |]. split; [reflexivity |].
    intros s Hin Hhidden. split.
    + intros Hk. apply filter_In in Hk. destruct Hk as [_ Hk].
      rewrite Hhidden in Hk. discriminate.
    + intros Hp. simpl. apply in_or_app. right. exact Hp.
Qed.

Lemma stageAndCommit_takes_hidden_files_witness :
  history
    (GitEngine.git
       (engine
          (snd (@performCommit _
                  (engineApi (fun kept => ret kept) (fun _ _ => ret tt))
                  CollatorFacts.codeUnitCollator "manual"
                  (Samples.samplePlugin batch never false
                     Samples.sampleEngine)))))
  = [ {| subject := "chore: update note.md";
         contents := ["note.md"; ".obsidian/app.json"] |} ].
Proof.
  destruct (proj2 (stageAndCommit_takes_hidden_files
                     (fun kept => ret kept) (fun _ _ => ret tt)
                     CollatorFacts.codeUnitCollator "manual"
                     (Samples.samplePlugin batch never false
                        Samples.sampleEngine))
              eq_refl eq_refl eq_refl eq_refl)
    as [stats [Hstats Hcommit]].
  vm_compute in Hstats. injection Hstats as <-.
  destruct (Hcommit ltac:(vm_compute; discriminate))
    as [_ [[subject0 contents0] [Hhistory [Hsubject [Hcontents _]]]]].
  rewrite Hhistory. simpl in Hsubject, Hcontents. subst subject0 contents0.
  reflexivity.
Defined.

End WiringFacts.

(* ================================================================== *)
(** ** commit-builder.ts: edge cases and paths *)
(* ================================================================== *)

Module BuilderEdgeFacts.
Import Js CommitBuilder SortFacts StringFacts CollatorFacts BuilderFacts.

(** X1. A [maxFiles] below zero is passed to [slice] as it is, which counts
    from the end: the message names the first [n + maxFiles] sorted files
    (none when that is not positive) and then announces [n - maxFiles]
    more, which is more than there are files. *)
Theorem buildCommitMessage_negative_maxFiles :
  forall (C : Collator) (fs : list FileDiffStat) (k : Z),
    fs <> [] -> k < 0 ->
    let names := map formatFileName (sort byPath fs) in
    let n := Z.of_nat (length fs) in
    buildCommitMessage {| files := fs; maxFiles := Some k |}
    = "chore: update " +++ join (firstn (Z.to_nat (n + k)) names) ", "
      +++ " and " +++ toString (n - k) +++ " more" /\
    n < n - k.
Proof.
  intros C fs k Hne Hk names n. split; [| lia].
  unfold buildCommitMessage. simpl files. simpl maxFiles.
  rewrite (nonempty_length _ Hne). rewrite length_map, sort_length. fold n.
  destruct (Z.leb_spec n k); [lia |].
  unfold slice0. rewrite length_map, sort_length. fold n.
  destruct (Z.ltb_spec k 0); [| lia].
  replace (Z.to_nat (Z.max (n + k) 0)) with (Z.to_nat (n + k)) by lia.
  reflexivity.
Qed.

Lemma buildCommitMessage_negative_maxFiles_witness :
  @buildCommitMessage codeUnitCollator
    {| files := [stat "c.md" 1; stat "a.md" 1; stat "b.md" 1];
       maxFiles := Some (-1) |}
  = "chore: update a.md, b.md and 4 more".
Proof.
  apply (proj1 (buildCommitMessage_negative_maxFiles codeUnitCollator
                  [stat "c.md" 1; stat "a.md" 1; stat "b.md" 1] (-1)
                  ltac:(discriminate) ltac:(lia))).
Defined.

Lemma split_plain :
  forall (s : string) (sep : ascii), occurs sep s = false -> split s sep = [s].
Proof.
  induction s as [| c s IH]; intros sep Hs; simpl in *; [reflexivity |].
  apply orb_false_iff in Hs. destruct Hs as [Hc Hs].
  rewrite Hc, (IH sep Hs). reflexivity.
Qed.

Lemma split_nonempty : forall (s : string) (sep : ascii), split s sep <> [].
Proof.
  intros [| c s] sep; simpl; [discriminate |].
  destruct (Ascii.eqb c sep); [discriminate |].
  destruct (split s sep); discriminate.
Qed.

(** A separator put between two strings puts their segments side by
    side. *)
Lemma split_append :
  forall (a b : string) (sep : ascii),
    split (a +++ String sep b) sep = split a sep ++ split b sep.
Proof.
  induction a as [| c a IH]; intros b sep; simpl.
  - rewrite Ascii.eqb_refl. reflexivity.
  - rewrite IH. destruct (Ascii.eqb c sep); [reflexivity |].
    pose proof (split_nonempty a sep) as Hne.
    destruct (split a sep) as [| seg segs]; [contradiction | reflexivity].
Qed.

(** X2. A path put together from a folder and a name with a slash is hidden
    exactly when the folder or the name is: every file below a hidden
    folder is hidden, and so is a dot file in any folder. *)
Theorem isHidden_of_joined_path :
  forall folder name : string,
    isHidden (folder +++ "/" +++ name) = (isHidden folder || isHidden name)%bool.
Proof.
  intros folder name. unfold isHidden.
  change (folder +++ "/" +++ name) with (folder +++ String "/" name).
  rewrite split_append. apply existsb_app.
Qed.

(** The hidden test on a single segment is the test for a leading dot. *)
Lemma isHidden_segment_only :
  forall name : string,
    occurs "/" name = false -> isHidden name = startsWith name ".".
Proof.
  intros name Hname. unfold isHidden. rewrite (split_plain name "/" Hname).
  simpl. apply orb_false_r.
Qed.

End BuilderEdgeFacts.

(* ================================================================== *)
(** ** Numbers in and out of strings *)
(* ================================================================== *)

Module NumberFacts.
Import Js Numstat.

Lemma digits_numeral :
  forall (d : Decimal.uint) (acc : Z),
    digits (NilEmpty.string_of_uint d) (Some acc) = Some (numeralValue d acc).
Proof.
  induction d; intros acc; simpl; try reflexivity; apply IHd.
Qed.

Lemma digits_numeral_start :
  forall d : Decimal.uint,
    d <> Decimal.Nil ->
    digits (NilEmpty.string_of_uint d) None = Some (numeralValue d 0).
Proof.
  intros [] Hd; try contradiction; simpl; apply digits_numeral.
Qed.

Lemma numeralValue_acc :
  forall (l : Decimal.uint) (acc : positive),
    Z.pos (Pos.of_uint_acc l acc) = numeralValue l (Z.pos acc).
Proof.
  induction l; intros acc; cbn [Pos.of_uint_acc numeralValue];
    try reflexivity; rewrite IHl; f_equal; lia.
Qed.

Lemma numeralValue_of_uint :
  forall d : Decimal.uint, Z.of_N (Pos.of_uint d) = numeralValue d 0.
Proof.
  induction d; cbn [Pos.of_uint numeralValue]; try reflexivity;
    try exact IHd; rewrite N2Z.inj_pos; apply numeralValue_acc.
Qed.

Lemma to_uint_not_nil : forall p : positive, Pos.to_uint p <> Decimal.Nil.
Proof.
  intros p Hnil. pose proof (DecimalPos.Unsigned.of_to p) as Hp.
  rewrite Hnil in Hp. discriminate.
Qed.

(** A string of digits does not contain the character [c] when [c] is not
    a digit. *)
Lemma numeral_chars :
  forall (d : Decimal.uint) (c : ascii),
    isDigit c = false -> occurs c (NilEmpty.string_of_uint d) = false.
Proof.
  induction d; intros c Hc; cbn [NilEmpty.string_of_uint occurs];
    try reflexivity; rewrite (IHd c Hc), orb_false_r;
    apply Ascii.eqb_neq; intros <-; discriminate.
Qed.

(** [toString] of a number that is not negative: its shape. *)
Lemma toString_numeral :
  forall z : Z,
    0 <= z ->
    exists d,
      d <> Decimal.Nil /\ toString z = NilEmpty.string_of_uint d /\
      numeralValue d 0 = z.
Proof.
  intros [| p | p] Hz; try lia.
  - exists (Decimal.D0 Decimal.Nil). repeat split. discriminate.
  - exists (Pos.to_uint p). split; [apply to_uint_not_nil |]. split.
    + unfold toString. simpl. pose proof (to_uint_not_nil p) as Hp.
      destruct (Pos.to_uint p); try reflexivity. contradiction.
    + rewrite <- numeralValue_of_uint, DecimalPos.Unsigned.of_to. reflexivity.
Qed.

Lemma toString_chars :
  forall (z : Z) (c : ascii),
    0 <= z -> isDigit c = false -> occurs c (toString z) = false.
Proof.
  intros z c Hz Hc. destruct (toString_numeral z Hz) as [d [_ [-> _]]].
  apply numeral_chars, Hc.
Qed.

Lemma numeral_starts_with_digit :
  forall d : Decimal.uint,
    d <> Decimal.Nil ->
    exists c rest, NilEmpty.string_of_uint d = String c rest /\ isDigit c = true.
Proof.
  intros [] Hd; try contradiction; simpl; eexists; eexists; split;
    reflexivity.
Qed.

Lemma parseInt_after_digit :
  forall (c : ascii) (rest : string),
    isDigit c = true ->
    parseInt (Some (String c rest))
    = match digits (String c rest) None with
      | Some n => Num n
      | None => NaN
      end.
Proof.
  intros c rest Hc. unfold parseInt.
  destruct c as [[] [] [] [] [] [] [] []]; try discriminate; reflexivity.
Qed.

(** The round trip of a number that is not negative through [toString] and
    [parseInt]. *)
Lemma parseInt_toString :
  forall z : Z, 0 <= z -> parseInt (Some (toString z)) = Num z.
Proof.
  intros z Hz. destruct (toString_numeral z Hz) as [d [Hd [-> Hvalue]]].
  destruct (numeral_starts_with_digit d Hd) as [c [rest [Hs Hc]]].
  pose proof (digits_numeral_start d Hd) as Hdigits.
  rewrite Hs in *. rewrite (parseInt_after_digit c rest Hc), Hdigits, Hvalue.
  reflexivity.
Qed.

(** White space beyond ASCII: a no-break space (U+00A0), a line separator
    (U+2028) and a byte order mark (U+FEFF) are trimmed and skipped. *)
Example trim_unicode_white_space :
  trim (bytes [194; 160]%N +++ "a b"
        +++ bytes [226; 128; 168; 239; 187; 191]%N)
  = "a b" /\
  parseInt (Some (bytes [239; 187; 191; 194; 160]%N +++ "12")) = Num 12 /\
  endsInText ("note" +++ bytes [194; 160]%N) = false /\
  endsInText ("caf" +++ bytes [195; 169]%N) = true.
Proof. repeat split. Qed.

Lemma toString_not_dash : forall z : Z, 0 <= z -> String.eqb (toString z) "-" = false.
Proof.
  intros z Hz. destruct (toString_numeral z Hz) as [d [Hd [-> _]]].
  destruct (numeral_starts_with_digit d Hd) as [c [rest [-> Hc]]].
  apply String.eqb_neq. intros Heq. inversion Heq; subst. discriminate.
Qed.

Lemma toString_starts_with_digit :
  forall z : Z,
    0 <= z -> exists c rest, toString z = String c rest /\ isDigit c = true.
Proof.
  intros z Hz. destruct (toString_numeral z Hz) as [d [Hd [-> _]]].
  apply numeral_starts_with_digit, Hd.
Qed.

End NumberFacts.

(* ================================================================== *)
(** ** Reading the output of [git diff --numstat] *)
(* ================================================================== *)

Module NumstatFacts.
Import Js CommitBuilder Effect GitEngine Numstat.
Import StringFacts BuilderEdgeFacts NumberFacts EngineFacts.
Import Repository.

Lemma reverse_append :
  forall a b acc : string, reverse (a +++ b) acc = reverse b (reverse a acc).
Proof.
  induction a as [| c a IH]; intros b acc; simpl; [reflexivity | apply IH].
Qed.

Lemma reverse_reverse :
  forall s acc : string, reverse (reverse s acc) "" = reverse acc s.
Proof.
  induction s as [| c s IH]; intros acc; simpl; [reflexivity |].
  rewrite IH. reflexivity.
Qed.

Lemma reverse_acc :
  forall s acc : string, reverse s acc = reverse s "" +++ acc.
Proof.
  induction s as [| c s IH]; intros acc; simpl; [reflexivity |].
  rewrite (IH (String c acc)), (IH (String c "")), append_assoc.
  reflexivity.
Qed.

Lemma trimWith_text :
  forall (ps : list string) (fuel : nat) (s : string),
    dropAny ps s = None -> trimWith ps fuel s = s.
Proof. intros ps [| n] s Hs; simpl; [| rewrite Hs]; reflexivity. Qed.

(** [trimEnd] leaves a string that ends in text alone. *)
Lemma trimEnd_text : forall s : string, endsInText s = true -> trimEnd s = s.
Proof.
  intros [| c s] Hs; [discriminate |]. unfold endsInText in Hs.
  unfold trimEnd.
  destruct (dropAny whiteSpaceReversed (reverse (String c s) "")) eqn:Hdrop;
    [discriminate |].
  rewrite (trimWith_text _ _ _ Hdrop). apply reverse_reverse.
Qed.

Lemma trimEnd_newline :
  forall s : string, trimEnd (s +++ String newline "") = trimEnd s.
Proof.
  intros s. unfold trimEnd.
  rewrite reverse_append, append_length, Nat.add_1_r. reflexivity.
Qed.

(** A prefix that fails on [x] fails on [x] followed by a character that
    is not in it. *)
Lemma dropPrefix_longer :
  forall (c : ascii) (p x y : string),
    occurs c p = false ->
    dropPrefix p x = None -> dropPrefix p (x +++ String c y) = None.
Proof.
  intros c. induction p as [| a p IH]; intros x y Hp Hx; [discriminate |].
  cbn [occurs] in Hp. apply orb_false_elim in Hp. destruct Hp as [Hac Hp].
  destruct x as [| b x]; cbn [String.append dropPrefix] in *.
  - rewrite Hac. reflexivity.
  - destruct (Ascii.eqb a b); [apply IH; assumption | reflexivity].
Qed.

Lemma dropAny_longer :
  forall (c : ascii) (ps : list string) (x y : string),
    apartFrom c ps = true -> x <> "" ->
    dropAny ps x = None -> dropAny ps (x +++ String c y) = None.
Proof.
  intros c ps x y Hps Hne. destruct x as [| b x]; [contradiction |].
  induction ps as [| p ps IH]; intros Hx; [reflexivity |].
  cbn [apartFrom forallb] in Hps. apply andb_prop in Hps.
  destruct Hps as [Hp Hrest]. destruct p as [| a p]; [discriminate |].
  apply negb_true_iff in Hp.
  cbn [dropAny dropPrefix String.append] in *.
  destruct (Ascii.eqb a b).
  - destruct (dropPrefix p x) eqn:Hpx; [discriminate |].
    rewrite (dropPrefix_longer c p x y Hp Hpx). apply IH; assumption.
  - apply IH; assumption.
Qed.

Lemma reverse_nonempty :
  forall s : string, s <> "" -> reverse s "" <> "".
Proof.
  intros s Hs Hrev. apply Hs.
  pose proof (reverse_reverse s "") as Hback. rewrite Hrev in Hback.
  symmetry. exact Hback.
Qed.

(** Text stays the end of what it ends, after a character that no
    white-space character has after its first byte. *)
Lemma endsInText_after :
  forall (c : ascii) (a b : string),
    apartFrom c whiteSpaceReversed = true ->
    endsInText b = true -> endsInText (a +++ String c b) = true.
Proof.
  intros c a b Hc Hb. unfold endsInText in *.
  destruct b as [| d b]; [discriminate |].
  destruct (a +++ String c (String d b)) eqn:Hab;
    [destruct a; discriminate |].
  rewrite <- Hab. clear Hab.
  replace (a +++ String c (String d b))
    with ((a +++ String c "") +++ String d b)
    by (rewrite append_assoc; reflexivity).
  rewrite reverse_append, reverse_acc.
  rewrite (reverse_append a (String c "") ""). cbn [reverse].
  destruct (dropAny whiteSpaceReversed (reverse (String d b) "")) eqn:Hdrop;
    [discriminate |].
  assert (Hne : reverse (String d b) "" <> "")
    by (apply reverse_nonempty; discriminate).
  rewrite (dropAny_longer c _ _ _ Hc Hne Hdrop).
  reflexivity.
Qed.

Lemma occurs_append :
  forall (c : ascii) (a b : string),
    occurs c (a +++ b) = (occurs c a || occurs c b)%bool.
Proof.
  induction a as [| d a IH]; intros b; simpl; [reflexivity |].
  rewrite IH. apply orb_assoc.
Qed.

Section Lines.

Lemma renderLine_fields :
  forall e : Entry,
    renderLine e = firstField e +++ String tab (secondField e +++ String tab (file e)).
Proof. intros [[a d |] f]; reflexivity. Qed.

Lemma field_chars :
  forall (e : Entry) (c : ascii),
    plain e -> isDigit c = false -> c <> "-"%char ->
    occurs c (firstField e) = false /\ occurs c (secondField e) = false.
Proof.
  intros [[a d |] f] c [Hcounts _] Hc Hdash; unfold firstField, secondField;
    cbn [counts] in *.
  - destruct Hcounts as [[Ha _] [Hd _]].
    split; apply toString_chars; assumption.
  - assert (Hneq : occurs c "-" = false).
    { cbn [occurs]. rewrite orb_false_r. apply Ascii.eqb_neq. congruence. }
    split; exact Hneq.
Qed.

Lemma renderLine_split :
  forall e : Entry,
    plain e -> split (renderLine e) tab = [firstField e; secondField e; file e].
Proof.
  intros e He. rewrite renderLine_fields.
  destruct (field_chars e tab He eq_refl ltac:(discriminate)) as [H1 H2].
  destruct He as [_ [Htab _]].
  rewrite split_append, (split_plain _ _ H1).
  rewrite split_append, (split_plain _ _ H2), (split_plain _ _ Htab).
  reflexivity.
Qed.

(** One line, read back. *)
Lemma pushLine_renderLine :
  forall e : Entry, plain e -> pushLine [] (renderLine e) = [entryStat e].
Proof.
  intros e He. unfold pushLine. rewrite (renderLine_split e He).
  cbn [nth_error].
  destruct e as [[a d |] f]; unfold firstField, secondField, entryStat;
    cbn [counts file isDash].
  - destruct He as [[[Ha _] [Hd _]] _]. cbn [counts] in Ha, Hd.
    rewrite (toString_not_dash a Ha), (toString_not_dash d Hd). cbn [orb].
    rewrite (parseInt_toString a Ha), (parseInt_toString d Hd). reflexivity.
  - reflexivity.
Qed.

Lemma renderLine_no_newline :
  forall e : Entry, plain e -> occurs newline (renderLine e) = false.
Proof.
  intros e He. rewrite renderLine_fields.
  destruct (field_chars e newline He eq_refl ltac:(discriminate)) as [H1 H2].
  destruct He as [_ [_ [Hnl _]]].
  rewrite occurs_append, H1. simpl. rewrite occurs_append, H2. simpl.
  exact Hnl.
Qed.

Lemma renderLine_ends_in_text :
  forall e : Entry, plain e -> endsInText (renderLine e) = true.
Proof.
  intros e He. rewrite renderLine_fields.
  destruct He as [_ [_ [_ Hend]]].
  replace (firstField e +++ String tab (secondField e +++ String tab (file e)))
    with ((firstField e +++ String tab (secondField e))
          +++ String tab (file e))
    by (rewrite append_assoc; reflexivity).
  apply endsInText_after; [reflexivity | exact Hend].
Qed.

Lemma digit_starts_text :
  forall (c : ascii) (rest : string),
    isDigit c = true -> dropAny whiteSpace (String c rest) = None.
Proof.
  intros c rest Hc.
  destruct c as [[] [] [] [] [] [] [] []]; try discriminate; reflexivity.
Qed.

Lemma renderLine_starts_in_text :
  forall (e : Entry) (rest : string),
    plain e -> dropAny whiteSpace (renderLine e +++ rest) = None.
Proof.
  intros [[a d |] f] rest [Hcounts _]; simpl in Hcounts.
  - destruct Hcounts as [Ha _].
    destruct (toString_starts_with_digit a (proj1 Ha)) as [c [tail [Hs Hc]]].
    unfold renderLine. cbn [counts]. rewrite Hs. cbn [String.append].
    apply digit_starts_text, Hc.
  - reflexivity.
Qed.

End Lines.

(** The output without its last newline: the lines with newlines in
    between. *)
Lemma render_join :
  forall (e : Entry) (entries : list Entry),
    render (e :: entries)
    = join (map renderLine (e :: entries)) (String newline "")
      +++ String newline "".
Proof.
  intros e entries. revert e.
  induction entries as [| e' entries IH]; intros e.
  - reflexivity.
  - change (render (e :: e' :: entries))
      with (renderLine e +++ String newline (render (e' :: entries))).
    rewrite IH. unfold join. cbn [map String.concat].
    rewrite !append_assoc. reflexivity.
Qed.

Lemma join_cons :
  forall (a b : string) (l : list string) (sep : ascii),
    join (a :: b :: l) (String sep "")
    = a +++ String sep (join (b :: l) (String sep "")).
Proof. reflexivity. Qed.

Lemma split_join_lines :
  forall (lines : list string) (sep : ascii),
    lines <> [] ->
    Forall (fun line => occurs sep line = false) lines ->
    split (join lines (String sep "")) sep = lines.
Proof.
  intros lines sep Hne Hall.
  induction Hall as [| line lines Hline Hlines IH]; [contradiction |].
  destruct lines as [| line' lines].
  - apply split_plain, Hline.
  - rewrite join_cons, split_append, (split_plain _ _ Hline), IH
      by discriminate.
    reflexivity.
Qed.

Lemma join_ends_in_text :
  forall lines : list string,
    lines <> [] ->
    Forall (fun line => endsInText line = true) lines ->
    endsInText (join lines (String newline "")) = true.
Proof.
  intros lines Hne Hall.
  induction Hall as [| line lines Hline Hlines IH]; [contradiction |].
  destruct lines as [| line' lines]; [exact Hline |].
  rewrite join_cons.
  apply endsInText_after; [reflexivity | apply IH; discriminate].
Qed.

(** The lines that [getDiffStats] reads are the lines that git printed. *)
Lemma numstatLines_render :
  forall entries : list Entry,
    Forall plain entries ->
    numstatLines (render entries) = map renderLine entries.
Proof.
  intros [| e entries] Hall; [reflexivity |].
  assert (Hlines : map renderLine (e :: entries) <> []) by discriminate.
  assert (Hnl : Forall (fun line => occurs newline line = false)
                  (map renderLine (e :: entries))).
  { apply Forall_map. eapply Forall_impl; [| exact Hall].
    apply renderLine_no_newline. }
  assert (Hend : Forall (fun line => endsInText line = true)
                   (map renderLine (e :: entries))).
  { apply Forall_map. eapply Forall_impl; [| exact Hall].
    apply renderLine_ends_in_text. }
  assert (Hfull : Forall (fun line => negb (String.eqb line "") = true)
                    (map renderLine (e :: entries))).
  { eapply Forall_impl; [| exact Hend].
    intros [| c s] Hs; [discriminate | reflexivity]. }
  unfold numstatLines, trim.
  assert (Hstart : trimStart (render (e :: entries)) = render (e :: entries)).
  { inversion Hall as [| ? ? He _]; subst. unfold trimStart.
    apply trimWith_text.
    change (render (e :: entries))
      with (renderLine e +++ String newline (render entries)).
    apply renderLine_starts_in_text, He. }
  rewrite Hstart, render_join, trimEnd_newline.
  rewrite trimEnd_text by (apply join_ends_in_text; assumption).
  rewrite (split_join_lines _ newline Hlines Hnl).
  clear Hstart Hlines Hnl Hend.
  induction Hfull as [| line lines Hline _ IH]; [reflexivity |].
  cbn [filter]. rewrite Hline, IH. reflexivity.
Qed.

Lemma pushLine_lines :
  forall (entries : list Entry) (stats : list FileDiffStat),
    Forall plain entries ->
    fold_left pushLine (map renderLine entries) stats
    = stats ++ map entryStat entries.
Proof.
  induction entries as [| e entries IH]; intros stats Hall.
  - simpl. rewrite app_nil_r. reflexivity.
  - inversion Hall as [| ? ? He Hrest]; subst. cbn [map fold_left].
    rewrite (IH _ Hrest), pushLine_from_nil, (pushLine_renderLine e He).
    rewrite <- app_assoc. reflexivity.
Qed.

(** X14. The round trip of [git diff --numstat]. On a branch with an
    upstream, when git prints plain entries (counts that are not negative,
    paths without tab or newline that end in text), [getDiffStats] returns
    one stat per entry, in order, with git's counts and their difference,
    zeros for a binary file, followed by the zero stats of the untracked
    files. *)
Theorem getDiffStats_reads_numstat :
  forall (G : Type) (host : Host G) (eng : Engine G)
         (status : StatusResult) (entries : list Entry) (g1 g2 : G),
    git_status (git eng) = (Returned status, g1) ->
    noTracking status = false ->
    git_raw ["diff"; "--numstat"; "HEAD"] g1 = (Returned (render entries), g2) ->
    Forall plain entries ->
    fst (getDiffStats eng)
    = Returned (map entryStat entries ++ map untracked (not_added status)).
Proof.
  intros G host eng status entries g1 g2 Hstatus Hno Hraw Hplain.
  unfold getDiffStats, tryCatch, bind, onGit, ret.
  rewrite Hstatus. simpl. rewrite Hno. simpl. rewrite Hraw. simpl.
  rewrite (numstatLines_render entries Hplain).
  rewrite pushUntrackedFiles, (pushLine_lines entries [] Hplain).
  reflexivity.
Qed.

Lemma getDiffStats_reads_numstat_witness :
  fst (getDiffStats Samples.sampleEngine)
  = Returned [{| path := "note.md"; additions := Num 3; deletions := Num 1;
                 netChange := Num 2 |};
              untracked ".obsidian/app.json"].
Proof.
  rewrite (getDiffStats_reads_numstat Repo repoHost Samples.sampleEngine
             {| tracking := Some "origin/main";
                not_added := [".obsidian/app.json"] |}
             [{| counts := Lines 3 1; file := "note.md" |}]
             Samples.sampleRepo Samples.sampleRepo eq_refl eq_refl eq_refl).
  - reflexivity.
  - constructor; [| constructor].
    repeat split; try reflexivity; unfold maxSafeInteger; simpl; lia.
Defined.

End NumstatFacts.

(* ================================================================== *)
(** ** main.ts: more on the commit path *)
(* ================================================================== *)

Module CommitPathFacts.
Import Js CommitBuilder Effect Plugin CommitPath BuilderFacts PluginFacts.

Section WithEngine.
Context {E : Type} `{EngineApi E} `{Collator}.

Lemma silent_reportFailure :
  forall err errorMsg,
    message err = Some errorMsg -> @silent E (reportFailure err).
Proof.
  intros err errorMsg Hmsg w.
  unfold reportFailure, bind, log, notice, onThis, modify. rewrite Hmsg.
  destruct (includes _ _); [| destruct (includes _ _)];
    eexists; repeat split.
Qed.

Lemma reportFailure_without_message :
  forall (err : Error) (w : World E),
    message err = None ->
    reportFailure err w
    = (Thrown noIncludes,
       {| this := logged ("[Local Git] Commit failed: " +++ shown err) (this w);
          engine := engine w; calls := calls w |}).
Proof.
  intros err w Hmsg.
  unfold reportFailure, bind, log, onThis, modify, throw.
  rewrite Hmsg. reflexivity.
Qed.

Lemma throwsOnly_silent :
  forall (P : Error -> Prop) (m : M (World E) unit),
    @silent E m -> throwsOnly P m.
Proof.
  intros P m Hm w err w' Hrun. destruct (Hm w) as [w1 [Heq _]].
  rewrite Heq in Hrun. discriminate.
Qed.

Lemma throwsOnly_ret :
  forall (P : Error -> Prop) (A : Type) (a : A),
    throwsOnly P (@ret (World E) A a).
Proof. intros P A a w err w' Hrun. discriminate. Qed.

Lemma throwsOnly_gets :
  forall (P : Error -> Prop) (A : Type) (f : World E -> A),
    throwsOnly P (gets f).
Proof. intros P A f w err w' Hrun. discriminate. Qed.

Lemma throwsOnly_bind :
  forall (P : Error -> Prop) (A B : Type) (m : M (World E) A)
         (k : A -> M (World E) B),
    throwsOnly P m -> (forall a, throwsOnly P (k a)) ->
    throwsOnly P (bind m k).
Proof.
  intros P A B m k Hm Hk w err w' Hrun. unfold bind in Hrun.
  destruct (m w) as [[a | e] w1] eqn:Hmw.
  - exact (Hk a w1 err w' Hrun).
  - injection Hrun as <- <-. exact (Hm w e w1 Hmw).
Qed.

Lemma throwsOnly_when :
  forall (P : Error -> Prop) (b : bool) (m : M (World E) unit),
    throwsOnly P m -> throwsOnly P (when b m).
Proof.
  intros P b m Hm. destruct b; [exact Hm | apply throwsOnly_ret].
Qed.

Lemma throwsOnly_await :
  forall (A : Type) (method : string) (c : Call) (op : Pending E A),
    throwsOnly hasMessage op ->
    throwsOnly hasMessage (await method c op).
Proof.
  intros A method c op Hop w err w' Hrun. unfold await in Hrun.
  destruct (gitEngine (this w)).
  - destruct (op (this w, engine w)) as [r [f e]] eqn:Hcall.
    injection Hrun as -> _. exact (Hop _ _ _ Hcall).
  - injection Hrun as <- _. discriminate.
Qed.

Section Rejections.
Hypothesis api_rejects : rejectsWithErrors H.

Lemma throwsOnly_filterFilesBySettings :
  forall stats, throwsOnly hasMessage (filterFilesBySettings stats).
Proof.
  destruct api_rejects as [_ [Hfilter _]].
  intros stats. unfold filterFilesBySettings.
  apply throwsOnly_bind; [apply throwsOnly_gets |]. intros f.
  destruct (negb (gitEngine f)); [apply throwsOnly_ret |].
  destruct (hiddenFilesHandling (settings f)); try apply throwsOnly_ret.
  apply throwsOnly_await, Hfilter.
Qed.

Lemma throwsOnly_performBatchCommit :
  forall stats triggeredBy,
    throwsOnly hasMessage (performBatchCommit stats triggeredBy).
Proof.
  destruct api_rejects as [_ [_ [Hcommit Hfiles]]].
  intros stats triggeredBy. unfold performBatchCommit.
  apply throwsOnly_bind; [apply throwsOnly_gets |]. intros f.
  destruct (negb (gitEngine f)); [apply throwsOnly_ret |].
  apply throwsOnly_bind.
  - destruct (hiddenFilesHandling (settings f));
      repeat (apply throwsOnly_bind; [| intros ?]);
      try apply throwsOnly_when;
      try (apply throwsOnly_silent, silent_notice);
      apply throwsOnly_await; auto.
  - intros _. apply throwsOnly_bind; [apply throwsOnly_gets |]. intros s.
    apply throwsOnly_when, throwsOnly_silent, silent_log.
Qed.

Lemma throwsOnly_commitEach :
  forall stats committedCount,
    throwsOnly hasMessage (commitEach stats committedCount).
Proof.
  destruct api_rejects as [_ [_ [_ Hfiles]]].
  induction stats as [| s rest IH]; intros committedCount; simpl.
  - apply throwsOnly_ret.
  - apply throwsOnly_bind; [| intros n; apply IH].
    unfold commitOne. apply throwsOnly_bind; [| intros; apply throwsOnly_ret].
    apply throwsOnly_await, Hfiles.
Qed.

Lemma throwsOnly_performIndividualCommits :
  forall stats triggeredBy,
    throwsOnly hasMessage (performIndividualCommits stats triggeredBy).
Proof.
  destruct api_rejects as [_ [_ [_ Hfiles]]].
  intros stats triggeredBy. unfold performIndividualCommits.
  apply throwsOnly_bind; [apply throwsOnly_gets |]. intros f.
  destruct (negb (gitEngine f)); [apply throwsOnly_ret |].
  apply throwsOnly_bind.
  - destruct (hiddenFilesHandling (settings f));
      try apply throwsOnly_commitEach.
    apply throwsOnly_bind; [apply throwsOnly_commitEach |]. intros n.
    destruct (negb _); [| apply throwsOnly_ret].
    apply throwsOnly_bind;
      [apply throwsOnly_await, Hfiles | intros; apply throwsOnly_ret].
  - intros n.
    apply throwsOnly_bind;
      [apply throwsOnly_when, throwsOnly_silent, silent_notice |].
    intros _. apply throwsOnly_bind; [apply throwsOnly_gets |]. intros s.
    apply throwsOnly_when, throwsOnly_silent, silent_log.
Qed.

Lemma throwsOnly_commitChanges :
  forall triggeredBy, throwsOnly hasMessage (commitChanges triggeredBy).
Proof.
  destruct api_rejects as [Hdiff _].
  intros triggeredBy. unfold commitChanges.
  apply throwsOnly_bind; [apply throwsOnly_await, Hdiff |]. intros stats.
  apply throwsOnly_bind; [apply throwsOnly_filterFilesBySettings |].
  intros kept.
  destruct (Nat.eqb _ _);
    [apply throwsOnly_when, throwsOnly_silent, silent_notice |].
  apply throwsOnly_bind; [apply throwsOnly_gets |]. intros s.
  destruct (commitMode s);
    [apply throwsOnly_performBatchCommit
    | apply throwsOnly_performIndividualCommits].
Qed.

End Rejections.

Lemma commitEach_step :
  forall (s : FileDiffStat) (stats : list FileDiffStat) (count : Z)
         (w : World E),
    commitEach (s :: stats) count w
    = match await "stageAndCommitFiles"
              (StageAndCommitFiles [path s] (buildSingleFileCommitMessage s))
              (stageAndCommitFiles [path s] (buildSingleFileCommitMessage s))
              w
      with
      | (Returned _, w1) => commitEach stats (count + 1) w1
      | (Thrown err, w1) => (Thrown err, w1)
      end.
Proof.
  intros s stats count w. cbn [commitEach]. unfold commitOne, bind, ret.
  destruct (await _ _ _ w) as [[[] | err] w1]; reflexivity.
Qed.

(** The calls of the loop over single files: it stops at the first call
    that throws. *)
Lemma commitEach_calls :
  forall (stats : list FileDiffStat) (count : Z) (w : World E),
  exists issued rest,
    calls (snd (commitEach stats count w)) = calls w ++ issued /\
    map (fun s => StageAndCommitFiles [path s] (buildSingleFileCommitMessage s))
        stats
    = issued ++ rest /\
    (forall n, fst (commitEach stats count w) = Returned n ->
               rest = [] /\ n = count + Z.of_nat (length stats)).
Proof.
  induction stats as [| s stats IH]; intros count w.
  - exists [], []. simpl. rewrite app_nil_r.
    split; [reflexivity |]. split; [reflexivity |].
    intros m Hm. inversion Hm. split; [reflexivity | lia].
  - rewrite commitEach_step.
    destruct (await "stageAndCommitFiles"
                (StageAndCommitFiles [path s] (buildSingleFileCommitMessage s))
                (stageAndCommitFiles [path s] (buildSingleFileCommitMessage s))
                w) as [r w1] eqn:Hawait.
    destruct (await_outcome _ _ _ _ _ _ Hawait) as [[_ Hcalls] | [_ [-> ->]]].
    + destruct r as [[] | err].
      * destruct (IH (count + 1) w1) as [issued [rest [Hc [Hsplit Hall]]]].
        exists (StageAndCommitFiles [path s] (buildSingleFileCommitMessage s)
                :: issued), rest.
        rewrite Hc, Hcalls, <- app_assoc. simpl. rewrite Hsplit.
        split; [reflexivity |]. split; [reflexivity |].
        intros m Hm. destruct (Hall m Hm) as [Hrest ->].
        split; [exact Hrest | lia].
      * exists [StageAndCommitFiles [path s] (buildSingleFileCommitMessage s)].
        eexists. simpl. split; [exact Hcalls |]. split; [reflexivity |].
        intros m Hm. discriminate.
    + exists []. eexists. simpl. rewrite app_nil_r.
      split; [reflexivity |]. split; [reflexivity |].
      intros m Hm. discriminate.
Qed.

End WithEngine.

Lemma filterFilesBySettings_locally :
  forall (E : Type) (api : EngineApi E) (stats : list FileDiffStat)
         (w : World E),
    gitEngine (this w) = true ->
    hiddenFilesHandling (settings (this w)) <> gitignore_only ->
    filterFilesBySettings stats w
    = (Returned (keptLocally (hiddenFilesHandling (settings (this w))) stats),
       w).
Proof.
  intros E api stats w Hengine Hmode. unfold filterFilesBySettings.
  rewrite bind_gets. cbv beta. rewrite Hengine.
  change (negb true) with false. cbv iota.
  destruct (hiddenFilesHandling (settings (this w)));
    try contradiction; reflexivity.
Qed.

(** X3. What [filterFilesBySettings] keeps. Without an engine, and in
    ["group"] and ["separate"] mode, it returns the list as it is and calls
    nothing; in ["never"] mode it returns the regular part of
    [categorizeFiles], in input order, and calls nothing; in
    ["gitignore-only"] mode it issues one [filterIgnoredFiles] call and
    settles as that call does. *)
Theorem filterFilesBySettings_by_mode :
  forall (E : Type) (api : EngineApi E) (stats : list FileDiffStat)
         (w : World E),
    let run := filterFilesBySettings stats w in
    (gitEngine (this w) = false -> run = (Returned stats, w)) /\
    (gitEngine (this w) = true ->
     match hiddenFilesHandling (settings (this w)) with
     | never => run = (Returned (regular (categorizeFiles stats)), w)
     | gitignore_only =>
         calls (snd run) = calls w ++ [FilterIgnoredFiles stats] /\
         fst run = fst (filterIgnoredFiles stats (this w, engine w))
     | _ => run = (Returned stats, w)
     end).
Proof.
  intros E api stats w run. subst run. unfold filterFilesBySettings.
  rewrite bind_gets. cbv beta. split; intros Hengine; rewrite Hengine.
  - reflexivity.
  - change (negb true) with false. cbv iota.
    destruct (hiddenFilesHandling (settings (this w))); try reflexivity.
    + rewrite categorizeFiles_filter. reflexivity.
    + unfold await. rewrite Hengine.
      destruct (filterIgnoredFiles stats (this w, engine w)) as [r [f e]].
      split; reflexivity.
Qed.

(** Whatever [performCommit] throws, it throws from its [catch] block. *)
Lemma performCommit_thrown :
  forall (E : Type) (api : EngineApi E) (C : Collator)
         (triggeredBy : string) (w w' : World E) (err : Error),
    performCommit triggeredBy w = (Thrown err, w') ->
    hasMessage err /\
    commitInProgress (this w') = false /\
    exists caught w2,
      commitChanges triggeredBy
        {| this := guarded true (this w); engine := engine w;
           calls := calls w |}
      = (Thrown caught, w2) /\
      message caught = None.
Proof.
  intros E api C triggeredBy w w' err. unfold performCommit.
  rewrite bind_gets. cbv beta.
  destruct (commitInProgress (this w)).
  - destruct (isManual triggeredBy); discriminate.
  - destruct (gitEngine (this w)); [| discriminate].
    change (negb true) with false. cbv iota.
    unfold bind, setCommitInProgress at 1, onThis at 1, modify at 1.
    unfold tryFinally, tryCatch. unfold guarded.
    match goal with
    | |- context [commitChanges triggeredBy ?w1] =>
        destruct (commitChanges triggeredBy w1) as [[[] | caught] w2] eqn:Hbody
    end.
    + discriminate.
    + destruct (message caught) as [errorMsg |] eqn:Hmsg.
      * destruct (silent_reportFailure caught errorMsg Hmsg w2)
          as [w3 [-> _]]. discriminate.
      * rewrite (reportFailure_without_message caught w2 Hmsg).
        intros Hrun. injection Hrun as <- <-.
        split; [discriminate |]. split; [reflexivity |].
        exists caught, w2. split; [reflexivity | exact Hmsg].
Qed.



(** X5. Nothing to commit. When the diff-stats query returns and the files
    that are left (all of them, or in ["never"] mode the ones that are not
    hidden) are none, [performCommit] makes no staging call: the query is
    its only engine call, a manual trigger gets the notice
    ["No changes to commit"], any other trigger nothing, and the guard is
    released. *)
Theorem performCommit_nothing_to_commit :
  forall (E : Type) (api : EngineApi E) (C : Collator)
         (triggeredBy : string) (w : World E)
         (stats : list FileDiffStat) (f1 : Fields) (e1 : E),
    commitInProgress (this w) = false ->
    gitEngine (this w) = true ->
    getDiffStats (guarded true (this w), engine w) = (Returned stats, (f1, e1)) ->
    gitEngine f1 = true ->
    hiddenFilesHandling (settings f1) <> gitignore_only ->
    keptLocally (hiddenFilesHandling (settings f1)) stats = [] ->
    performCommit triggeredBy w
    = (Returned tt,
       {| this :=
            guarded false
              (if isManual triggeredBy
               then noticed "No changes to commit" f1 else f1);
          engine := e1;
          calls := calls w ++ [GetDiffStats] |}).
Proof.
  intros E api C triggeredBy w stats f1 e1 Hguard Hengine Hdiff Hengine1
         Hmode Hkept.
  unfold performCommit. rewrite bind_gets. cbv beta.
  rewrite Hguard, Hengine. change (negb true) with false. cbv iota.
  unfold bind at 1. unfold setCommitInProgress at 1, onThis, modify.
  set (w1 := {| this := _; engine := engine w; calls := calls w |}).
  assert (Hbody :
    commitChanges triggeredBy w1
    = (Returned tt,
       {| this := if isManual triggeredBy
                  then noticed "No changes to commit" f1 else f1;
          engine := e1; calls := calls w ++ [GetDiffStats] |})).
  { unfold commitChanges. unfold bind at 1.
    rewrite (await_run "getDiffStats" GetDiffStats _ w1 _ _ _ Hengine Hdiff).
    unfold bind at 1.
    rewrite (filterFilesBySettings_locally E api stats
               {| this := f1; engine := e1; calls := calls w1 ++ [GetDiffStats] |}
               Hengine1 Hmode).
    cbn [this]. rewrite Hkept. simpl.
    destruct (isManual triggeredBy); reflexivity. }
  unfold tryFinally, tryCatch. rewrite Hbody.
  destruct (isManual triggeredBy); reflexivity.
Qed.

Section Tails.
Context {E : Type} `{EngineApi E} `{Collator}.

Lemma silent_bind :
  forall (m k : M (World E) unit), silent m -> silent k -> silent (m ;; k).
Proof.
  intros m k Hm Hk w. unfold bind.
  destruct (Hm w) as [w1 [-> [Hc1 [He1 [Hs1 [Hg1 Hp1]]]]]].
  destruct (Hk w1) as [w2 [-> [Hc2 [He2 [Hs2 [Hg2 Hp2]]]]]].
  exists w2. repeat split; congruence.
Qed.

(** Steps that return without an engine call add nothing to the calls of
    what came before, and return when it returned. *)
Lemma bind_silent :
  forall {A : Type} (m : M (World E) A) (k : A -> M (World E) unit)
         (w : World E),
    (forall a, silent (k a)) ->
    calls (snd (bind m k w)) = calls (snd (m w)) /\
    (fst (bind m k w) = Returned tt <-> exists a, fst (m w) = Returned a).
Proof.
  intros A m k w Hk. unfold bind. destruct (m w) as [[a | err] w1]; simpl.
  - destruct (Hk a w1) as [w2 [-> [Hc _]]]. simpl. split; [exact Hc |].
    split; [intros _; exists a; reflexivity | reflexivity].
  - split; [reflexivity |]. split; [discriminate | intros [a Ha]; discriminate].
Qed.

Lemma silent_batch_trace :
  forall triggeredBy : string,
    @silent E
      (s <- gets (fun w => settings (this w)) ;;
       when (debugLogging s)
         (log ("[Local Git] Batch commit (" +++ triggeredBy +++ ") completed"))).
Proof.
  intros triggeredBy. apply silent_gets. intros s.
  apply silent_when, silent_log.
Qed.

(** The regular files one by one, then one more call when [more] is set. *)
Lemma commitEach_then_calls :
  forall (reg : list FileDiffStat) (more : bool) (c : Call)
         (op : Pending E unit) (w : World E),
    let m :=
      n <- commitEach reg 0 ;;
      if more then (await "stageAndCommitFiles" c op ;; ret (n + 1))
      else ret n in
    exists issued rest,
      calls (snd (m w)) = calls w ++ issued /\
      map singleFileCall reg ++ (if more then [c] else []) = issued ++ rest /\
      (forall n, fst (m w) = Returned n -> rest = []).
Proof.
  intros reg more c op w m. subst m. unfold bind.
  destruct (commitEach_calls reg 0 w) as [issued [rest [Hc [Hs Hall]]]].
  fold singleFileCall in Hs.
  destruct (commitEach reg 0 w) as [[n | err] w1]; simpl in Hc, Hall.
  - destruct (Hall n eq_refl) as [-> _]. rewrite app_nil_r in Hs.
    destruct more.
    + destruct (await "stageAndCommitFiles" c op w1) as [r w2] eqn:Hawait.
      destruct (await_outcome _ _ _ _ _ _ Hawait)
        as [[_ Hcalls] | [_ [-> ->]]].
      * exists (issued ++ [c]), []. rewrite app_nil_r, Hs.
        split; [| split; [reflexivity | reflexivity]].
        destruct r as [[] | e]; simpl; rewrite Hcalls, Hc; symmetry; apply app_assoc.
      * exists issued, [c]. simpl. rewrite Hs.
        split; [exact Hc |]. split; [reflexivity |].
        intros n0 Hn0. discriminate.
    + exists issued, []. simpl. rewrite !app_nil_r.
      split; [exact Hc |]. split; [exact Hs | reflexivity].
  - exists issued. eexists. simpl. split; [exact Hc |].
    split; [rewrite Hs, <- app_assoc; reflexivity |].
    intros n0 Hn0. discriminate.
Qed.

End Tails.

(** X6. Every failure of a commit with an [Error] is logged, reported
    with one notice and releases the guard. When the [try] block of
    [performCommit] throws a value with a message, the call returns; the
    console gets ["[Local Git] Commit failed: "] with the message, and the
    notice is the repository hint when the message includes
    ["not a git repository"], else the permission hint when it includes
    ["permission denied"], else ["Commit failed: "] with the message. *)
Theorem performCommit_reports_failure :
  forall (E : Type) (api : EngineApi E) (C : Collator)
         (triggeredBy : string) (w w2 : World E) (err : Error)
         (errorMsg : string),
    commitInProgress (this w) = false ->
    gitEngine (this w) = true ->
    commitChanges triggeredBy
      {| this := guarded true (this w); engine := engine w; calls := calls w |}
    = (Thrown err, w2) ->
    message err = Some errorMsg ->
    let text :=
      if includes errorMsg "not a git repository"
      then "Git repository not initialized. Check plugin settings."
      else if includes errorMsg "permission denied"
      then "Permission denied. Check file permissions."
      else "Commit failed: " +++ errorMsg in
    performCommit triggeredBy w
    = (Returned tt,
       {| this :=
            guarded false
              (noticed text
                 (logged ("[Local Git] Commit failed: " +++ errorMsg)
                    (this w2)));
          engine := engine w2;
          calls := calls w2 |}).
Proof.
  intros E api C triggeredBy w w2 err errorMsg Hguard Hengine Hbody Hmsg text.
  subst text.
  unfold performCommit. rewrite bind_gets. cbv beta.
  rewrite Hguard, Hengine. change (negb true) with false. cbv iota.
  unfold bind at 1. unfold setCommitInProgress at 1, onThis, modify.
  unfold tryFinally, tryCatch. unfold guarded in Hbody. rewrite Hbody.
  unfold reportFailure, shown, bind, log, notice, onThis, modify.
  rewrite Hmsg.
  destruct (includes errorMsg "not a git repository");
    [| destruct (includes errorMsg "permission denied")];
    reflexivity.
Qed.

(** A failing diff-stats query is such a failure: no staging call is
    made. *)
Lemma commitChanges_failed_query :
  forall (E : Type) (api : EngineApi E) (C : Collator)
         (triggeredBy : string) (w : World E) (err : Error)
         (f1 : Fields) (e1 : E),
    gitEngine (this w) = true ->
    getDiffStats (this w, engine w) = (Thrown err, (f1, e1)) ->
    commitChanges triggeredBy w
    = (Thrown err,
       {| this := f1; engine := e1; calls := calls w ++ [GetDiffStats] |}).
Proof.
  intros E api C triggeredBy w err f1 e1 Hengine Hdiff.
  unfold commitChanges. unfold bind at 1.
  rewrite (await_run "getDiffStats" GetDiffStats _ w _ _ _ Hengine Hdiff).
  reflexivity.
Qed.

Lemma performCommit_reports_failure_witness :
  @performCommit _
    (Samples.fakeEngine Samples.sampleStats
       (Some {| message := Some "fatal: permission denied" |}))
    CollatorFacts.codeUnitCollator "interval"
    (Samples.samplePlugin batch group false tt)
  = (Returned tt,
     {| this :=
          {| settings := Samples.sampleSettings batch group;
             gitEngine := true; commitInProgress := false;
             notices := ["Permission denied. Check file permissions."];
             console := ["[Local Git] Commit failed: fatal: permission denied"] |};
        engine := tt;
        calls :=
          [GetDiffStats;
           StageAndCommit
             "chore: update .obsidian/app.json, a.md [DELETES], notes/b.md"] |}).
Proof.
  exact (performCommit_reports_failure unit
           (Samples.fakeEngine Samples.sampleStats
              (Some {| message := Some "fatal: permission denied" |}))
           CollatorFacts.codeUnitCollator "interval"
           (Samples.samplePlugin batch group false tt) _
           {| message := Some "fatal: permission denied" |}
           "fatal: permission denied" eq_refl eq_refl eq_refl eq_refl).
Defined.

(** X7. Individual mode commits the files one by one in the order of the
    list, which is the order of the diff-stats query and not sorted: one
    [stageAndCommitFiles([path], message)] per file with the single-file
    message. With [hiddenFilesHandling = "separate"] the regular files come
    first, in that order, and the hidden files follow in one commit with
    the hidden-files message. The first call that throws ends the
    invocation: the calls issued are a prefix of these, and all of them
    when the invocation returns. *)
Theorem performIndividualCommits_calls :
  forall (E : Type) (api : EngineApi E) (C : Collator)
         (stats : list FileDiffStat) (triggeredBy : string) (w : World E),
    gitEngine (this w) = true ->
    let g := categorizeFiles stats in
    let expected :=
      match hiddenFilesHandling (settings (this w)) with
      | separate =>
          map singleFileCall (regular g)
          ++ match hidden g with
             | [] => []
             | _ :: _ =>
                 [StageAndCommitFiles (map path (hidden g))
                    (buildHiddenFilesCommitMessage (hidden g))]
             end
      | _ => map singleFileCall stats
      end in
    let run := performIndividualCommits stats triggeredBy w in
    exists issued rest,
      calls (snd run) = calls w ++ issued /\
      expected = issued ++ rest /\
      (fst run = Returned tt -> rest = []).
Proof.
  intros E api C stats triggeredBy w Hengine g expected run.
  subst run expected. unfold performIndividualCommits.
  rewrite bind_gets. cbv beta. rewrite Hengine.
  change (negb true) with false. cbv iota. fold g. clearbody g.
  match goal with
  | |- context [bind ?m ?k w] =>
      assert (Hk : forall n, silent (k n));
      [ intros n; apply silent_bind; [apply silent_when, silent_notice |];
        apply silent_gets; intros s; apply silent_when, silent_log
      | destruct (bind_silent m k w Hk) as [-> Hret]; clear Hk ]
  end.
  assert (Hmore :
    match hidden g with
    | [] => []
    | _ :: _ =>
        [StageAndCommitFiles (map path (hidden g))
           (buildHiddenFilesCommitMessage (hidden g))]
    end
    = if negb (Nat.eqb (length (hidden g)) 0)
      then [StageAndCommitFiles (map path (hidden g))
              (buildHiddenFilesCommitMessage (hidden g))]
      else []).
  { destruct (hidden g); reflexivity. }
  rewrite Hmore. clear Hmore.
  match goal with
  | Hret : _ <-> (exists a, fst (?m w) = Returned a) |- _ =>
      assert (Hm :
        exists issued rest,
          calls (snd (m w)) = calls w ++ issued /\
          match hiddenFilesHandling (settings (this w)) with
          | separate =>
              map singleFileCall (regular g)
              ++ (if negb (Nat.eqb (length (hidden g)) 0)
                  then [StageAndCommitFiles (map path (hidden g))
                          (buildHiddenFilesCommitMessage (hidden g))]
                  else [])
          | _ => map singleFileCall stats
          end = issued ++ rest /\
          (forall n, fst (m w) = Returned n -> rest = []))
  end.
  { assert (Hplain :
      exists issued rest,
        calls (snd (commitEach stats 0 w)) = calls w ++ issued /\
        map singleFileCall stats = issued ++ rest /\
        (forall n, fst (commitEach stats 0 w) = Returned n -> rest = [])).
    { destruct (commitEach_calls stats 0 w) as [issued [rest [Hc [Hs Hall]]]].
      exists issued, rest. split; [exact Hc |]. split; [exact Hs |].
      intros n Hn. apply (Hall n Hn). }
    destruct (hiddenFilesHandling (settings (this w))); try exact Hplain.
    apply (commitEach_then_calls (regular g)
             (negb (Nat.eqb (length (hidden g)) 0))). }
  destruct Hm as [issued [rest [Hc [Hsplit Hall]]]].
  exists issued, rest. split; [exact Hc |]. split; [exact Hsplit |].
  intros Hrun. apply Hret in Hrun. destruct Hrun as [n Hn].
  exact (Hall n Hn).
Qed.

Lemma performIndividualCommits_calls_witness :
  calls (snd (@performIndividualCommits _ (Samples.fakeEngine [] None)
                CollatorFacts.codeUnitCollator Samples.sampleStats "idle"
                (Samples.samplePlugin individual group false tt)))
  = [ StageAndCommitFiles ["notes/b.md"] "chore: update notes/b.md";
      StageAndCommitFiles [".obsidian/app.json"]
        "chore: update .obsidian/app.json";
      StageAndCommitFiles ["a.md"] "chore: update a.md [DELETES]" ].
Proof.
  destruct (performIndividualCommits_calls unit (Samples.fakeEngine [] None)
              CollatorFacts.codeUnitCollator Samples.sampleStats "idle"
              (Samples.samplePlugin individual group false tt) eq_refl)
    as [issued [rest [Hcalls [Hsplit Hall]]]].
  rewrite Hcalls. rewrite (Hall eq_refl) in Hsplit.
  rewrite app_nil_r in Hsplit. rewrite <- Hsplit. reflexivity.
Defined.

Lemma performCommit_nothing_to_commit_witness :
  @performCommit _
    (Samples.fakeEngine [stat ".obsidian/app.json" 1; stat ".trash/x.md" 2] None)
    CollatorFacts.codeUnitCollator "manual"
    (Samples.samplePlugin batch never false tt)
  = (Returned tt,
     {| this :=
          {| settings := Samples.sampleSettings batch never;
             gitEngine := true; commitInProgress := false;
             notices := ["No changes to commit"]; console := [] |};
        engine := tt; calls := [GetDiffStats] |}).
Proof.
  exact (performCommit_nothing_to_commit unit
           (Samples.fakeEngine
              [stat ".obsidian/app.json" 1; stat ".trash/x.md" 2] None)
           CollatorFacts.codeUnitCollator "manual"
           (Samples.samplePlugin batch never false tt)
           [stat ".obsidian/app.json" 1; stat ".trash/x.md" 2] _ tt
           eq_refl eq_refl eq_refl eq_refl ltac:(discriminate) eq_refl).
Defined.

(** X8. Batch mode without the separate commit of hidden files (modes
    ["group"], ["never"] and ["gitignore-only"]) makes one engine call,
    [stageAndCommit(message)], with the message built over every file it
    was given; it returns exactly when that call returns. *)
Theorem performBatchCommit_single_call :
  forall (E : Type) (api : EngineApi E) (C : Collator)
         (stats : list FileDiffStat) (triggeredBy : string) (w : World E),
    gitEngine (this w) = true ->
    hiddenFilesHandling (settings (this w)) <> separate ->
    let message :=
      buildCommitMessage
        {| files := stats;
           maxFiles := Some (maxFilesInCommitMessage (settings (this w))) |} in
    let run := performBatchCommit stats triggeredBy w in
    calls (snd run) = calls w ++ [StageAndCommit message] /\
    (fst run = Returned tt <->
     fst (stageAndCommit message (this w, engine w)) = Returned tt).
Proof.
  intros E api C stats triggeredBy w Hengine Hmode message run. subst run.
  unfold performBatchCommit. rewrite bind_gets. cbv beta.
  rewrite Hengine. change (negb true) with false. cbv iota.
  assert (Hrun :
    forall report : M (World E) unit,
      silent report ->
      let run :=
        ((await "stageAndCommit" (StageAndCommit message)
            (stageAndCommit message) ;; report) ;;
         (s <- gets (fun w => settings (this w)) ;;
          when (debugLogging s)
            (log ("[Local Git] Batch commit (" +++ triggeredBy
                  +++ ") completed")))) w in
      calls (snd run) = calls w ++ [StageAndCommit message] /\
      (fst run = Returned tt <->
       fst (stageAndCommit message (this w, engine w)) = Returned tt)).
  { intros report Hreport run. subst run.
    destruct (bind_silent
                (await "stageAndCommit" (StageAndCommit message)
                   (stageAndCommit message) ;; report)
                (fun _ =>
                   s <- gets (fun w => settings (this w)) ;;
                   when (debugLogging s)
                     (log ("[Local Git] Batch commit (" +++ triggeredBy
                           +++ ") completed")))
                w (fun _ => silent_batch_trace triggeredBy))
      as [-> Hret1].
    destruct (bind_silent
                (await "stageAndCommit" (StageAndCommit message)
                   (stageAndCommit message))
                (fun _ => report) w (fun _ => Hreport))
      as [Hcalls Hret2].
    rewrite Hcalls. unfold await at 1. rewrite Hengine.
    unfold await in Hret2. rewrite Hengine in Hret2.
    destruct (stageAndCommit message (this w, engine w)) as [r [f e]].
    simpl in *. split; [reflexivity |].
    rewrite Hret1. split.
    - intros [[] Ha]. apply Hret2 in Ha. destruct Ha as [[] Ha]. exact Ha.
    - intros Hr. exists tt. apply Hret2. exists tt. exact Hr. }
  destruct (hiddenFilesHandling (settings (this w))); try contradiction;
    apply Hrun; apply silent_when, silent_notice.
Qed.

Lemma performBatchCommit_single_call_witness :
  calls (snd (@performBatchCommit _ (Samples.fakeEngine [] None)
                CollatorFacts.codeUnitCollator Samples.sampleStats "idle"
                (Samples.samplePlugin batch group false tt)))
  = [ StageAndCommit
        "chore: update .obsidian/app.json, a.md [DELETES], notes/b.md" ].
Proof.
  exact (proj1 (performBatchCommit_single_call unit
                  (Samples.fakeEngine [] None)
                  CollatorFacts.codeUnitCollator Samples.sampleStats "idle"
                  (Samples.samplePlugin batch group false tt)
                  eq_refl ltac:(discriminate))).
Defined.

Lemma fakeEngine_keepsGuard :
  forall stats failure, keepsGuard (Samples.fakeEngine stats failure).
Proof.
  intros stats failure. unfold keepsGuard, guardStable. simpl.
  repeat split; intros; destruct failure; reflexivity.
Qed.

(** In-flight exclusion on the fake engine: no engine call of a
    [performCommit] starts while the guard is clear. *)
Lemma guard_held_during_calls_witness :
  snd (engine
         (snd (@performCommit _
                 (watched (Samples.fakeEngine Samples.sampleStats None))
                 CollatorFacts.codeUnitCollator "manual"
                 (Samples.samplePlugin individual separate false (tt, false)))))
  = false.
Proof.
  exact (guard_held_during_calls
           (Samples.fakeEngine Samples.sampleStats None)
           (fakeEngine_keepsGuard Samples.sampleStats None) "manual"
           (Samples.samplePlugin individual separate false (tt, false))
           eq_refl).
Defined.

End CommitPathFacts.

(* ================================================================== *)
(** ** git-engine.ts: status, failures and the other methods *)
(* ================================================================== *)

Module EngineMoreFacts.
Import Js CommitBuilder Effect GitEngine GitEngineRest EngineFacts.
Import Repository Samples MoreSamples.

(** X10. The status protocol of [stageAndCommit]. It notifies the
    observer twice: first of ["committing"], then of how it ended. When it
    returns, [git add -A] and [git commit] have returned, and the status
    is ["idle"] with the message of this commit and the time that
    [Date.now()] gave after the commit; no error is reported. When it
    throws, the status is ["error"] with the time and message of the last
    commit left as they were, the error is reported once and thrown on as
    it is. *)
Theorem stageAndCommit_status :
  forall (G : Type) (host : Host G) (eng : Engine G) (message : string),
    let before := currentStatus eng in
    let started :=
      {| state := committing; lastCommitTime := lastCommitTime before;
         lastCommitMessage := lastCommitMessage before |} in
    match stageAndCommit message eng with
    | (Returned _, eng') =>
        (exists g1 g2 time,
           git_add "-A" (git eng) = (Returned tt, g1) /\
           git_commit message g1 = (Returned tt, g2) /\
           date_now g2 = (Returned time, git eng') /\
           currentStatus eng'
           = {| state := idle; lastCommitTime := Some time;
                lastCommitMessage := Some message |}) /\
        onStatusChange eng'
        = onStatusChange eng ++ [started; currentStatus eng'] /\
        onError eng' = onError eng
    | (Thrown err, eng') =>
        currentStatus eng'
        = {| state := error; lastCommitTime := lastCommitTime before;
             lastCommitMessage := lastCommitMessage before |} /\
        onStatusChange eng'
        = onStatusChange eng ++ [started; currentStatus eng'] /\
        onError eng' = onError eng ++ [err]
    end.
Proof.
  intros G host eng message before started. subst started before.
  unfold stageAndCommit, tryCatch, bind, updateStatus, handleError, modify,
    throw, onGit. simpl.
  destruct (git_add "-A" (git eng)) as [[[] | err] g1] eqn:Hadd; simpl.
  - destruct (git_commit message g1) as [[[] | err] g2] eqn:Hcommit; simpl.
    + destruct (date_now g2) as [[time | err] g3] eqn:Hnow; simpl.
      * split; [| split; [rewrite <- app_assoc |]; reflexivity].
        exists g1, g2, time. repeat split; assumption.
      * repeat split; try reflexivity. rewrite <- app_assoc. reflexivity.
    + repeat split; try reflexivity. rewrite <- app_assoc. reflexivity.
  - repeat split; try reflexivity. rewrite <- app_assoc. reflexivity.
Qed.

(** X11. [stageAndCommit] does not commit what it could not stage: when
    [git add -A] throws, the error is thrown on and the repository is left
    as [git add] left it. *)
Theorem stageAndCommit_stops_after_failed_add :
  forall (G : Type) (host : Host G) (eng : Engine G) (message : string)
         (err : Error) (g1 : G),
    git_add "-A" (git eng) = (Thrown err, g1) ->
    fst (stageAndCommit message eng) = Thrown err /\
    git (snd (stageAndCommit message eng)) = g1.
Proof.
  intros G host eng message err g1 Hadd.
  unfold stageAndCommit, tryCatch, bind, updateStatus, handleError, modify,
    throw, onGit. simpl. rewrite Hadd. simpl. split; reflexivity.
Qed.

Lemma stageAndCommit_stops_after_failed_add_witness :
  fst (@stageAndCommit _ lockedHost "chore: update note.md" sampleEngine)
  = Thrown {| message := Some "index.lock exists" |} /\
  Repository.history
    (git (snd (@stageAndCommit _ lockedHost "chore: update note.md"
                 sampleEngine))) = [].
Proof.
  destruct (stageAndCommit_stops_after_failed_add Repo lockedHost sampleEngine
              "chore: update note.md" {| message := Some "index.lock exists" |}
              sampleRepo eq_refl) as [Hthrown Hgit].
  split; [exact Hthrown | rewrite Hgit; reflexivity].
Defined.

(** X12. Without an upstream branch the diff is not read. When
    [status.tracking] is null or empty, [getDiffStats] returns one entry
    with zero counts per untracked file and nothing else: changes to
    tracked files are not reported, and [git diff] is not run. *)
Theorem getDiffStats_without_upstream :
  forall (G : Type) (host : Host G) (eng : Engine G)
         (status : StatusResult) (g1 : G),
    git_status (git eng) = (Returned status, g1) ->
    noTracking status = true ->
    getDiffStats eng
    = (Returned (map untracked (not_added status)),
       {| git := g1; currentStatus := currentStatus eng;
          onStatusChange := onStatusChange eng; onError := onError eng |}).
Proof.
  intros G host eng status g1 Hstatus Hno.
  unfold getDiffStats, tryCatch, bind, onGit, ret.
  rewrite Hstatus. simpl. rewrite Hno. rewrite pushUntrackedFiles. reflexivity.
Qed.

Lemma getDiffStats_without_upstream_witness :
  fst (getDiffStats localEngine) = Returned [untracked ".obsidian/app.json"].
Proof.
  rewrite (getDiffStats_without_upstream Repo repoHost localEngine
             {| tracking := None; not_added := [".obsidian/app.json"] |}
             localRepo eq_refl eq_refl).
  reflexivity.
Defined.

(** X13. A failing query. When [git status] or [git diff] throws,
    [getDiffStats] reports the error to the observer once and throws it on;
    the status stays as it was (it does not become ["error"]) and no status
    notification is sent. *)
Theorem getDiffStats_failure :
  forall (G : Type) (host : Host G) (eng : Engine G) (err : Error),
    (forall g1,
       git_status (git eng) = (Thrown err, g1) ->
       getDiffStats eng
       = (Thrown err,
          {| git := g1; currentStatus := currentStatus eng;
             onStatusChange := onStatusChange eng;
             onError := onError eng ++ [err] |})) /\
    (forall status g1 g2,
       git_status (git eng) = (Returned status, g1) ->
       noTracking status = false ->
       git_raw ["diff"; "--numstat"; "HEAD"] g1 = (Thrown err, g2) ->
       getDiffStats eng
       = (Thrown err,
          {| git := g2; currentStatus := currentStatus eng;
             onStatusChange := onStatusChange eng;
             onError := onError eng ++ [err] |})).
Proof.
  intros G host eng err. split.
  - intros g1 Hstatus.
    unfold getDiffStats, tryCatch, bind, onGit, handleError, modify, throw.
    rewrite Hstatus. reflexivity.
  - intros status g1 g2 Hstatus Hno Hraw.
    unfold getDiffStats, tryCatch, bind, onGit, handleError, modify, throw.
    rewrite Hstatus. simpl. rewrite Hno. simpl. rewrite Hraw. reflexivity.
Qed.

Lemma setAdd_in :
  forall (set : list string) (x y : string),
    In y (setAdd set x) <-> In y set \/ y = x.
Proof.
  intros set x y. unfold setAdd.
  destruct (existsb (String.eqb x) set) eqn:Hx.
  - split; [auto |]. intros [Hy | ->]; [exact Hy |].
    apply existsb_exists in Hx. destruct Hx as [z [Hz Heq]].
    apply String.eqb_eq in Heq. subst. exact Hz.
  - rewrite in_app_iff. simpl. intuition congruence.
Qed.

Lemma setAdd_nodup :
  forall (set : list string) (x : string), NoDup set -> NoDup (setAdd set x).
Proof.
  intros set x Hset. unfold setAdd.
  destruct (existsb (String.eqb x) set) eqn:Hx; [exact Hset |].
  apply NoDup_app; [exact Hset | repeat constructor; auto |].
  intros y Hy [Heq | []]. subst y.
  assert (existsb (String.eqb x) set = true) as Habs.
  { apply existsb_exists. exists x. split; [exact Hy | apply String.eqb_refl]. }
  congruence.
Qed.

Lemma unique_from :
  forall (arr set : list string),
    NoDup set ->
    NoDup (fold_left setAdd arr set) /\
    (forall y, In y (fold_left setAdd arr set) <-> In y set \/ In y arr).
Proof.
  induction arr as [| x arr IH]; intros set Hset; simpl.
  - split; [exact Hset |]. intros y. tauto.
  - destruct (IH (setAdd set x) (setAdd_nodup set x Hset)) as [Hnd Hin].
    split; [exact Hnd |]. intros y. rewrite Hin, setAdd_in.
    intuition congruence.
Qed.

(** X15. [getChangedFiles] lists every path that the status names as not
    added, created, deleted or modified, and the new name of every renamed
    file, each of them once. *)
Theorem getChangedFiles_each_path_once :
  forall (G : Type) (rest : HostRest G) (eng : Engine G)
         (status : FileStatus) (g1 : G),
    git_fileStatus (git eng) = (Returned status, g1) ->
    exists paths,
      fst (getChangedFiles eng) = Returned paths /\
      NoDup paths /\
      (forall p,
         In p paths <->
         In p (notAdded status) \/ In p (created status) \/
         In p (deleted status) \/ In p (modified status) \/
         In p (map to (renamed status))).
Proof.
  intros G rest eng status g1 Hstatus.
  unfold getChangedFiles, tryCatch, bind, onGit, ret. rewrite Hstatus. simpl.
  eexists. split; [reflexivity |].
  destruct (unique_from
              (notAdded status ++ created status ++ deleted status
               ++ modified status ++ map to (renamed status))
              [] (NoDup_nil _)) as [Hnd Hin].
  split; [exact Hnd |]. intros p. unfold unique. rewrite Hin.
  rewrite !in_app_iff. simpl. tauto.
Qed.

Lemma getChangedFiles_each_path_once_witness :
  fst (@getChangedFiles _ (fakeRest sampleFileStatus None) sampleEngine)
  = Returned [".obsidian/app.json"; "b.md"; "note.md"; "new.md"].
Proof.
  destruct (getChangedFiles_each_path_once Repo
              (fakeRest sampleFileStatus None) sampleEngine sampleFileStatus
              sampleRepo eq_refl) as [paths [Hpaths _]].
  rewrite Hpaths. injection Hpaths as <-. reflexivity.
Defined.

(** X16. The methods that keep a failure to themselves. [isGitRepo] and
    [checkGitInstalled] never throw and tell the observers nothing: they
    answer whether the git call returned. [getLastCommitInfo] never throws
    either: on a failure it reports the error once and answers null. None
    of the three changes the status. *)
Theorem engine_probes_never_throw :
  forall (G : Type) (host : Host G) (rest : HostRest G) (eng : Engine G),
    (exists answer eng',
       isGitRepo eng = (Returned answer, eng') /\
       (answer = true <-> exists s, fst (git_status (git eng)) = Returned s) /\
       currentStatus eng' = currentStatus eng /\
       onStatusChange eng' = onStatusChange eng /\
       onError eng' = onError eng) /\
    (exists answer eng',
       checkGitInstalled eng = (Returned answer, eng') /\
       (answer = true <->
        exists s, fst (git_raw ["--version"] (git eng)) = Returned s) /\
       currentStatus eng' = currentStatus eng /\
       onStatusChange eng' = onStatusChange eng /\
       onError eng' = onError eng) /\
    (exists answer eng',
       getLastCommitInfo eng = (Returned answer, eng') /\
       currentStatus eng' = currentStatus eng /\
       onStatusChange eng' = onStatusChange eng /\
       match fst (git_log (git eng)) with
       | Returned _ => onError eng' = onError eng
       | Thrown err => answer = None /\ onError eng' = onError eng ++ [err]
       end).
Proof.
  intros G host rest eng. split; [| split].
  - unfold isGitRepo, tryCatch, bind, onGit, ret.
    destruct (git_status (git eng)) as [[s | err] g1]; simpl;
      eexists; eexists; (split; [reflexivity |]); repeat split;
      try (intros _; eexists; reflexivity);
      try (intros [s' Hs']; discriminate); try discriminate.
  - unfold checkGitInstalled, tryCatch, bind, onGit, ret.
    destruct (git_raw ["--version"] (git eng)) as [[s | err] g1]; simpl;
      eexists; eexists; (split; [reflexivity |]); repeat split;
      try (intros _; eexists; reflexivity);
      try (intros [s' Hs']; discriminate); try discriminate.
  - unfold getLastCommitInfo, tryCatch, bind, onGit, ret, handleError, modify.
    destruct (git_log (git eng)) as [[[line |] | err] g1]; simpl;
      eexists; eexists; (split; [reflexivity |]); repeat split.
Qed.

(** X17. [initializeRepo]. When [git init] returns, the observer is told
    of the status ["idle"], with the last commit as it was. When it throws,
    the error is reported once and thrown on, and nothing is said about the
    status. *)
Theorem initializeRepo_outcomes :
  forall (G : Type) (rest : HostRest G) (eng : Engine G),
    match initializeRepo eng with
    | (Returned _, eng') =>
        (exists g1, git_init (git eng) = (Returned tt, g1) /\ git eng' = g1) /\
        currentStatus eng'
        = {| state := idle;
             lastCommitTime := lastCommitTime (currentStatus eng);
             lastCommitMessage := lastCommitMessage (currentStatus eng) |} /\
        onStatusChange eng' = onStatusChange eng ++ [currentStatus eng'] /\
        onError eng' = onError eng
    | (Thrown err, eng') =>
        (exists g1, git_init (git eng) = (Thrown err, g1) /\ git eng' = g1) /\
        currentStatus eng' = currentStatus eng /\
        onStatusChange eng' = onStatusChange eng /\
        onError eng' = onError eng ++ [err]
    end.
Proof.
  intros G rest eng.
  unfold initializeRepo, tryCatch, bind, onGit, updateStatus, handleError,
    modify, throw.
  destruct (git_init (git eng)) as [[[] | err] g1]; simpl;
    repeat split; eexists; split; reflexivity.
Qed.

End EngineMoreFacts.

(* ================================================================== *)
(** ** main.ts: the debouncer, the timers and the settings tab *)
(* ================================================================== *)

Module SchedulingFacts.
Import Js Plugin Numstat Scheduling GitEngineRest EngineMoreFacts NumberFacts.

Lemma tidy_cleared :
  forall s : Schedule,
    tidy s ->
    timeouts (match changeTimeout s with
              | Some h => clearTimeout h (timers s)
              | None => timers s
              end) = [].
Proof.
  intros s Htidy. unfold tidy in Htidy.
  destruct (changeTimeout s) as [h |] eqn:Hh.
  - simpl. induction (timeouts (timers s)) as [| p ps IH]; [reflexivity |].
    simpl. specialize (Htidy p (or_introl eq_refl)) as Hp.
    injection Hp as ->. rewrite Nat.eqb_refl. simpl.
    apply IH. intros q Hq. apply Htidy. right. exact Hq.
  - destruct (timeouts (timers s)) as [| p ps]; [reflexivity |].
    specialize (Htidy p (or_introl eq_refl)). discriminate.
Qed.

(** [queueFileChange] on a plugin whose pending timeouts are the one it
    remembers: the state after it. *)
Lemma queueFileChange_tidy :
  forall (path : string) (s : Schedule),
    tidy s ->
    queueFileChange path s
    = {| timers :=
           {| now := now (timers s);
              nextHandle := S (nextHandle (timers s));
              timeouts := [(nextHandle (timers s), now (timers s) + 2000)];
              intervals := intervals (timers s) |};
         intervalTimer := intervalTimer s;
         idleCheckTimer := idleCheckTimer s;
         lastEditTime := lastEditTime s;
         changeQueue := setAdd (changeQueue s) path;
         changeTimeout := Some (nextHandle (timers s)) |}.
Proof.
  intros path s Htidy. unfold queueFileChange.
  pose proof (tidy_cleared s Htidy) as Hclear.
  destruct (changeTimeout s) as [h |]; unfold setTimeout; simpl in *;
    rewrite Hclear; reflexivity.
Qed.

(** X18. The debouncer restarts its delay. After [queueFileChange], on a
    plugin whose pending timeouts are the one it remembers, whatever was
    pending is cancelled and exactly one timeout is pending, due 2000 ms
    after this change; [lastEditTime] is as it was, and the path is in the
    queue. *)
Theorem queueFileChange_reschedules :
  forall (path : string) (s : Schedule),
    tidy s ->
    let s' := queueFileChange path s in
    timeouts (timers s')
    = [(nextHandle (timers s), now (timers s) + 2000)] /\
    changeTimeout s' = Some (nextHandle (timers s)) /\
    lastEditTime s' = lastEditTime s /\
    In path (changeQueue s') /\
    tidy s'.
Proof.
  intros path s Htidy s'. subst s'. rewrite (queueFileChange_tidy path s Htidy).
  cbn [timers timeouts changeTimeout lastEditTime changeQueue].
  split; [reflexivity |]. split; [reflexivity |]. split; [reflexivity |].
  split; [apply setAdd_in; right; reflexivity |].
  intros p [<- | []]. reflexivity.
Qed.

Lemma queueFileChange_reschedules_witness :
  timeouts (timers (queueFileChange "b.md"
                      (tick 1500 (queueFileChange "a.md" (initial 1000)))))
  = [(2%nat, 3500)].
Proof.
  apply (proj1 (queueFileChange_reschedules "b.md"
                  (tick 1500 (queueFileChange "a.md" (initial 1000)))
                  ltac:(intros p [<- | []]; reflexivity))).
Defined.

Lemma tidy_tick : forall time s, tidy s -> tidy (tick time s).
Proof. intros time s Hs p Hp. apply Hs. exact Hp. Qed.

Lemma tidy_initial : forall time, tidy (initial time).
Proof. intros time p []. Qed.

Lemma fire_not_pending :
  forall (h : nat) (time : Z) (s : Schedule),
    (forall p, In p (timeouts (timers s)) -> fst p = h -> time < snd p) ->
    fire h time s = s.
Proof.
  intros h time s Hnone. unfold fire.
  replace (existsb _ (timeouts (timers s))) with false; [reflexivity |].
  symmetry. apply not_true_is_false. intros Hex.
  apply existsb_exists in Hex. destruct Hex as [p [Hp Hboth]].
  apply andb_prop in Hboth. destruct Hboth as [Hh Hdue].
  apply Nat.eqb_eq in Hh. apply Z.leb_le in Hdue.
  specialize (Hnone p Hp Hh). lia.
Qed.

(** X20. What the host can run after a change. After [queueFileChange]
    at the time [now], a timeout callback with another handle (a
    superseded one), or any before [now + 2000], changes nothing; the
    remembered one, run at a time from [now + 2000] on, empties the queue,
    sets [lastEditTime] to that time and leaves no timeout pending, so
    that [checkIdleStatus] asks for a commit from [idleMinutes] after that
    time on, when no commit is in progress. *)
Theorem timeout_after_change :
  forall (path : string) (s : Schedule),
    tidy s ->
    let s' := queueFileChange path s in
    let h := nextHandle (timers s) in
    let due := now (timers s) + 2000 in
    (forall h' time, h' <> h \/ time < due -> fire h' time s' = s') /\
    (forall time, due <= time ->
       let settled := fire h time s' in
       lastEditTime settled = time /\
       changeQueue settled = [] /\
       timeouts (timers settled) = [] /\
       forall settings later,
         idleCommitDue settings false (tick later settled) = true
         <-> time + idleMinutes settings * 60 * 1000 <= later).
Proof.
  intros path s Htidy s' h due.
  assert (Htimeouts : timeouts (timers s') = [(h, due)])
    by (subst s'; rewrite (queueFileChange_tidy path s Htidy); reflexivity).
  split.
  - intros h' time Hcase. apply fire_not_pending.
    intros p Hp Hfst. rewrite Htimeouts in Hp.
    destruct Hp as [<- | []]. simpl in *. destruct Hcase as [Hother | Hearly].
    + congruence.
    + exact Hearly.
  - intros time Hdue settled. subst settled. unfold fire.
    rewrite Htimeouts. cbn [existsb fst snd].
    rewrite Nat.eqb_refl. apply Z.leb_le in Hdue as Hleb. rewrite Hleb.
    cbn [andb orb]. cbn [settle withTimers clearTimeout advance timers now
      lastEditTime changeQueue timeouts].
    rewrite Htimeouts. cbn [filter fst]. rewrite Nat.eqb_refl. cbn [negb].
    split; [reflexivity |]. split; [reflexivity |]. split; [reflexivity |].
    intros settings later. unfold idleCommitDue, tick.
    cbn [withTimers advance timers now lastEditTime negb].
    rewrite andb_true_r, Z.leb_le. unfold settle, withTimers, clearTimeout,
      advance. cbn [lastEditTime timers now]. lia.
Qed.

Lemma timeout_after_change_witness :
  fire 1 2999 (queueFileChange "a.md" (initial 1000))
  = queueFileChange "a.md" (initial 1000) /\
  lastEditTime (fire 1 3000 (queueFileChange "a.md" (initial 1000))) = 3000.
Proof.
  destruct (timeout_after_change "a.md" (initial 1000) (tidy_initial 1000))
    as [Hquiet Hsettle].
  split.
  - apply Hquiet. right. simpl. lia.
  - apply (Hsettle 3000). simpl. lia.
Defined.

Lemma pending_tidy : forall last s, pending last s -> tidy s.
Proof.
  intros last s [h [Htimeouts Hhandle]] p Hp. rewrite Htimeouts in Hp.
  destruct Hp as [<- | []]. exact Hhandle.
Qed.

Lemma queueFileChange_pending :
  forall (time : Z) (path : string) (s : Schedule),
    tidy s -> pending time (queueFileChange path (tick time s)).
Proof.
  intros time path s Htidy.
  rewrite (queueFileChange_tidy path (tick time s) (tidy_tick time s Htidy)).
  eexists. split; reflexivity.
Qed.

Lemma queueFileChange_keeps :
  forall (time : Z) (path : string) (s : Schedule),
    lastEditTime (queueFileChange path (tick time s)) = lastEditTime s /\
    changeQueue (queueFileChange path (tick time s))
    = setAdd (changeQueue s) path.
Proof.
  intros time path s. unfold queueFileChange, tick, withTimers.
  cbn [changeTimeout]. destruct (changeTimeout s); split; reflexivity.
Qed.

(** While the events keep coming within 2000 ms of the last change, the
    timeout stays pending: no callback runs. *)
Lemma run_quick :
  forall (events : list Event) (last : Z) (s : Schedule),
    pending last s -> quick last events = true ->
    pending (lastChange last events) (run events s) /\
    lastEditTime (run events s) = lastEditTime s /\
    (NoDup (changeQueue s) -> NoDup (changeQueue (run events s))) /\
    (forall p, In p (changeQueue (run events s)) <->
               In p (changeQueue s) \/ In p (changedPaths events)).
Proof.
  induction events as [| [time path | h time] events IH];
    intros last s Hs Hquick.
  - split; [exact Hs |]. split; [reflexivity |]. split; [auto |].
    intros p. simpl. tauto.
  - cbn [quick] in Hquick. apply andb_prop in Hquick.
    destruct Hquick as [_ Hquick].
    pose proof (pending_tidy last s Hs) as Htidy.
    destruct (IH time (queueFileChange path (tick time s))
                (queueFileChange_pending time path s Htidy) Hquick)
      as [Hpending [Hlast [Hnodup Hqueue]]].
    destruct (queueFileChange_keeps time path s) as [Hq_last Hq_queue].
    rewrite Hq_last in Hlast. rewrite Hq_queue in Hnodup, Hqueue.
    cbn [run fold_left deliver lastChange changedPaths] in *.
    split; [exact Hpending |]. split; [exact Hlast |]. split.
    + intros Hnd. apply Hnodup, setAdd_nodup, Hnd.
    + intros p. rewrite Hqueue, setAdd_in. simpl. intuition congruence.
  - cbn [quick] in Hquick. apply andb_prop in Hquick.
    destruct Hquick as [Hearly Hquick]. apply Z.ltb_lt in Hearly.
    assert (Hfire : fire h time s = s).
    { apply fire_not_pending. intros p Hp _.
      destruct Hs as [h0 [Htimeouts _]]. rewrite Htimeouts in Hp.
      destruct Hp as [<- | []]. exact Hearly. }
    cbn [run fold_left deliver lastChange changedPaths]. rewrite Hfire.
    apply IH; assumption.
Qed.

(** X19. A burst of changes. After a file change and any number of
    events that each come less than 2000 ms after the file change before
    them, whatever timeout callbacks the host tries to run in between, one
    timeout is pending at the end, due 2000 ms after the last change;
    [lastEditTime] has not moved; and the queue holds what it held and the
    paths that were queued, each once. *)
Theorem burst_settles_once :
  forall (events : list Event) (time : Z) (path : string) (s : Schedule),
    tidy s -> NoDup (changeQueue s) ->
    quick time events = true ->
    let s' := run (Changed time path :: events) s in
    pending (lastChange time events) s' /\
    lastEditTime s' = lastEditTime s /\
    NoDup (changeQueue s') /\
    (forall p,
       In p (changeQueue s') <->
       In p (changeQueue s) \/
       In p (changedPaths (Changed time path :: events))).
Proof.
  intros events time path s Htidy Hnd Hquick s'. subst s'.
  destruct (run_quick events time (queueFileChange path (tick time s))
              (queueFileChange_pending time path s Htidy) Hquick)
    as [Hpending [Hlast [Hnodup Hqueue]]].
  destruct (queueFileChange_keeps time path s) as [Hq_last Hq_queue].
  rewrite Hq_last in Hlast. rewrite Hq_queue in Hnodup, Hqueue.
  cbn [run fold_left deliver changedPaths] in *.
  split; [exact Hpending |]. split; [exact Hlast |]. split.
  - apply Hnodup, setAdd_nodup, Hnd.
  - intros p. rewrite Hqueue, setAdd_in. simpl. intuition congruence.
Qed.

Lemma burst_settles_once_witness :
  let s' := run [Changed 1000 "a.md"; Changed 1400 "b.md"; TimedOut 1 3000;
                 TimedOut 2 3399; Changed 3399 "a.md"] (initial 0) in
  timeouts (timers s') = [(3%nat, 5399)] /\
  changeQueue s' = ["a.md"; "b.md"] /\
  lastEditTime s' = 0.
Proof.
  destruct (burst_settles_once
              [Changed 1400 "b.md"; TimedOut 1 3000; TimedOut 2 3399;
               Changed 3399 "a.md"]
              1000 "a.md" (initial 0) (tidy_initial 0) (NoDup_nil _)
              eq_refl)
    as [_ [Hlast _]].
  split; [reflexivity |]. split; [reflexivity | exact Hlast].
Defined.

(** Outside a burst the timeout runs: [lastEditTime] moves and the queue
    starts again. *)
Example late_change_starts_again :
  let s' := run [Changed 0 "a.md"; TimedOut 1 2000; Changed 5000 "b.md"]
              (initial 0) in
  lastEditTime s' = 2000 /\ changeQueue s' = ["b.md"] /\
  timeouts (timers s') = [(2%nat, 7000)].
Proof. repeat split. Qed.

Lemma clear_tracked :
  forall (a b : option nat) (l : list Interval),
    (forall i, In i l -> a = Some (handle i) \/ b = Some (handle i)) ->
    intervals
      (let afterInterval :=
         match a with
         | Some h => clearInterval h
                       {| now := 0; nextHandle := 0; timeouts := [];
                          intervals := l |}
         | None => {| now := 0; nextHandle := 0; timeouts := [];
                      intervals := l |}
         end in
       match b with
       | Some h => clearInterval h afterInterval
       | None => afterInterval
       end) = [].
Proof.
  intros a b l. induction l as [| i l IH]; intros Hall.
  - destruct a, b; reflexivity.
  - assert (Hrest : forall j, In j l -> a = Some (handle j) \/ b = Some (handle j))
      by (intros j Hj; apply Hall; right; exact Hj).
    specialize (IH Hrest).
    destruct (Hall i (or_introl eq_refl)) as [-> | ->].
    + destruct b as [hb |]; simpl in *; rewrite Nat.eqb_refl; simpl; exact IH.
    + destruct a as [ha |]; simpl in *.
      * destruct (Nat.eqb (handle i) ha); simpl; [exact IH |].
        rewrite Nat.eqb_refl. simpl. exact IH.
      * rewrite Nat.eqb_refl. simpl. exact IH.
Qed.

Lemma stopTimers_intervals :
  forall s : Schedule,
    tracked s -> intervals (timers (stopTimers s)) = [].
Proof.
  intros s Htracked. unfold tracked in Htracked.
  pose proof (clear_tracked (intervalTimer s) (idleCheckTimer s)
                (intervals (timers s))) as Hclear.
  unfold stopTimers. cbn [timers].
  destruct (intervalTimer s) as [ha |], (idleCheckTimer s) as [hb |];
    simpl in *; apply Hclear; intros i Hi;
    destruct (Htracked i Hi) as [[Heq _] | [Heq _]];
    try discriminate; auto.
Qed.

(** X21. [stopTimers] stops the intervals and nothing else. On a plugin
    whose running intervals are the ones it remembers, no interval runs
    after [stopTimers] and both handles are forgotten; a pending debounce
    timeout stays pending, with its handle, the queue and [lastEditTime]. *)
Theorem stopTimers_leaves_debounce :
  forall s : Schedule,
    tracked s ->
    let s' := stopTimers s in
    intervals (timers s') = [] /\
    intervalTimer s' = None /\ idleCheckTimer s' = None /\
    timeouts (timers s') = timeouts (timers s) /\
    changeTimeout s' = changeTimeout s /\
    changeQueue s' = changeQueue s /\
    lastEditTime s' = lastEditTime s.
Proof.
  intros s Htracked s'. subst s'.
  split; [apply stopTimers_intervals, Htracked |].
  unfold stopTimers.
  destruct (intervalTimer s), (idleCheckTimer s); simpl; repeat split.
Qed.

Lemma tracked_initial : forall time, tracked (initial time).
Proof. intros time i []. Qed.

Lemma stopTimers_leaves_debounce_witness :
  let s := queueFileChange "a.md"
             (startTimers defaultTimerSettings (initial 1000)) in
  intervals (timers s) <> [] /\
  intervals (timers (stopTimers s)) = [] /\
  timeouts (timers (stopTimers s)) = [(2%nat, 3000)].
Proof.
  assert (Htracked : tracked (queueFileChange "a.md"
                       (startTimers defaultTimerSettings (initial 1000)))).
  { intros i [<- | []]. left. split; reflexivity. }
  destruct (stopTimers_leaves_debounce _ Htracked)
    as [Hintervals [_ [_ [Htimeouts _]]]].
  split; [discriminate |]. split; [exact Hintervals | exact Htimeouts].
Defined.

(** X22. [startTimers] starts from nothing. On a plugin whose running
    intervals are the ones it remembers, the intervals that run after
    [startTimers] are the ones the settings enable, whatever ran before:
    the commit every [intervalMinutes] and the idle check every 30 s; the
    plugin remembers them again. *)
Theorem startTimers_replaces :
  forall (settings : TimerSettings) (s : Schedule),
    tracked s ->
    let s' := startTimers settings s in
    map (fun i => (job i, period i)) (intervals (timers s'))
    = (if enableIntervalCommit settings
       then [(CommitOnInterval, intervalMinutes settings * 60 * 1000)]
       else [])
      ++ (if enableIdleCommit settings then [(CheckIdle, 30000)] else []) /\
    NoDup (map handle (intervals (timers s'))) /\
    tracked s'.
Proof.
  intros settings s Htracked s'. subst s'.
  pose proof (stopTimers_intervals s Htracked) as Hnone.
  assert (Hinterval : intervalTimer (stopTimers s) = None) by reflexivity.
  assert (Hidle : idleCheckTimer (stopTimers s) = None) by reflexivity.
  unfold startTimers.
  destruct (stopTimers s) as [t a b l q c]. cbn [timers intervalTimer
    idleCheckTimer] in Hnone, Hinterval, Hidle. subst a b.
  destruct t as [clock next pending running]. cbn [intervals] in Hnone.
  subst running.
  destruct (enableIntervalCommit settings), (enableIdleCommit settings);
    cbn.
  - split; [reflexivity |]. split.
    + constructor; [| constructor; [intros [] | constructor]].
      intros [Heq | []]. lia.
    + intros i [<- | [<- | []]]; [left | right]; split; reflexivity.
  - split; [reflexivity |]. split.
    + constructor; [intros [] | constructor].
    + intros i [<- | []]. left. split; reflexivity.
  - split; [reflexivity |]. split.
    + constructor; [intros [] | constructor].
    + intros i [<- | []]. right. split; reflexivity.
  - split; [reflexivity |]. split; [constructor |]. intros i [].
Qed.

Lemma startTimers_replaces_witness :
  map (fun i => (job i, period i))
    (intervals (timers
       (startTimers defaultTimerSettings
          (startTimers {| enableIntervalCommit := true; intervalMinutes := 1;
                          enableIdleCommit := true; idleMinutes := 10 |}
             (initial 0)))))
  = [(CommitOnInterval, 300000)].
Proof.
  refine (proj1 (startTimers_replaces defaultTimerSettings
                   (startTimers {| enableIntervalCommit := true;
                                   intervalMinutes := 1;
                                   enableIdleCommit := true;
                                   idleMinutes := 10 |} (initial 0)) _)).
  apply (proj2 (proj2 (startTimers_replaces _ (initial 0)
                         (tracked_initial 0)))).
Defined.

(** X23. [formatTimeAgo] rounds down to the largest unit that fits. For
    a time stamp that is not in the future the text is [n] and a unit,
    where [n] units have passed and [n + 1] have not: seconds below a
    minute, minutes below an hour, hours below a day, days from then on.
    For a time stamp in the future it is a negative number of seconds. *)
Theorem formatTimeAgo_rounds_down :
  forall current timestamp : Z,
    let elapsed := current - timestamp in
    (0 <= elapsed ->
     exists n unit suffix,
       formatTimeAgo current timestamp = toString n +++ suffix /\
       n * unit <= elapsed < (n + 1) * unit /\
       ((unit = 1000 /\ suffix = "s ago" /\ 0 <= n < 60) \/
        (unit = 60000 /\ suffix = "m ago" /\ 1 <= n < 60) \/
        (unit = 3600000 /\ suffix = "h ago" /\ 1 <= n < 24) \/
        (unit = 86400000 /\ suffix = "d ago" /\ 1 <= n))) /\
    (elapsed < 0 ->
     formatTimeAgo current timestamp = toString (elapsed / 1000) +++ "s ago" /\
     elapsed / 1000 < 0).
Proof.
  intros current timestamp elapsed. unfold formatTimeAgo. fold elapsed.
  generalize dependent elapsed. intros elapsed.
  split.
  - intros Hpos.
    destruct (elapsed / 1000 <? 60) eqn:H1.
    { apply Z.ltb_lt in H1. exists (elapsed / 1000), 1000, "s ago".
      split; [reflexivity |]. split; [| left]; repeat split;
        try (Z.to_euclidean_division_equations; lia). }
    apply Z.ltb_ge in H1.
    destruct (elapsed / 1000 <? 3600) eqn:H2.
    { apply Z.ltb_lt in H2. exists (elapsed / 1000 / 60), 60000, "m ago".
      split; [reflexivity |].
      split; [| right; left]; repeat split;
        try (Z.to_euclidean_division_equations; lia). }
    apply Z.ltb_ge in H2.
    destruct (elapsed / 1000 <? 86400) eqn:H3.
    { apply Z.ltb_lt in H3. exists (elapsed / 1000 / 3600), 3600000, "h ago".
      split; [reflexivity |].
      split; [| right; right; left]; repeat split;
        try (Z.to_euclidean_division_equations; lia). }
    apply Z.ltb_ge in H3.
    exists (elapsed / 1000 / 86400), 86400000, "d ago".
    split; [reflexivity |].
    split; [| right; right; right]; repeat split;
      try (Z.to_euclidean_division_equations; lia).
  - intros Hneg.
    assert (Hsec : elapsed / 1000 < 0)
      by (Z.to_euclidean_division_equations; lia).
    split; [| exact Hsec].
    replace (elapsed / 1000 <? 60) with true; [reflexivity |].
    symmetry. apply Z.ltb_lt. lia.
Qed.

Lemma formatTimeAgo_rounds_down_witness :
  formatTimeAgo 7260000 0 = "2h ago" /\
  formatTimeAgo 0 1 = "-1s ago".
Proof.
  destruct (formatTimeAgo_rounds_down 0 1) as [_ Hfuture].
  split; [reflexivity |].
  apply (proj1 (Hfuture ltac:(simpl; lia))).
Defined.

Lemma acceptedNumber_positive :
  forall (value : string) (num : Z),
    acceptedNumber value = Some num -> 0 < num.
Proof.
  intros value num. unfold acceptedNumber.
  destruct (parseInt (Some value)) as [z |]; [| discriminate].
  destruct (0 <? z) eqn:Hz; [| discriminate].
  intros Heq. injection Heq as <-. apply Z.ltb_lt, Hz.
Qed.

(** X24. The number fields of the settings tab never store a number that
    is not positive. Whatever text is typed, a positive
    [maxFilesInCommitMessage], [intervalMinutes] or [idleMinutes] stays
    positive, and the handler of one field changes no other setting. *)
Theorem number_fields_stay_positive :
  forall (value : string) (s : LocalGitSettings) (t : TimerSettings),
    0 < maxFilesInCommitMessage s ->
    0 < intervalMinutes t -> 0 < idleMinutes t ->
    (0 < maxFilesInCommitMessage (onMaxFilesChange value s) /\
     commitMode (onMaxFilesChange value s) = commitMode s /\
     hiddenFilesHandling (onMaxFilesChange value s) = hiddenFilesHandling s /\
     debugLogging (onMaxFilesChange value s) = debugLogging s) /\
    (0 < intervalMinutes (onIntervalChange value t) /\
     idleMinutes (onIntervalChange value t) = idleMinutes t /\
     enableIntervalCommit (onIntervalChange value t) = enableIntervalCommit t /\
     enableIdleCommit (onIntervalChange value t) = enableIdleCommit t) /\
    (0 < idleMinutes (onIdleChange value t) /\
     intervalMinutes (onIdleChange value t) = intervalMinutes t /\
     enableIntervalCommit (onIdleChange value t) = enableIntervalCommit t /\
     enableIdleCommit (onIdleChange value t) = enableIdleCommit t).
Proof.
  intros value s t Hmax Hinterval Hidle.
  unfold onMaxFilesChange, onIntervalChange, onIdleChange.
  pose proof (acceptedNumber_positive value) as Hpos.
  destruct (acceptedNumber value) as [num |]; simpl;
    [specialize (Hpos num eq_refl) |]; repeat split; assumption.
Qed.

Lemma number_fields_stay_positive_witness :
  maxFilesInCommitMessage (onMaxFilesChange "-3" defaultSettings) = 5 /\
  0 < intervalMinutes (onIntervalChange "15" defaultTimerSettings).
Proof.
  destruct (number_fields_stay_positive "15" defaultSettings
              defaultTimerSettings ltac:(simpl; lia) ltac:(simpl; lia)
              ltac:(simpl; lia)) as [_ [[Hinterval _] _]].
  split; [reflexivity | exact Hinterval].
Defined.

Lemma digits_stop :
  forall (rest : string) (acc : option Z), stops rest -> digits rest acc = acc.
Proof.
  intros [| c rest] acc Hstop; [reflexivity |].
  simpl in *. rewrite Hstop. reflexivity.
Qed.

Lemma digits_numeral_then :
  forall (d : Decimal.uint) (rest : string) (acc : Z),
    stops rest ->
    digits (NilEmpty.string_of_uint d +++ rest) (Some acc)
    = Some (numeralValue d acc).
Proof.
  induction d; intros rest acc Hstop; simpl;
    try (apply digits_stop, Hstop); apply IHd, Hstop.
Qed.

Lemma digits_numeral_start_then :
  forall (d : Decimal.uint) (rest : string),
    d <> Decimal.Nil -> stops rest ->
    digits (NilEmpty.string_of_uint d +++ rest) None
    = Some (numeralValue d 0).
Proof.
  intros [] rest Hd Hstop; try contradiction; simpl;
    apply digits_numeral_then, Hstop.
Qed.

Lemma nilzero_nilempty :
  forall d : Decimal.uint,
    d <> Decimal.Nil ->
    NilZero.string_of_uint d = NilEmpty.string_of_uint d.
Proof. intros [] Hd; try contradiction; reflexivity. Qed.

(** [parseInt] reads a number back from its text, whatever its sign, and
    ignores what follows the digits. *)
Lemma parseInt_toString_then :
  forall (z : Z) (rest : string),
    stops rest -> parseInt (Some (toString z +++ rest)) = Num z.
Proof.
  intros z rest Hstop. destruct z as [| p | p].
  - change (toString 0) with "0". cbn [String.append].
    rewrite (parseInt_after_digit "0" rest eq_refl). cbn [digits].
    change (isDigit "0") with true. cbv iota.
    rewrite (digits_stop rest _ Hstop). reflexivity.
  - destruct (toString_numeral (Z.pos p) ltac:(lia)) as [d [Hd [-> Hvalue]]].
    destruct (numeral_starts_with_digit d Hd) as [c [tail [Hs Hc]]].
    pose proof (digits_numeral_start_then d rest Hd Hstop) as Hdigits.
    rewrite Hs in *. cbn [String.append] in *.
    rewrite (parseInt_after_digit c (tail +++ rest) Hc), Hdigits, Hvalue.
    reflexivity.
  - unfold toString. cbn [Z.to_int NilZero.string_of_int String.append].
    rewrite (nilzero_nilempty _ (to_uint_not_nil p)).
    unfold parseInt, trimStart.
    rewrite NumstatFacts.trimWith_text by reflexivity.
    rewrite (digits_numeral_start_then _ rest (to_uint_not_nil p) Hstop).
    rewrite <- numeralValue_of_uint, DecimalPos.Unsigned.of_to.
    reflexivity.
Qed.

(** X25. What the number fields make of a number. Typed as a safe
    integer [z], with or without text after it that does not start with a
    digit, the field stores [z] when [z] is positive and nothing otherwise;
    typing the number that the field shows, when that is a positive safe
    integer, changes no setting. *)
Theorem acceptedNumber_of_number :
  forall (z : Z) (rest : string),
    isSafeInteger z = true ->
    stops rest ->
    acceptedNumber (toString z +++ rest) = (if 0 <? z then Some z else None) /\
    forall s : LocalGitSettings,
      maxFilesInCommitMessage s = z -> 0 < z ->
      onMaxFilesChange (toString z) s = s.
Proof.
  intros z rest _ Hstop. split.
  - unfold acceptedNumber. rewrite (parseInt_toString_then z rest Hstop).
    reflexivity.
  - intros s Hz Hpos. unfold onMaxFilesChange, acceptedNumber.
    rewrite <- (StringFacts.append_empty (toString _)).
    rewrite (parseInt_toString_then _ "" I).
    apply Z.ltb_lt in Hpos. rewrite Hpos. subst z. destruct s; reflexivity.
Qed.

Lemma acceptedNumber_of_number_witness :
  acceptedNumber "12 files" = Some 12 /\ acceptedNumber "0" = None.
Proof.
  split.
  - apply (proj1 (acceptedNumber_of_number 12 " files" eq_refl eq_refl)).
  - apply (proj1 (acceptedNumber_of_number 0 "" eq_refl I)).
Defined.

End SchedulingFacts.
